(** * AIReviewMate: review pipeline, GitHub relay and the page's calls

    A shallow embedding of the repository:

    - [services/gemini.js]  : [reviewCode] (JSON extraction, post-processing,
      mapping of provider errors);
    - [routes/review.js]    : the [POST /review] handler;
    - [routes/github.js]    : the [GET /login], [GET /callback], [GET /repos]
      and [POST /pull-request] handlers;
    - [client/src/services/api.ts] : the address of an endpoint, the calls
      to the backend, the token and the error of the OAuth callback;
    - [client/src/components/Demo.tsx] : the test that starts the cooldown
      of the summon button;
    - [client/src/App.tsx] : the effect that receives the OAuth callback.

    JavaScript strings are sequences of UTF-16 code units and are modelled as
    lists of [N]; numbers are the extended rationals (every finite binary64
    value is a rational); JSON data is an inductive type of values.  Calls
    that leave the process (the model provider, the GitHub API, the AI client
    seen from the route, the backend seen from the page) are events of a
    small interaction type.  The functions of the platform that the code
    calls ([encodeURIComponent], [decodeURIComponent], [URLSearchParams])
    follow their standards. *)

From Stdlib Require Import String Ascii.
From Stdlib Require Import List NArith ZArith QArith Qround Lia Bool.
Import ListNotations.

Set Implicit Arguments.
Set Warnings "-register-all".

(* ================================================================== *)
(** * Strings *)

Module Str.

Definition jsstring := list N.

(** An ASCII literal of the source, as code units. *)
Definition js (s : string) : jsstring :=
  map N_of_ascii (list_ascii_of_string s).

(** The same, for literals that contain double quotes: they are written
    with an apostrophe in place of each double quote. *)
Definition jsq (s : string) : jsstring :=
  map (fun c => if (c =? 39)%N then 34%N else c) (js s).

(** [String.prototype.startsWith] *)
Fixpoint startsWith (p s : jsstring) : bool :=
  match p, s with
  | [], _ => true
  | _ :: _, [] => false
  | a :: p', b :: s' => (a =? b)%N && startsWith p' s'
  end.

(** [String.prototype.includes] *)
Fixpoint includes (needle hay : jsstring) : bool :=
  startsWith needle hay ||
  match hay with
  | [] => false
  | _ :: t => includes needle t
  end.

(** WhiteSpace and LineTerminator code units of ECMAScript: the set removed
    by [trim] and matched by the regular-expression class [\s]. *)
Definition isWhiteSpace (c : N) : bool :=
  ((9 <=? c) && (c <=? 13) || (c =? 32) || (c =? 160) || (c =? 5760)
   || (8192 <=? c) && (c <=? 8202) || (c =? 8232) || (c =? 8233)
   || (c =? 8239) || (c =? 8287) || (c =? 12288) || (c =? 65279))%N.

Fixpoint trimStart (s : jsstring) : jsstring :=
  match s with
  | c :: t => if isWhiteSpace c then trimStart t else s
  | [] => []
  end.

Definition trimEnd (s : jsstring) : jsstring := rev (trimStart (rev s)).

(** [String.prototype.trim] *)
Definition trim (s : jsstring) : jsstring := trimEnd (trimStart s).

Definition eqb (a b : jsstring) : bool :=
  if list_eq_dec N.eq_dec a b then true else false.

Lemma eqb_eq a b : eqb a b = true <-> a = b.
Proof. unfold eqb. destruct (list_eq_dec N.eq_dec a b); split; congruence. Qed.

Lemma eqb_refl a : eqb a a = true.
Proof. now apply eqb_eq. Qed.

(** Decimal digits of a natural number, as printed for an integer. *)
Fixpoint digits_fuel (fuel : nat) (n : N) (acc : jsstring) : jsstring :=
  match fuel with
  | O => acc
  | S f =>
      let acc' := (48 + n mod 10)%N :: acc in
      if (n <? 10)%N then acc' else digits_fuel f (n / 10)%N acc'
  end.

Definition decimal (n : N) : jsstring :=
  digits_fuel (S (N.to_nat (N.log2 n))) n [].

Lemma startsWith_app p s : startsWith p (p ++ s) = true.
Proof.
  induction p as [|a p IH]; simpl; [reflexivity|].
  now rewrite N.eqb_refl, IH.
Qed.

Lemma startsWith_spec p s :
  startsWith p s = true <-> exists t, s = p ++ t.
Proof.
  split.
  - revert s. induction p as [|a p IH]; intros s H.
    + now exists s.
    + destruct s as [|b s]; simpl in H; [discriminate|].
      apply andb_true_iff in H as [Hab Hp].
      apply N.eqb_eq in Hab. subst b.
      destruct (IH _ Hp) as [t ->]. now exists t.
  - intros [t ->]. apply startsWith_app.
Qed.

Lemma includes_startsWith needle hay :
  startsWith needle hay = true -> includes needle hay = true.
Proof. intros H. destruct hay; simpl; now rewrite H. Qed.

Lemma includes_spec needle hay :
  includes needle hay = true <->
  exists pre post, hay = pre ++ needle ++ post.
Proof.
  split.
  - induction hay as [|c hay IH]; simpl; intros H.
    + apply orb_true_iff in H as [H|H]; [|discriminate].
      apply startsWith_spec in H as [t Ht]. now exists [], t.
    + apply orb_true_iff in H as [H|H].
      * apply startsWith_spec in H as [t Ht]. now exists [], t.
      * destruct (IH H) as (pre & post & ->). now exists (c :: pre), post.
  - intros (pre & post & ->).
    induction pre as [|c pre IH]; simpl.
    + apply includes_startsWith, startsWith_app.
    + rewrite IH. apply orb_true_r.
Qed.

Lemma includes_app_r needle a b :
  includes needle b = true -> includes needle (a ++ b) = true.
Proof.
  intros H. apply includes_spec in H as (pre & post & ->).
  apply includes_spec. exists (a ++ pre), post. now rewrite app_assoc.
Qed.

Lemma includes_app_l needle a b :
  includes needle a = true -> includes needle (a ++ b) = true.
Proof.
  intros H. apply includes_spec in H as (pre & post & ->).
  apply includes_spec. exists pre, (post ++ b). now rewrite <- !app_assoc.
Qed.







End Str.
Import Str.

(* ================================================================== *)
(** * Numbers *)

(** A JavaScript number: NaN, an infinity, or a finite value.  Finite values
    are kept as exact rationals; sums and products are not rounded to
    binary64, which agrees with the runtime on all integers below 2^53 and
    so on every count and every clamped level computed below.  The sign of
    zero is not tracked: no operation of the program distinguishes [-0]. *)
Inductive number :=
| NaN
| Inf (negative : bool)
| Fin (q : Q).

Definition num (z : Z) : number := Fin (inject_Z z).

Definition is_zero (q : Q) : bool := (Qnum q =? 0)%Z.
Definition is_neg (q : Q) : bool := (Qnum q <? 0)%Z.

(** [x * y] on numbers *)
Definition mul (x y : number) : number :=
  match x, y with
  | NaN, _ | _, NaN => NaN
  | Inf s, Inf t => Inf (xorb s t)
  | Inf s, Fin q | Fin q, Inf s =>
      if is_zero q then NaN else Inf (xorb s (is_neg q))
  | Fin a, Fin b => Fin (a * b)
  end.

(** [x + y] on numbers *)
Definition add (x y : number) : number :=
  match x, y with
  | NaN, _ | _, NaN => NaN
  | Inf s, Inf t => if Bool.eqb s t then Inf s else NaN
  | Inf s, Fin _ | Fin _, Inf s => Inf s
  | Fin a, Fin b => Fin (a + b)
  end.

(** [Math.min] and [Math.max] of two arguments: NaN if either is NaN. *)
Definition Math_min (x y : number) : number :=
  match x, y with
  | NaN, _ | _, NaN => NaN
  | Inf true, _ | _, Inf true => Inf true
  | Inf false, z | z, Inf false => z
  | Fin a, Fin b => if Qle_bool a b then Fin a else Fin b
  end.

Definition Math_max (x y : number) : number :=
  match x, y with
  | NaN, _ | _, NaN => NaN
  | Inf false, _ | _, Inf false => Inf false
  | Inf true, z | z, Inf true => z
  | Fin a, Fin b => if Qle_bool a b then Fin b else Fin a
  end.

(** [Math.round]: the nearest integer, ties towards +infinity. *)
Definition Math_round (x : number) : number :=
  match x with
  | Fin q => num (Qfloor (q + (1 # 2)))
  | _ => x
  end.

(** [Math.ceil] *)
Definition Math_ceil (x : number) : number :=
  match x with
  | Fin q => num (Qceiling q)
  | _ => x
  end.

(** The clamp of [reviewCode]:
    [Math.max(0, Math.min(100, Math.round(x)))]. *)
Definition clamp (x : number) : number :=
  Math_max (num 0) (Math_min (num 100) (Math_round x)).

(** An integer between 0 and 100. *)
Definition level (x : number) : Prop :=
  exists z : Z, (0 <= z <= 100)%Z /\ x = num z.

Lemma Qle_bool_inject a b :
  Qle_bool (inject_Z a) (inject_Z b) = (a <=? b)%Z.
Proof. unfold Qle_bool, inject_Z; simpl. now rewrite !Z.mul_1_r. Qed.

Lemma clamp_cases x : x <> NaN -> level (clamp x).
Proof.
  intros Hx. unfold clamp, level.
  destruct x as [|[|]|q]; [congruence| | |].
  - exists 0%Z. split; [lia|reflexivity].
  - exists 100%Z. split; [lia|reflexivity].
  - unfold Math_round, Math_min, Math_max, num.
    rewrite Qle_bool_inject.
    destruct (100 <=? Qfloor (q + (1 # 2)))%Z eqn:E1.
    + exists 100%Z. split; [lia|reflexivity].
    + rewrite Qle_bool_inject.
      destruct (0 <=? Qfloor (q + (1 # 2)))%Z eqn:E2.
      * exists (Qfloor (q + (1 # 2))). split; [lia|reflexivity].
      * exists 0%Z. split; [lia|reflexivity].
Qed.

Lemma clamp_NaN : clamp NaN = NaN.
Proof. reflexivity. Qed.

Lemma level_not_NaN x : level x -> x <> NaN.
Proof. intros (z & _ & ->). discriminate. Qed.

(** A count of entries, as a number. *)
Definition count (n : nat) : number := num (Z.of_nat n).

Lemma mul_count n k : mul (count n) (num k) = num (Z.of_nat n * k).
Proof. unfold count, num, mul, inject_Z, Qmult; simpl. reflexivity. Qed.

Lemma add_num a b : add (num a) (num b) = num (a + b).
Proof.
  unfold num, add, inject_Z, Qplus; simpl. now rewrite !Z.mul_1_r.
Qed.

Lemma Math_min_num a b : Math_min (num a) (num b) = num (Z.min a b).
Proof.
  unfold Math_min, num. rewrite Qle_bool_inject.
  destruct (a <=? b)%Z eqn:E; f_equal; f_equal; lia.
Qed.

Lemma Math_max_num a b : Math_max (num a) (num b) = num (Z.max a b).
Proof.
  unfold Math_max, num. rewrite Qle_bool_inject.
  destruct (a <=? b)%Z eqn:E; f_equal; f_equal; lia.
Qed.

Lemma Math_round_num z : Math_round (num z) = num z.
Proof.
  unfold Math_round, num. do 2 f_equal.
  unfold Qfloor, Qplus, inject_Z. simpl.
  symmetry. apply Z.div_unique with (r := 1%Z); lia.
Qed.

(** The clamp leaves an integer between 0 and 100 as it is. *)
Lemma clamp_level x : level x -> clamp x = x.
Proof.
  intros (z & Hz & ->). unfold clamp.
  rewrite Math_round_num, Math_min_num, Math_max_num.
  f_equal. lia.
Qed.

Close Scope Q_scope.

(* ================================================================== *)
(** * Errors and results *)

(** A thrown value, seen through the only thing the program reads from it:
    [error.message] ([None] when the thrown value carries no message). *)
Record error := mkError { message : option jsstring }.

(** [new Error(m)] *)
Definition Error (m : jsstring) : error := mkError (Some m).

(** The outcome of evaluating a piece of code that may throw. *)
Inductive result (A : Type) :=
| Returned (a : A)
| Threw (e : error).
Arguments Returned {A} a.
Arguments Threw {A} e.

Definition bind {A B} (c : result A) (k : A -> result B) : result B :=
  match c with
  | Returned a => k a
  | Threw e => Threw e
  end.

Notation "x <- c ;; k" := (bind c (fun x => k))
  (at level 61, c at next level, right associativity).

(** [try { c } catch (error) { h error }] *)
Definition try_catch {A} (c : result A) (h : error -> result A) : result A :=
  match c with
  | Returned a => Returned a
  | Threw e => h e
  end.

(* ================================================================== *)
(** * Values *)

(** The values a program obtains from [JSON.parse], and [undefined] for what
    is absent. An object is the list of its own properties. *)
Inductive JsVal :=
| JUndefined
| JNull
| JBool (b : bool)
| JNum (n : number)
| JStr (s : jsstring)
| JArr (l : list JsVal)
| JObj (o : list (jsstring * JsVal)).

Definition object := list (jsstring * JsVal).

(** Conversions between numbers and text that depend on the binary64
    representation; they belong to the runtime and are parameters of the
    development. *)
Class Runtime := {
  (** [Number(s)] for a string [s] *)
  StringToNumber : jsstring -> number;
  (** [String(n)] for a number [n] *)
  NumberToString : number -> jsstring;
  (** [parseFloat(s)] *)
  parseFloat : jsstring -> number;
  (** [Buffer.from(v).toString('base64')] *)
  toBase64 : JsVal -> result jsstring
}.

(** ToBoolean *)
Definition truthy (v : JsVal) : bool :=
  match v with
  | JUndefined | JNull => false
  | JBool b => b
  | JNum NaN => false
  | JNum (Inf _) => true
  | JNum (Fin q) => negb (is_zero q)
  | JStr s => match s with [] => false | _ => true end
  | JArr _ | JObj _ => true
  end.

(** [a || b] *)
Definition js_or (a b : JsVal) : JsVal := if truthy a then a else b.

(** [typeof v === 'number'], [typeof v === 'string'], [Array.isArray(v)] *)
Definition is_number (v : JsVal) : bool :=
  match v with JNum _ => true | _ => false end.
Definition is_string (v : JsVal) : bool :=
  match v with JStr _ => true | _ => false end.
Definition isArray (v : JsVal) : bool :=
  match v with JArr _ => true | _ => false end.

(** Own property lookup; [undefined] when the key is absent. *)
Fixpoint lookup (o : object) (key : jsstring) : JsVal :=
  match o with
  | [] => JUndefined
  | (k, v) :: rest => if Str.eqb k key then v else lookup rest key
  end.

Fixpoint has_key (o : object) (key : jsstring) : bool :=
  match o with
  | [] => false
  | (k, _) :: rest => Str.eqb k key || has_key rest key
  end.

(** [o[key] = v]: an existing property keeps its place, a new one is added
    at the end. *)
Fixpoint assign (o : object) (key : jsstring) (v : JsVal) : object :=
  match o with
  | [] => [(key, v)]
  | (k, w) :: rest =>
      if Str.eqb k key then (k, v) :: rest else (k, w) :: assign rest key v
  end.

Lemma lookup_assign_same o key v : lookup (assign o key v) key = v.
Proof.
  induction o as [|[k w] o IH]; simpl.
  - now rewrite Str.eqb_refl.
  - destruct (Str.eqb k key) eqn:E; simpl; now rewrite E.
Qed.

Lemma lookup_assign_other o key key' v :
  key <> key' -> lookup (assign o key v) key' = lookup o key'.
Proof.
  intros Hne. induction o as [|[k w] o IH]; simpl.
  - destruct (Str.eqb key key') eqn:E; [|reflexivity].
    apply Str.eqb_eq in E. contradiction.
  - destruct (Str.eqb k key) eqn:E; simpl.
    + apply Str.eqb_eq in E. subst k.
      destruct (Str.eqb key key') eqn:E'; [|reflexivity].
      apply Str.eqb_eq in E'. contradiction.
    + now rewrite IH.
Qed.

Definition TypeError (m : jsstring) : error := Error m.

(** The message of the engine when a property of [null] or [undefined] is
    read. *)
Definition cannot_read (what key : jsstring) : jsstring :=
  js "Cannot read properties of " ++ what ++ js " (reading '" ++ key
  ++ js "')".

(** [v.key] for a key other than an array index: reading a property of
    [null] or [undefined] throws; strings and arrays have a [length];
    nothing else is inherited under the names the program reads. *)
Definition get (v : JsVal) (key : jsstring) : result JsVal :=
  match v with
  | JUndefined => Threw (TypeError (cannot_read (js "undefined") key))
  | JNull => Threw (TypeError (cannot_read (js "null") key))
  | JObj o => Returned (lookup o key)
  | JStr s =>
      Returned (if Str.eqb key (js "length")
                then JNum (count (length s)) else JUndefined)
  | JArr l =>
      Returned (if Str.eqb key (js "length")
                then JNum (count (length l)) else JUndefined)
  | JBool _ | JNum _ => Returned JUndefined
  end.

(** [v?.length]: as [v.length], but [undefined] on [null] and
    [undefined]. *)
Definition length_opt (v : JsVal) : JsVal :=
  match v with
  | JStr s => JNum (count (length s))
  | JArr l => JNum (count (length l))
  | JObj o => lookup o (js "length")
  | _ => JUndefined
  end.

Section Conversions.
Context {rt : Runtime}.

(** ToString. An object from [JSON.parse] inherits
    [Object.prototype.toString] unless it has an own property of that name,
    which is then not callable, and the conversion throws. Array elements
    [null] and [undefined] are joined as empty strings. *)
Fixpoint ToString (v : JsVal) : result jsstring :=
  match v with
  | JUndefined => Returned (js "undefined")
  | JNull => Returned (js "null")
  | JBool true => Returned (js "true")
  | JBool false => Returned (js "false")
  | JNum n => Returned (NumberToString n)
  | JStr s => Returned s
  | JObj o =>
      if has_key o (js "toString")
      then Threw (TypeError (js "Cannot convert object to primitive value"))
      else Returned (js "[object Object]")
  | JArr l =>
      let element x :=
        match x with
        | JUndefined | JNull => Returned []
        | _ => ToString x
        end in
      (fix join (l : list JsVal) : result jsstring :=
         match l with
         | [] => Returned []
         | [x] => element x
         | x :: rest =>
             e <- element x ;; r <- join rest ;; Returned (e ++ js "," ++ r)
         end) l
  end.

(** The only exception of ToString. *)
Lemma ToString_error : forall v e,
  ToString v = Threw e ->
  e = TypeError (js "Cannot convert object to primitive value").
Proof.
  fix IH 1. intros v e. destruct v as [| |b|n|s|l|o]; cbn [ToString];
    try discriminate.
  - destruct b; discriminate.
  - revert l e. fix IHl 1. intros l e. destruct l as [|x l'];
      [discriminate|].
    assert (Hx : forall e',
              match x with
              | JUndefined | JNull => Returned []
              | _ => ToString x
              end = Threw e' ->
              e' = TypeError (js "Cannot convert object to primitive value")).
    { intros e' H.
      assert (Hx : ToString x = Threw e')
        by (destruct x; try discriminate; exact H).
      exact (IH x _ Hx). }
    intros H.
    assert (Hstep :
              match x with
              | JUndefined | JNull => Returned []
              | _ => ToString x
              end = Threw e \/
              (fix join (l : list JsVal) : result jsstring :=
                 match l with
                 | [] => Returned []
                 | [x] =>
                     match x with
                     | JUndefined | JNull => Returned []
                     | _ => ToString x
                     end
                 | x :: rest =>
                     e <- match x with
                          | JUndefined | JNull => Returned []
                          | _ => ToString x
                          end ;;
                     r <- join rest ;; Returned (e ++ js "," ++ r)
                 end) l' = Threw e).
    { destruct l' as [|y l'']; [now left|].
      destruct (match x with
                | JUndefined | JNull => Returned []
                | _ => ToString x
                end) as [sx|ex]; [|left; exact H].
      cbn [bind] in H.
      match type of H with
      | bind ?c _ = _ => destruct c as [sr|er] eqn:Er
      end; [discriminate|].
      cbn [bind] in H. injection H as <-. right. exact Er. }
    destruct Hstep as [Hs|Hs]; [now apply Hx|exact (IHl l' _ Hs)].
  - destruct (has_key o (js "toString")); [|discriminate].
    intros H. now injection H as <-.
Qed.

(** ToNumber. The text ["[object Object]"] is no numeric literal. *)
Definition ToNumber (v : JsVal) : result number :=
  match v with
  | JUndefined => Returned NaN
  | JNull => Returned (num 0)
  | JBool true => Returned (num 1)
  | JBool false => Returned (num 0)
  | JNum n => Returned n
  | JStr s => Returned (StringToNumber s)
  | JObj o => _ <- ToString v ;; Returned NaN
  | JArr _ => s <- ToString v ;; Returned (StringToNumber s)
  end.

(** [a * b] and [a + b] where both operands convert to numbers. *)
Definition js_mul (a : JsVal) (b : number) : result number :=
  x <- ToNumber a ;; Returned (mul x b).

End Conversions.

(* ================================================================== *)
(** * Regular expressions *)

(** The fragment of ECMAScript regular expressions the program uses, with
    the backtracking semantics of the language: quantifiers are greedy, an
    iteration that consumes nothing is rejected, and the first start
    position that admits a match wins. *)
Module Regex.

Inductive regex :=
| Eps                       (* the empty pattern *)
| Class (p : N -> bool)     (* one code unit of a class *)
| Seq (r1 r2 : regex)
| Opt (r : regex)           (* r? *)
| Star (r : regex)          (* r* *)
| Group (r : regex)         (* ( r ) *)
| Bol                       (* ^ *)
| Eol.                      (* $ *)

Definition Chr (c : N) : regex := Class (N.eqb c).
Definition Plus (r : regex) : regex := Seq r (Star r).

(** A literal, and a literal under the [i] flag (the letters of the
    program's patterns are ASCII, for which the canonical form is the
    upper-case letter). *)
Fixpoint lit (s : jsstring) : regex :=
  match s with
  | [] => Eps
  | c :: t => Seq (Chr c) (lit t)
  end.

Definition upper (c : N) : N :=
  if ((97 <=? c) && (c <=? 122))%N then (c - 32)%N else c.

Definition lower (c : N) : N :=
  if ((65 <=? c) && (c <=? 90))%N then (c + 32)%N else c.

Definition Chr_i (c : N) : regex :=
  Class (fun d => (d =? upper c) || (d =? lower c))%N.

Fixpoint lit_i (s : jsstring) : regex :=
  match s with
  | [] => Eps
  | c :: t => Seq (Chr_i c) (lit_i t)
  end.

Definition orelse {A} (a b : option A) : option A :=
  match a with
  | Some x => Some x
  | None => b
  end.

Section Matcher.
Variable A : Type.

(** The continuation receives the position reached, the rest of the input
    and the captures so far. *)
Definition cont := nat -> jsstring -> list jsstring -> option A.

(** The iterations of a star: at most one per code unit left, since each
    must consume something. *)
Fixpoint iterate (body : nat -> jsstring -> list jsstring -> cont -> option A)
  (k : cont) (n : nat) (i : nat) (s : jsstring) (caps : list jsstring)
  {struct n} : option A :=
  match n with
  | O => k i s caps
  | S n' =>
      orelse
        (body i s caps
           (fun i' s' caps' =>
              if i <? i' then iterate body k n' i' s' caps' else None))
        (k i s caps)
  end.

Fixpoint m (r : regex) (i : nat) (s : jsstring) (caps : list jsstring)
  (k : cont) {struct r} : option A :=
  match r with
  | Eps => k i s caps
  | Class p =>
      match s with
      | c :: t => if p c then k (S i) t caps else None
      | [] => None
      end
  | Seq r1 r2 => m r1 i s caps (fun i' s' caps' => m r2 i' s' caps' k)
  | Opt r1 =>
      orelse
        (m r1 i s caps
           (fun i' s' caps' => if i <? i' then k i' s' caps' else None))
        (k i s caps)
  | Star r1 => iterate (m r1) k (S (length s)) i s caps
  | Group r1 =>
      m r1 i s caps
        (fun i' s' caps' => k i' s' (caps' ++ [firstn (i' - i) s]))
  | Bol => if i =? 0 then k i s caps else None
  | Eol =>
      match s with
      | [] => k i s caps
      | _ :: _ => None
      end
  end.

End Matcher.

(** A match: where it starts, where it ends, and its captures. *)
Record found := mkFound { start : nat; stop : nat; groups : list jsstring }.

(** The final continuation: the match that started at [i] is complete. *)
Definition kf (i : nat) : cont found :=
  fun e _ caps => Some (mkFound i e caps).

(** The first start position at or after [i] from which [r] matches. *)
Fixpoint search (r : regex) (i : nat) (s : jsstring) : option found :=
  match m r i s [] (kf i) with
  | Some f => Some f
  | None =>
      match s with
      | [] => None
      | _ :: t => search r (S i) t
      end
  end.

(** [RegExp.prototype.exec] on a pattern without the [g] flag. *)
Definition exec (r : regex) (text : jsstring) : option found :=
  search r 0 text.

(** [text.replace(r, '')] *)
Definition remove (r : regex) (text : jsstring) : jsstring :=
  match exec r text with
  | Some f => firstn (start f) text ++ skipn (stop f) text
  | None => text
  end.

(** The whole match, [text.match(r)[0]]. *)
Definition whole (text : jsstring) (f : found) : jsstring :=
  firstn (stop f - start f) (skipn (start f) text).

(** The n-th capture, [text.match(r)[n]], for n >= 1. *)
Definition group (n : nat) (f : found) : option jsstring :=
  nth_error (groups f) (n - 1).

(** ** The matcher on the shapes the program's patterns are made of *)

Lemma m_lit A l i s caps (k : cont A) :
  m (lit l) i s caps k =
  if startsWith l s then k (i + length l) (skipn (length l) s) caps
  else None.
Proof.
  revert i s. induction l as [|c l IH]; intros i s; simpl.
  - now rewrite Nat.add_0_r.
  - destruct s as [|d s]; [reflexivity|].
    rewrite (N.eqb_sym c d).
    destruct (d =? c)%N; simpl; [|reflexivity].
    rewrite IH. now rewrite Nat.add_succ_r.
Qed.

(** A starred class tries the longest run first and gives back one code
    unit at a time. *)
Fixpoint star_class A (p : N -> bool) (i : nat) (s : jsstring)
  (caps : list jsstring) (k : cont A) : option A :=
  match s with
  | c :: t =>
      if p c then orelse (star_class p (S i) t caps k) (k i s caps)
      else k i s caps
  | [] => k i s caps
  end.

Lemma m_star_class A p i s caps (k : cont A) :
  m (Star (Class p)) i s caps k = star_class p i s caps k.
Proof.
  change (m (Star (Class p)) i s caps k)
    with (iterate (m (Class p)) k (S (length s)) i s caps).
  remember (S (length s)) as n eqn:En.
  assert (Hn : length s < n) by lia. clear En.
  revert i s Hn. induction n as [|n IH]; intros i s Hn; [lia|].
  destruct s as [|c t]; [reflexivity|].
  cbn [star_class iterate m]. destruct (p c) eqn:Ep.
  - assert (Hlt : (i <? S i) = true) by (apply Nat.ltb_lt; lia).
    rewrite Hlt. rewrite IH by (simpl in Hn; lia). reflexivity.
  - reflexivity.
Qed.

Lemma star_class_sound A p i s caps (k : cont A) a :
  star_class p i s caps k = Some a ->
  exists w s', s = w ++ s' /\ forallb p w = true /\
               k (i + length w) s' caps = Some a.
Proof.
  revert i. induction s as [|c t IH]; intros i H; simpl in H.
  - exists [], []. now rewrite Nat.add_0_r.
  - destruct (p c) eqn:Ep.
    + destruct (star_class p (S i) t caps k) eqn:E; simpl in H.
      * injection H as ->. destruct (IH _ E) as (w & s' & -> & Hw & Hk).
        exists (c :: w), s'. simpl. rewrite Ep, Hw.
        now rewrite Nat.add_succ_r.
      * exists [], (c :: t). now rewrite Nat.add_0_r.
    + exists [], (c :: t). now rewrite Nat.add_0_r.
Qed.

Lemma star_class_complete A p i w s' caps (k : cont A) :
  forallb p w = true ->
  k (i + length w) s' caps <> None ->
  star_class p i (w ++ s') caps k <> None.
Proof.
  revert i. induction w as [|c w IH]; intros i Hw Hk.
  - simpl in *. rewrite Nat.add_0_r in Hk.
    destruct s' as [|d s']; simpl; [assumption|].
    destruct (p d); [|assumption].
    destruct (star_class p (S i) s' caps k); simpl; [discriminate|assumption].
  - simpl in *. apply andb_true_iff in Hw as [Hc Hw]. rewrite Hc.
    rewrite Nat.add_succ_r in Hk.
    specialize (IH (S i) Hw Hk).
    destruct (star_class p (S i) (w ++ s') caps k); simpl;
      [discriminate|contradiction].
Qed.

(** The first success of a starred class is at its longest run: every
    longer run is refused by the continuation. *)
Lemma star_class_none A p i s caps (k : cont A) w s' :
  star_class p i s caps k = None ->
  s = w ++ s' -> forallb p w = true ->
  k (i + length w) s' caps = None.
Proof.
  intros H -> Hw.
  destruct (k (i + length w) s' caps) eqn:E; [|reflexivity].
  exfalso. revert H. apply star_class_complete; [assumption|].
  now rewrite E.
Qed.

Lemma star_class_first A p i s caps (k : cont A) a :
  star_class p i s caps k = Some a ->
  exists w s', s = w ++ s' /\ forallb p w = true /\
               k (i + length w) s' caps = Some a /\
    forall w' s'', s = w' ++ s'' -> forallb p w' = true ->
      length w < length w' -> k (i + length w') s'' caps = None.
Proof.
  revert i. induction s as [|c t IH]; intros i H; simpl in H.
  - exists [], []. rewrite Nat.add_0_r. repeat split; try assumption.
    intros w' s'' Heq _ Hl. destruct w'; [simpl in Hl; lia|discriminate].
  - destruct (p c) eqn:Ep.
    + destruct (star_class p (S i) t caps k) eqn:E; simpl in H.
      * injection H as ->.
        destruct (IH _ E) as (w & s' & -> & Hw & Hk & Hfirst).
        exists (c :: w), s'. simpl. rewrite Ep, Hw, Nat.add_succ_r.
        repeat split; try assumption.
        intros w' s'' Heq Hw' Hl. destruct w' as [|d w']; [simpl in Hl; lia|].
        simpl in Heq. injection Heq as <- Heq. simpl in Hw', Hl.
        apply andb_true_iff in Hw' as [_ Hw'].
        simpl. rewrite Nat.add_succ_r. apply Hfirst; [assumption..|lia].
      * exists [], (c :: t). rewrite Nat.add_0_r.
        repeat split; try assumption.
        intros w' s'' Heq Hw' Hl. destruct w' as [|d w']; [simpl in Hl; lia|].
        simpl in Heq. injection Heq as <- Heq. simpl in Hw'.
        apply andb_true_iff in Hw' as [_ Hw'].
        simpl. rewrite Nat.add_succ_r.
        exact (@star_class_none A p (S i) t caps k w' s'' E Heq Hw').
    + exists [], (c :: t). rewrite Nat.add_0_r.
      repeat split; try assumption.
      intros w' s'' Heq Hw' Hl. destruct w' as [|d w']; [simpl in Hl; lia|].
      simpl in Heq. injection Heq as <- Heq. simpl in Hw'.
      rewrite Ep in Hw'. discriminate.
Qed.

(** The longest run of a class at the head of a string, and what follows. *)
Fixpoint run (p : N -> bool) (s : jsstring) : jsstring :=
  match s with
  | c :: t => if p c then c :: run p t else []
  | [] => []
  end.

Fixpoint after (p : N -> bool) (s : jsstring) : jsstring :=
  match s with
  | c :: t => if p c then after p t else s
  | [] => []
  end.

Lemma run_after p s : run p s ++ after p s = s.
Proof.
  induction s as [|c t IH]; simpl; [reflexivity|].
  destruct (p c); simpl; [now rewrite IH|reflexivity].
Qed.

Lemma star_class_longest A p i s caps (k : cont A) a :
  k (i + length (run p s)) (after p s) caps = Some a ->
  star_class p i s caps k = Some a.
Proof.
  revert i. induction s as [|c t IH]; intros i H; simpl in *.
  - now rewrite Nat.add_0_r in H.
  - destruct (p c); simpl in *.
    + rewrite Nat.add_succ_r in H. now rewrite (IH (S i) H).
    + now rewrite Nat.add_0_r in H.
Qed.

(** When the continuation only accepts the end of the input, the run must
    reach it. *)
Lemma star_class_eol A p i s caps (k : cont A) :
  star_class p i s caps (fun i' s' caps' => m Eol i' s' caps' k) =
  if forallb p s then k (i + length s) [] caps else None.
Proof.
  revert i. induction s as [|c t IH]; intros i; simpl.
  - now rewrite Nat.add_0_r.
  - destruct (p c); simpl; [|reflexivity].
    rewrite IH, Nat.add_succ_r. simpl.
    destruct (forallb p t); [|reflexivity].
    now destruct (k (S (i + length t)) [] caps).
Qed.

End Regex.

(* ================================================================== *)
(** * services/gemini.js: isolating the JSON text *)

Module Extract.
Import Regex.

Definition any (c : N) : bool := true.
Definition notLBrace (c : N) : bool := negb (c =? 123)%N.   (* [^{] *)
Definition notRBrace (c : N) : bool := negb (c =? 125)%N.   (* [^}] *)

Definition fence : jsstring := js "```".

(** [/\{[\s\S]*\}/] *)
Definition re_object : regex :=
  Seq (Chr 123) (Seq (Star (Class any)) (Chr 125)).

(** [/```(?:json)?\s*(\{[\s\S]*\})\s*```/] *)
Definition re_fenced : regex :=
  Seq (lit fence)
    (Seq (Opt (lit (js "json")))
       (Seq (Star (Class isWhiteSpace))
          (Seq (Group re_object)
             (Seq (Star (Class isWhiteSpace)) (lit fence))))).

(** [/^[^{]*/] *)
Definition re_leading : regex := Seq Bol (Star (Class notLBrace)).

(** [/[^}]*$/] *)
Definition re_trailing : regex := Seq (Star (Class notRBrace)) Eol.

(** Lines 83-103 of [reviewCode]: the text handed to [JSON.parse], or the
    error thrown when no object is found. *)
Definition extractJson (text : jsstring) : result jsstring :=
  let cleanedText := trim text in
  match exec re_fenced cleanedText with
  | Some jsonBlockMatch =>
      match group 1 jsonBlockMatch with
      | Some g => Returned g
      | None => Returned (js "undefined")
      end
  | None =>
      let cleanedText := remove re_leading cleanedText in
      let cleanedText := remove re_trailing cleanedText in
      if negb (startsWith (js "{") cleanedText) then
        match exec re_object cleanedText with
        | Some jsonMatch => Returned (whole cleanedText jsonMatch)
        | None => Threw (Error (js "No JSON object found in response"))
        end
      else Returned cleanedText
  end.

(** ** The same steps in terms of the text *)

(** Drop the characters before the first occurrence of a class. *)
Definition stripLeading (s : jsstring) : jsstring := after notLBrace s.

(** Drop the characters after the last closing brace. *)
Definition stripTrailing (s : jsstring) : jsstring :=
  rev (after notRBrace (rev s)).

(** A match of the fence pattern in [t] that starts after [pre] and
    captures [g]: a fence, an optional [json] tag, white space, a text [g]
    from a brace to a brace, white space, a fence.  Nothing is asked of the
    inside of [g], which may hold fences of its own. *)
Definition fence_match (t pre g : jsstring) : Prop :=
  exists tag w1 body w2 post,
    t = pre ++ fence ++ tag ++ w1 ++ g ++ w2 ++ fence ++ post /\
    (tag = [] \/ tag = js "json") /\
    forallb isWhiteSpace w1 = true /\
    forallb isWhiteSpace w2 = true /\
    g = 123%N :: body ++ [125%N].

(** What the pattern captures in [t]: of all its matches, the one that
    starts first and, from that start, the one with the longest braced
    text. *)
Definition captured (t g : jsstring) : Prop :=
  exists pre,
    fence_match t pre g /\
    forall pre' g', fence_match t pre' g' ->
      length pre <= length pre' /\
      (length pre' = length pre -> length g' <= length g).

(** The contents of a fenced block of [t] that holds a braced object and
    white space only: what stands between a fence, with its optional tag,
    and the next fence. *)
Definition block_contents (t g : jsstring) : Prop :=
  (exists pre, fence_match t pre g) /\ includes fence g = false.

(** The first strategy in the words of the specification: when a fenced
    block with a braced object is present, the contents of such a block are
    what is used. *)
Definition uses_block_contents (text : jsstring) : Prop :=
  (exists g, block_contents (trim text) g) ->
  exists g, block_contents (trim text) g /\ extractJson text = Returned g.

(** The span from the first opening brace to the last closing brace after
    it. *)
Definition outermostSpan (s : jsstring) : option jsstring :=
  match stripLeading s with
  | c :: t =>
      match stripTrailing t with
      | [] => None
      | body => Some (c :: body)
      end
  | [] => None
  end.

(** The strategies in order: what the fence pattern captures when it
    matches somewhere in the trimmed text; otherwise the stripped text when
    it starts with a brace; otherwise the outermost span; otherwise the
    error. *)
Inductive strategy_order (text : jsstring) : result jsstring -> Prop :=
| from_fence g :
    captured (trim text) g ->
    strategy_order text (Returned g)
| from_stripping s :
    (forall pre g, ~ fence_match (trim text) pre g) ->
    s = stripTrailing (stripLeading (trim text)) ->
    startsWith (js "{") s = true ->
    strategy_order text (Returned s)
| from_span s g :
    (forall pre g, ~ fence_match (trim text) pre g) ->
    s = stripTrailing (stripLeading (trim text)) ->
    startsWith (js "{") s = false ->
    outermostSpan s = Some g ->
    strategy_order text (Returned g)
| no_object s :
    (forall pre g, ~ fence_match (trim text) pre g) ->
    s = stripTrailing (stripLeading (trim text)) ->
    startsWith (js "{") s = false ->
    outermostSpan s = None ->
    strategy_order text
      (Threw (Error (js "No JSON object found in response"))).


Lemma search_first r s : forall i f,
  search r i s = Some f ->
  exists pre s',
    s = pre ++ s' /\
    m r (i + length pre) s' [] (kf (i + length pre)) = Some f /\
    forall pre' s'', s = pre' ++ s'' -> length pre' < length pre ->
      m r (i + length pre') s'' [] (kf (i + length pre')) = None.
Proof.
  induction s as [|c t IH]; intros i f H; simpl in H.
  - exists [], []. simpl. rewrite Nat.add_0_r. split; [reflexivity|].
    split; [|intros ? ? _ Hl; simpl in Hl; lia].
    destruct (m r i [] [] (kf i)) eqn:E; [congruence|discriminate].
  - destruct (m r i (c :: t) [] (kf i)) eqn:E.
    + exists [], (c :: t). simpl. rewrite Nat.add_0_r.
      split; [reflexivity|].
      split; [congruence|intros ? ? _ Hl; simpl in Hl; lia].
    + destruct (IH _ _ H) as (pre & s' & -> & Hm & Hfirst).
      exists (c :: pre), s'. simpl. rewrite Nat.add_succ_r.
      split; [reflexivity|]. split; [assumption|].
      intros pre' s'' Heq Hl. destruct pre' as [|d pre'].
      * simpl in Heq. subst s''. simpl. now rewrite Nat.add_0_r.
      * simpl in Heq. injection Heq as <- Heq. simpl in Hl.
        simpl. rewrite Nat.add_succ_r. apply Hfirst; [assumption|lia].
Qed.

Lemma search_complete r pre s' : forall i,
  m r (i + length pre) s' [] (kf (i + length pre)) <> None ->
  search r i (pre ++ s') <> None.
Proof.
  induction pre as [|c pre IH]; intros i H.
  - simpl in *. rewrite Nat.add_0_r in H.
    destruct s' as [|d s']; simpl;
      destruct (m r i _ [] (kf i)); congruence.
  - simpl in *.
    destruct (m r i (c :: pre ++ s') [] (kf i)); [discriminate|].
    apply IH. now rewrite Nat.add_succ_r in H.
Qed.

Lemma search_here r i s f :
  m r i s [] (kf i) = Some f -> search r i s = Some f.
Proof. intros H. destruct s; simpl; now rewrite H. Qed.

Lemma skipn_run p s : skipn (length (run p s)) s = after p s.
Proof.
  induction s as [|c t IH]; simpl; [reflexivity|].
  destruct (p c); simpl; [assumption|reflexivity].
Qed.

Lemma run_length p s : length (run p s) <= length s.
Proof.
  induction s as [|c t IH]; simpl; [lia|].
  destruct (p c); simpl; lia.
Qed.

Lemma run_all p s : forallb p s = true -> run p s = s.
Proof.
  induction s as [|c t IH]; simpl; [reflexivity|].
  intros H. apply andb_true_iff in H as [-> H]. now rewrite IH.
Qed.

Lemma run_app p a b :
  run p (a ++ b) = if forallb p a then a ++ run p b else run p a.
Proof.
  induction a as [|c a IH]; simpl; [reflexivity|].
  destruct (p c); simpl; [|reflexivity].
  rewrite IH. now destruct (forallb p a).
Qed.

Lemma after_app p a b :
  after p (a ++ b) = if forallb p a then after p b else after p a ++ b.
Proof.
  induction a as [|c a IH]; simpl; [reflexivity|].
  destruct (p c); simpl; [assumption|reflexivity].
Qed.

Lemma forallb_rev p (s : jsstring) : forallb p (rev s) = forallb p s.
Proof.
  induction s as [|c t IH]; simpl; [reflexivity|].
  rewrite forallb_app, IH. simpl. rewrite andb_true_r. apply andb_comm.
Qed.

(** *** [/^[^{]*/] removes the text before the first opening brace *)

Lemma remove_leading t : remove re_leading t = stripLeading t.
Proof.
  unfold remove, exec, stripLeading.
  assert (H : m re_leading 0 t [] (kf 0) =
              Some (mkFound 0 (length (run notLBrace t)) [])).
  { unfold re_leading. cbn [m Nat.eqb].
    change (m (Star (Class notLBrace)) 0 t [] (kf 0) =
            Some (mkFound 0 (length (run notLBrace t)) [])).
    rewrite m_star_class. now apply star_class_longest. }
  rewrite (search_here _ _ _ H). simpl.
  apply skipn_run.
Qed.

Lemma stripLeading_cases s :
  stripLeading s = [] \/ exists t, stripLeading s = 123%N :: t.
Proof.
  unfold stripLeading. induction s as [|c t IH]; [now left|].
  cbn [after]. unfold notLBrace at 1 3.
  destruct (c =? 123)%N eqn:E; cbn [negb]; [|exact IH].
  apply N.eqb_eq in E. subst c. right. now exists t.
Qed.

(** *** [/[^}]*$/] removes the text after the last closing brace *)

Lemma m_trailing i s :
  m re_trailing i s [] (kf i) =
  if forallb notRBrace s then Some (mkFound i (i + length s) []) else None.
Proof.
  unfold re_trailing.
  change (m (Seq (Star (Class notRBrace)) Eol) i s [] (kf i))
    with (m (Star (Class notRBrace)) i s []
            (fun i' s' caps' => m Eol i' s' caps' (kf i))).
  now rewrite m_star_class, star_class_eol.
Qed.

Lemma found_eq a b a' b' g :
  a = a' -> b = b' -> Some (mkFound a b g) = Some (mkFound a' b' g).
Proof. now intros -> ->. Qed.

Lemma search_trailing s : forall i,
  search re_trailing i s =
  Some (mkFound (i + (length s - length (run notRBrace (rev s))))
          (i + length s) []).
Proof.
  induction s as [|c t IH]; intros i.
  - apply search_here. rewrite m_trailing. simpl.
    apply found_eq; lia.
  - cbn [search]. rewrite m_trailing.
    destruct (forallb notRBrace (c :: t)) eqn:E.
    + rewrite (run_all notRBrace (rev (c :: t)))
        by now rewrite forallb_rev.
      rewrite length_rev. apply found_eq; lia.
    + rewrite IH. cbn [rev]. rewrite run_app, forallb_rev.
      simpl in E.
      pose proof (run_length notRBrace (rev t)) as Hlen.
      rewrite length_rev in Hlen.
      destruct (forallb notRBrace t) eqn:Et.
      * rewrite andb_true_r in E. cbn [run]. rewrite E, app_nil_r.
        rewrite (run_all notRBrace (rev t)) by now rewrite forallb_rev.
        rewrite length_rev. apply found_eq; cbn [length]; lia.
      * apply found_eq; cbn [length]; lia.
Qed.

Lemma firstn_prefix (a b t : jsstring) n :
  a ++ b = t -> n = length a -> firstn n t = a.
Proof.
  intros <- ->. rewrite firstn_app, Nat.sub_diag, firstn_all. simpl.
  apply app_nil_r.
Qed.

(** The text is what [stripTrailing] keeps followed by a brace-free rest. *)
Lemma stripTrailing_split t :
  stripTrailing t ++ rev (run notRBrace (rev t)) = t.
Proof.
  unfold stripTrailing.
  pose proof (run_after notRBrace (rev t)) as H.
  apply (f_equal (@rev N)) in H.
  now rewrite rev_involutive, rev_app_distr in H.
Qed.

Lemma remove_trailing t : remove re_trailing t = stripTrailing t.
Proof.
  unfold remove, exec. rewrite search_trailing. simpl.
  rewrite skipn_all, app_nil_r.
  pose proof (stripTrailing_split t) as H.
  apply firstn_prefix with (b := rev (run notRBrace (rev t))); [exact H|].
  apply (f_equal (@length N)) in H. rewrite length_app, length_rev in H. lia.
Qed.

(** *** [/\{[\s\S]*\}/] finds the span from the first opening brace to the
    last closing brace *)

Lemma after_nil_iff p s : after p s = [] <-> forallb p s = true.
Proof.
  induction s as [|c t IH]; simpl; [tauto|].
  destruct (p c); simpl; [assumption|].
  split; discriminate.
Qed.

Lemma stripTrailing_nil_iff t :
  stripTrailing t = [] <-> forallb notRBrace t = true.
Proof.
  unfold stripTrailing. rewrite <- forallb_rev, <- after_nil_iff.
  split; intros H.
  - apply (f_equal (@rev N)) in H. now rewrite rev_involutive in H.
  - now rewrite H.
Qed.

Lemma stripTrailing_cons c t :
  stripTrailing (c :: t) =
  match stripTrailing t with
  | [] => if (c =? 125)%N then [c] else []
  | body => c :: body
  end.
Proof.
  destruct (stripTrailing t) as [|b body] eqn:E.
  - apply stripTrailing_nil_iff in E.
    unfold stripTrailing. cbn [rev]. rewrite after_app, forallb_rev, E.
    simpl. unfold notRBrace. now destruct (c =? 125)%N.
  - assert (Hf : forallb notRBrace t = false).
    { destruct (forallb notRBrace t) eqn:Hf; [|reflexivity].
      apply stripTrailing_nil_iff in Hf. congruence. }
    unfold stripTrailing in *. cbn [rev].
    rewrite after_app, forallb_rev, Hf, rev_app_distr. simpl. now rewrite E.
Qed.

Lemma star_last t : forall i i0,
  star_class any i t []
    (fun i' s' caps' => m (Chr 125) i' s' caps' (kf i0)) =
  match stripTrailing t with
  | [] => None
  | body => Some (mkFound i0 (i + length body) [])
  end.
Proof.
  induction t as [|c t IH]; intros i i0; [reflexivity|].
  cbn [star_class any]. rewrite IH, stripTrailing_cons.
  destruct (stripTrailing t) as [|b body].
  - cbn [orelse m Chr]. rewrite (N.eqb_sym 125 c).
    destruct (c =? 125)%N; [|reflexivity].
    apply found_eq; simpl; lia.
  - cbn [orelse]. apply found_eq; simpl; lia.
Qed.

Lemma m_object i s :
  m re_object i s [] (kf i) =
  match s with
  | c :: t =>
      if (c =? 123)%N then
        match stripTrailing t with
        | [] => None
        | body => Some (mkFound i (S i + length body) [])
        end
      else None
  | [] => None
  end.
Proof.
  destruct s as [|c t]; [reflexivity|].
  change (m re_object i (c :: t) [] (kf i))
    with (if (123 =? c)%N
          then m (Star (Class any)) (S i) t []
                 (fun i' s' caps' => m (Chr 125) i' s' caps' (kf i))
          else None).
  rewrite (N.eqb_sym 123 c).
  destruct (c =? 123)%N; [|reflexivity].
  rewrite m_star_class. apply star_last.
Qed.

Lemma forallb_after p (s : jsstring) :
  forallb p s = true -> forallb p (after notLBrace s) = true.
Proof.
  induction s as [|c t IH]; simpl; [reflexivity|].
  intros H. apply andb_true_iff in H as [Hc Ht].
  destruct (notLBrace c); simpl; [auto|]. now rewrite Hc, Ht.
Qed.

Lemma search_object s : forall i,
  search re_object i s =
  match stripLeading s with
  | c :: t =>
      match stripTrailing t with
      | [] => None
      | body =>
          let k := i + length (run notLBrace s) in
          Some (mkFound k (S k + length body) [])
      end
  | [] => None
  end.
Proof.
  unfold stripLeading.
  induction s as [|c t IH]; intros i; [reflexivity|].
  cbn [search]. rewrite m_object. cbn [after run].
  assert (Hc : (c =? 123)%N = negb (notLBrace c))
    by (unfold notLBrace; now rewrite negb_involutive).
  rewrite Hc. destruct (notLBrace c); cbn [negb].
  - rewrite IH. destruct (after notLBrace t) as [|d u]; [reflexivity|].
    destruct (stripTrailing u); [reflexivity|].
    cbv zeta. apply found_eq; simpl; lia.
  - destruct (stripTrailing t) as [|b body] eqn:Et.
    + rewrite IH. destruct (after notLBrace t) as [|d u] eqn:Eu;
        [reflexivity|].
      apply stripTrailing_nil_iff in Et.
      apply (forallb_after notRBrace) in Et. rewrite Eu in Et.
      simpl in Et. apply andb_true_iff in Et as [_ Et].
      apply stripTrailing_nil_iff in Et. now rewrite Et.
    + cbv zeta. apply found_eq; simpl; lia.
Qed.

Lemma exec_object_span s :
  option_map (whole s) (exec re_object s) = outermostSpan s.
Proof.
  unfold exec, outermostSpan. rewrite search_object.
  destruct (stripLeading s) as [|c t] eqn:Es; [reflexivity|].
  destruct (stripTrailing t) as [|b body] eqn:Et; [reflexivity|].
  cbv zeta. cbn [option_map]. unfold whole. cbn [start stop]. f_equal.
  rewrite Nat.add_0_l, skipn_run. fold (stripLeading s). rewrite Es.
  match goal with
  | |- firstn ?n _ = _ =>
      replace n with (S (length (b :: body))) by (cbn [length]; lia)
  end.
  cbn [firstn]. f_equal.
  rewrite <- Et.
  now apply firstn_prefix with (b := rev (run notRBrace (rev t)));
    [apply stripTrailing_split|].
Qed.

(** After both removals the text is empty or runs from an opening brace to
    a closing brace: the span search is only ever applied to the empty
    text. *)
Lemma stripped_cases t :
  stripTrailing (stripLeading t) = [] \/
  startsWith (js "{") (stripTrailing (stripLeading t)) = true.
Proof.
  destruct (stripLeading_cases t) as [->|[u ->]]; [now left|].
  rewrite stripTrailing_cons.
  destruct (stripTrailing u); [now left|now right].
Qed.

(** *** What the fence pattern captures: the first match, with the longest
    braced text *)

Lemma skipn_exact (l r : jsstring) : skipn (length l) (l ++ r) = r.
Proof. now rewrite skipn_app, skipn_all, Nat.sub_diag. Qed.

Lemma startsWith_split l s :
  startsWith l s = true -> s = l ++ skipn (length l) s.
Proof.
  intros H. apply startsWith_spec in H as [t ->]. now rewrite skipn_exact.
Qed.

Lemma m_opt_lit A l i s caps (k : cont A) :
  m (Opt (lit l)) i s caps k =
  orelse
    (if startsWith l s
     then if i <? i + length l
          then k (i + length l) (skipn (length l) s) caps else None
     else None)
    (k i s caps).
Proof.
  change (m (Opt (lit l)) i s caps k)
    with (orelse
            (m (lit l) i s caps
               (fun i' s' caps' => if i <? i' then k i' s' caps' else None))
            (k i s caps)).
  now rewrite m_lit.
Qed.

Lemma m_object_gen A i s caps (k : cont A) :
  m re_object i s caps k =
  match s with
  | c :: t =>
      if (c =? 123)%N
      then star_class any (S i) t caps
             (fun i' s' caps' => m (Chr 125) i' s' caps' k)
      else None
  | [] => None
  end.
Proof.
  destruct s as [|c t]; [reflexivity|].
  change (m re_object i (c :: t) caps k)
    with (if (123 =? c)%N
          then m (Star (Class any)) (S i) t caps
                 (fun i' s' caps' => m (Chr 125) i' s' caps' k)
          else None).
  rewrite (N.eqb_sym 123 c).
  destruct (c =? 123)%N; [|reflexivity].
  apply m_star_class.
Qed.

Lemma m_chr A c i s caps (k : cont A) :
  m (Chr c) i s caps k =
  match s with
  | d :: t => if (d =? c)%N then k (S i) t caps else None
  | [] => None
  end.
Proof.
  destruct s as [|d t]; [reflexivity|].
  unfold Chr. cbn [m]. now rewrite (N.eqb_sym c d).
Qed.

Lemma forallb_any (s : jsstring) : forallb any s = true.
Proof. induction s; simpl; auto. Qed.

(** What follows the opening fence and the optional tag. *)
Definition re_block : regex :=
  Seq (Star (Class isWhiteSpace))
    (Seq (Group re_object) (Seq (Star (Class isWhiteSpace)) (lit fence))).

(** A run of white space ends where the opening brace stands. *)
Lemma run_brace (w w' x x' : jsstring) :
  forallb isWhiteSpace w = true -> forallb isWhiteSpace w' = true ->
  w ++ 123%N :: x = w' ++ 123%N :: x' -> w = w' /\ x = x'.
Proof.
  revert w'. induction w as [|c w IH]; intros w' Hw Hw' H.
  - destruct w' as [|d w']; simpl in H.
    + injection H as <-. now split.
    + injection H as <- _. simpl in Hw'. discriminate.
  - destruct w' as [|d w']; simpl in H.
    + injection H as -> _. simpl in Hw. discriminate.
    + injection H as <- H. simpl in Hw, Hw'.
      apply andb_true_iff in Hw as [_ Hw].
      apply andb_true_iff in Hw' as [_ Hw'].
      destruct (IH _ Hw Hw' H) as [-> ->]. now split.
Qed.

Lemma tail_complete i i0 caps w2 post :
  forallb isWhiteSpace w2 = true ->
  m (Seq (Star (Class isWhiteSpace)) (lit fence)) i (w2 ++ fence ++ post)
    caps (kf i0) <> None.
Proof.
  intros Hw2.
  change (m (Star (Class isWhiteSpace)) i (w2 ++ fence ++ post) caps
            (fun i' s' caps' => m (lit fence) i' s' caps' (kf i0))
          <> None).
  rewrite m_star_class. apply star_class_complete; [assumption|].
  rewrite m_lit, startsWith_app. discriminate.
Qed.

(** A match of the rest of the pattern: its parts, and that no other
    choice of parts has a longer braced text. *)
Lemma block_first i i0 s f :
  m re_block i s [] (kf i0) = Some f ->
  exists w1 body w2 post,
    let g := 123%N :: body ++ [125%N] in
    s = w1 ++ g ++ w2 ++ fence ++ post /\
    forallb isWhiteSpace w1 = true /\
    forallb isWhiteSpace w2 = true /\
    groups f = [g] /\
    forall w1' body' w2' post',
      s = w1' ++ (123%N :: body' ++ [125%N]) ++ w2' ++ fence ++ post' ->
      forallb isWhiteSpace w1' = true ->
      forallb isWhiteSpace w2' = true ->
      length body' <= length body.
Proof.
  unfold re_block.
  change (m (Seq (Star (Class isWhiteSpace)) ?r) i s [] (kf i0))
    with (m (Star (Class isWhiteSpace)) i s []
            (fun i' s' caps' => m r i' s' caps' (kf i0))).
  rewrite m_star_class. intros H.
  apply star_class_sound in H as (w1 & s3 & -> & Hw1 & H).
  remember (i + length w1) as i3 eqn:Ei3. clear Ei3.
  change (m (Seq (Group re_object) ?r) i3 s3 [] (kf i0))
    with (m re_object i3 s3 []
            (fun i' s' caps' =>
               m r i' s' (caps' ++ [firstn (i' - i3) s3]) (kf i0))) in H.
  rewrite m_object_gen in H.
  destruct s3 as [|c t]; [discriminate|].
  destruct (c =? 123)%N eqn:Ec; [|discriminate].
  apply N.eqb_eq in Ec. subst c.
  apply star_class_first in H as (body & s4 & -> & _ & H & Hfirst).
  cbv beta in H. rewrite m_chr in H.
  destruct s4 as [|d s5]; [discriminate|].
  destruct (d =? 125)%N eqn:Ed; [|discriminate].
  apply N.eqb_eq in Ed. subst d.
  replace (S (S i3 + length body) - i3) with (length (123%N :: body ++ [125%N]))
    in H by (cbn [length]; rewrite length_app; cbn [length]; lia).
  replace (123%N :: body ++ 125%N :: s5)
    with ((123%N :: body ++ [125%N]) ++ s5) in H
    by (simpl; now rewrite <- app_assoc).
  rewrite firstn_app, Nat.sub_diag, firstn_all in H.
  cbn [firstn] in H. rewrite app_nil_r in H. cbn [app] in H.
  remember (S (S i3 + length body)) as i5 eqn:Ei5. clear Ei5.
  change (m (Seq (Star (Class isWhiteSpace)) (lit fence)) i5 s5 ?c (kf i0))
    with (m (Star (Class isWhiteSpace)) i5 s5 c
            (fun i' s' caps' => m (lit fence) i' s' caps' (kf i0))) in H.
  rewrite m_star_class in H.
  apply star_class_sound in H as (w2 & s6 & -> & Hw2 & H).
  rewrite m_lit in H.
  destruct (startsWith fence s6) eqn:Ef; [|discriminate].
  apply startsWith_spec in Ef as [post ->].
  injection H as <-.
  exists w1, body, w2, post. cbv zeta. cbn [groups].
  split; [simpl; now rewrite <- !app_assoc|].
  do 3 (split; [assumption || reflexivity|]).
  intros w1' body' w2' post' Heq Hw1' Hw2'.
  destruct (Nat.le_gt_cases (length body') (length body)) as [Hle|Hgt];
    [exact Hle|exfalso].
  cbn [app] in Heq. apply run_brace in Heq as [<- Heq]; try assumption.
  rewrite <- app_assoc in Heq. cbn [app] in Heq.
  specialize (Hfirst body' _ Heq (forallb_any _) Hgt).
  cbv beta in Hfirst. rewrite m_chr, N.eqb_refl in Hfirst.
  revert Hfirst. now apply tail_complete.
Qed.

Lemma block_complete i i0 caps w1 body w2 post :
  forallb isWhiteSpace w1 = true ->
  forallb isWhiteSpace w2 = true ->
  m re_block i (w1 ++ (123%N :: body ++ [125%N]) ++ w2 ++ fence ++ post)
    caps (kf i0) <> None.
Proof.
  intros Hw1 Hw2. unfold re_block.
  change (m (Seq (Star (Class isWhiteSpace)) ?r) i ?s caps (kf i0))
    with (m (Star (Class isWhiteSpace)) i s caps
            (fun i' s' caps' => m r i' s' caps' (kf i0))).
  rewrite m_star_class. apply star_class_complete; [assumption|].
  remember (i + length w1) as i3 eqn:Ei3. clear Ei3.
  change (m (Seq (Group re_object) ?r) i3 ?s caps (kf i0))
    with (m re_object i3 s caps
            (fun i' s' caps' =>
               m r i' s' (caps' ++ [firstn (i' - i3) s]) (kf i0))).
  rewrite m_object_gen. cbn [app]. rewrite N.eqb_refl.
  rewrite <- app_assoc. apply star_class_complete; [apply forallb_any|].
  cbv beta. rewrite m_chr. cbn [app]. rewrite N.eqb_refl.
  match goal with
  | |- m _ ?i5 _ ?c _ <> None =>
      change (m (Star (Class isWhiteSpace)) i5 (w2 ++ fence ++ post) c
                (fun i' s' caps' => m (lit fence) i' s' caps' (kf i0))
              <> None)
  end.
  rewrite m_star_class. apply star_class_complete; [assumption|].
  rewrite m_lit, startsWith_app. discriminate.
Qed.

Lemma m_fenced i s :
  m re_fenced i s [] (kf i) =
  if startsWith fence s then
    let s1 := skipn (length fence) s in
    let i1 := i + length fence in
    orelse
      (if startsWith (js "json") s1
       then m re_block (i1 + 4) (skipn 4 s1) [] (kf i) else None)
      (m re_block i1 s1 [] (kf i))
  else None.
Proof.
  change (m re_fenced i s [] (kf i))
    with (m (lit fence) i s []
            (fun i' s' caps' =>
               m (Opt (lit (js "json"))) i' s' caps'
                 (fun i2 s2 caps2 => m re_block i2 s2 caps2 (kf i)))).
  rewrite m_lit. destruct (startsWith fence s); [|reflexivity].
  rewrite m_opt_lit. cbv zeta.
  assert (Hlt : (i + length fence <? i + length fence + length (js "json"))
                = true) by (apply Nat.ltb_lt; simpl; lia).
  rewrite Hlt. reflexivity.
Qed.

Lemma fenced_here i tag w1 body w2 post :
  tag = [] \/ tag = js "json" ->
  forallb isWhiteSpace w1 = true ->
  forallb isWhiteSpace w2 = true ->
  m re_fenced i
    (fence ++ tag ++ w1 ++ (123%N :: body ++ [125%N]) ++ w2 ++ fence ++ post)
    [] (kf i) <> None.
Proof.
  intros Htag H1 H2.
  rewrite m_fenced, startsWith_app. cbv zeta. rewrite skipn_exact.
  destruct Htag as [->| ->].
  - cbn [app].
    match goal with
    | |- orelse ?a ?b <> None =>
        assert (Hb : b <> None) by now apply block_complete
    end.
    match goal with
    | |- orelse ?a ?b <> None => destruct a; [discriminate|exact Hb]
    end.
  - rewrite startsWith_app.
    change 4 with (length (js "json")) at 2. rewrite skipn_exact.
    match goal with
    | |- orelse ?a ?b <> None =>
        assert (Ha : a <> None) by now apply block_complete
    end.
    match goal with
    | |- orelse ?a ?b <> None => destruct a; [discriminate|contradiction]
    end.
Qed.

(** After the opening fence, the tag and the white space are determined by
    the text. *)
Lemma opening_determined tag w1 x tag' w1' x' :
  tag = [] \/ tag = js "json" -> tag' = [] \/ tag' = js "json" ->
  forallb isWhiteSpace w1 = true -> forallb isWhiteSpace w1' = true ->
  tag ++ w1 ++ 123%N :: x = tag' ++ w1' ++ 123%N :: x' ->
  tag = tag' /\ w1 = w1' /\ x = x'.
Proof.
  intros [->| ->] [->| ->] Hw Hw' H.
  - cbn [app] in H. apply run_brace in H as [-> ->]; auto.
  - exfalso. destruct w1 as [|c w1]; simpl in H; [discriminate|].
    injection H as -> _. simpl in Hw. discriminate.
  - exfalso. destruct w1' as [|c w1']; simpl in H; [discriminate|].
    injection H as <- _. simpl in Hw'. discriminate.
  - apply app_inv_head in H. apply run_brace in H as [-> ->]; auto.
Qed.

Lemma length_eq_app (a b c d : jsstring) :
  a ++ b = c ++ d -> length a = length c -> a = c /\ b = d.
Proof.
  revert c. induction a as [|x a IH]; intros [|y c] H Hl;
    try discriminate Hl.
  - now split.
  - simpl in H. injection H as -> H. simpl in Hl.
    destruct (IH c H) as [-> ->]; [lia|now split].
Qed.

(** The capture of the first match: it starts at the first position where
    the pattern matches and its braced text is the longest there. *)
Theorem fenced_captures t f :
  exec re_fenced t = Some f ->
  exists g, groups f = [g] /\ captured t g.
Proof.
  unfold exec. intros H.
  apply search_first in H as (pre & s & -> & H & Hfirst).
  rewrite Nat.add_0_l in H.
  assert (Hblock : exists tag s2 i2,
             (tag = [] \/ tag = js "json") /\
             s = fence ++ tag ++ s2 /\
             m re_block i2 s2 [] (kf (length pre)) = Some f).
  { rewrite m_fenced in H.
    destruct (startsWith fence s) eqn:Ef; [|discriminate].
    apply startsWith_split in Ef. cbv zeta in H.
    remember (skipn (length fence) s) as s1 eqn:Es1. clear Es1. subst s.
    destruct (startsWith (js "json") s1) eqn:Ej.
    - destruct (m re_block (length pre + length fence + 4) (skipn 4 s1) []
                  (kf (length pre))) eqn:E1; cbn [orelse] in H.
      + injection H as ->. apply (startsWith_split (js "json")) in Ej.
        exists (js "json"), (skipn 4 s1), (length pre + length fence + 4).
        split; [now right|]. split; [|assumption].
        now rewrite Ej at 1.
      + exists [], s1, (length pre + length fence).
        split; [now left|]. now split.
    - cbn [orelse] in H. exists [], s1, (length pre + length fence).
      split; [now left|]. now split. }
  destruct Hblock as (tag & s2 & i2 & Htag & -> & Hb).
  apply block_first in Hb
    as (w1 & body & w2 & post & Hs & H1 & H2 & Hg & Hwide).
  cbv zeta in Hs. subst s2.
  exists (123%N :: body ++ [125%N]). split; [assumption|].
  exists pre. split.
  { exists tag, w1, body, w2, post. repeat split; auto. }
  intros pre' g'
    (tag' & w1' & body' & w2' & post' & Heq & Htag' & H1' & H2' & ->).
  assert (Hle : length pre <= length pre').
  { destruct (Nat.le_gt_cases (length pre) (length pre')) as [Hle|Hgt];
      [exact Hle|exfalso].
    specialize (Hfirst pre' _ Heq Hgt). rewrite Nat.add_0_l in Hfirst.
    revert Hfirst. now apply fenced_here. }
  split; [exact Hle|]. intros Hlen.
  apply length_eq_app in Heq as [-> Heq]; [|now symmetry].
  apply app_inv_head in Heq.
  cbn [app] in Heq.
  apply opening_determined in Heq as (-> & -> & Heq); try assumption.
  cbn [length]. rewrite !length_app. cbn [length].
  enough (length body' <= length body) by lia.
  apply (Hwide w1' body' w2' post'); try assumption.
  cbn [app]. now rewrite Heq.
Qed.

Theorem fenced_complete t pre g :
  fence_match t pre g -> exec re_fenced t <> None.
Proof.
  intros (tag & w1 & body & w2 & post & -> & Htag & H1 & H2 & ->).
  unfold exec. apply search_complete. rewrite Nat.add_0_l.
  now apply fenced_here.
Qed.

(** ** The extraction follows the strategies in order *)

Lemma extract_strategy text : strategy_order text (extractJson text).
Proof.
  unfold extractJson.
  destruct (exec re_fenced (trim text)) as [f|] eqn:E.
  - destruct (fenced_captures _ E) as (g & Hg & Hf).
    unfold group. rewrite Hg. simpl. now apply from_fence.
  - assert (Hno : forall pre g, ~ fence_match (trim text) pre g).
    { intros pre g Hg. now apply fenced_complete in Hg. }
    rewrite remove_leading, remove_trailing.
    set (s := stripTrailing (stripLeading (trim text))).
    destruct (startsWith (js "{") s) eqn:Es; cbn [negb].
    + now apply from_stripping.
    + pose proof (exec_object_span s) as Hspan.
      destruct (exec re_object s) as [f|]; simpl in Hspan.
      * now apply from_span with (s := s).
      * now apply no_object with (s := s).
Qed.

(** Whatever the extraction returns starts with an opening brace. *)
Lemma extract_brace text s :
  extractJson text = Returned s -> exists t, s = 123%N :: t.
Proof.
  intros H. pose proof (extract_strategy text) as Hs. rewrite H in Hs.
  inversion Hs as [g Hf Hg|s' _ -> Hb Hg|s' g _ -> Hb Hspan Hg|]; subst.
  - destruct Hf as (_ & (_ & _ & body & _ & _ & _ & _ & _ & _ & ->) & _).
    now exists (body ++ [125%N]).
  - apply startsWith_spec in Hb as [t Ht]. now exists t.
  - destruct (stripped_cases (trim text)) as [E|E]; [|congruence].
    rewrite E in Hspan. discriminate.
Qed.

(** ** One block, and several *)

Lemma split_longer (a b c d : jsstring) :
  a ++ b = c ++ d -> length c < length a ->
  exists x, x <> [] /\ a = c ++ x /\ d = x ++ b.
Proof.
  intros H Hl. apply app_eq_app in H as [l [[-> ->]|[-> ->]]].
  - exists l. repeat split. intros ->. rewrite app_nil_r in Hl. lia.
  - rewrite length_app in Hl. lia.
Qed.

(** What follows an opening fence does not start with a backquote. *)
Lemma opening_no_backquote tag w1 x rest :
  tag = [] \/ tag = js "json" ->
  forallb isWhiteSpace w1 = true ->
  tag ++ w1 ++ 123%N :: x <> 96%N :: rest.
Proof.
  intros [->| ->] Hw H.
  - destruct w1 as [|c w1]; simpl in H; [discriminate|].
    injection H as -> _. simpl in Hw. discriminate.
  - discriminate.
Qed.

(** No match starts before the first fence of the text. *)
Lemma no_earlier t pre rest pre' g' :
  t = pre ++ fence ++ rest ->
  includes fence pre = false ->
  fence_match t pre' g' ->
  length pre <= length pre'.
Proof.
  intros -> Hno (tag & w1 & body & w2 & post & Heq & Htag & H1 & H2 & ->).
  destruct (Nat.le_gt_cases (length pre) (length pre')) as [Hle|Hgt];
    [exact Hle|exfalso].
  apply split_longer in Heq as (x & Hx & -> & Heq); [|exact Hgt].
  change fence with [96%N; 96%N; 96%N] in Heq, Hno.
  destruct x as [|a [|b [|c x]]]; [now destruct Hx| | |].
  - simpl in Heq. injection Heq as _ Heq.
    revert Heq. now apply opening_no_backquote.
  - simpl in Heq. injection Heq as _ _ Heq.
    revert Heq. now apply opening_no_backquote.
  - simpl in Heq. injection Heq as <- <- <- _.
    assert (H : includes [96%N; 96%N; 96%N]
                  (pre' ++ [96%N; 96%N; 96%N] ++ x) = true)
      by (apply includes_spec; now exists pre', x).
    simpl app in H. congruence.
Qed.

Lemma find_after (c : N) (a post y rest : jsstring) :
  forallb (fun x => negb (x =? c)%N) a = true ->
  a ++ post = y ++ c :: rest ->
  exists z, post = z ++ c :: rest.
Proof.
  revert y. induction a as [|x a IH]; intros y Ha H.
  - now exists y.
  - simpl in Ha. apply andb_true_iff in Ha as [Hx Ha].
    destruct y as [|d y]; simpl in H.
    + injection H as -> _. rewrite N.eqb_refl in Hx. discriminate.
    + injection H as _ H. now apply (IH y).
Qed.

Lemma whitespace_no_brace w :
  forallb isWhiteSpace w = true ->
  forallb (fun x => negb (x =? 125)%N) w = true.
Proof.
  induction w as [|c w IH]; simpl; [reflexivity|].
  intros H. apply andb_true_iff in H as [Hc Hw]. rewrite (IH Hw), andb_true_r.
  destruct (c =? 125)%N eqn:E; [|reflexivity].
  apply N.eqb_eq in E. subst c. discriminate.
Qed.

(** Past the last fence of the text no match ends. *)
Lemma no_wider body w2 post body' w2' post' :
  forallb isWhiteSpace w2 = true ->
  includes fence post = false ->
  body ++ 125%N :: w2 ++ fence ++ post
    = body' ++ 125%N :: w2' ++ fence ++ post' ->
  length body' <= length body.
Proof.
  intros H2 Hno Heq.
  destruct (Nat.le_gt_cases (length body') (length body)) as [Hle|Hgt];
    [exact Hle|exfalso].
  symmetry in Heq.
  apply split_longer in Heq as (y & Hy & -> & Heq); [|exact Hgt].
  destruct y as [|c y]; [now destruct Hy|].
  rewrite <- app_comm_cons in Heq. injection Heq as _ Heq.
  change (w2 ++ fence ++ post = y ++ 125%N :: w2' ++ fence ++ post') in Heq.
  rewrite app_assoc in Heq.
  apply find_after in Heq as [z ->].
  - assert (H : includes fence (z ++ 125%N :: w2' ++ fence ++ post') = true).
    { apply includes_spec. exists (z ++ 125%N :: w2'), post'.
      now rewrite <- app_assoc. }
    congruence.
  - rewrite forallb_app, (@whitespace_no_brace _ H2). reflexivity.
Qed.

(** When the text holds one fenced block, its contents are captured. *)
Lemma single_block t pre tag w1 body w2 post g' :
  t = pre ++ fence ++ tag ++ w1 ++ (123%N :: body ++ [125%N])
        ++ w2 ++ fence ++ post ->
  tag = [] \/ tag = js "json" ->
  forallb isWhiteSpace w1 = true ->
  forallb isWhiteSpace w2 = true ->
  includes fence pre = false ->
  includes fence post = false ->
  captured t g' -> g' = 123%N :: body ++ [125%N].
Proof.
  intros Ht Htag H1 H2 Hpre Hpost (pre' & Hm & Hmin).
  assert (Hm0 : fence_match t pre (123%N :: body ++ [125%N])).
  { exists tag, w1, body, w2, post. repeat split; auto. }
  destruct (Hmin _ _ Hm0) as [Hle Hwide].
  pose proof (@no_earlier _ _ _ _ _ Ht Hpre Hm) as Hge.
  assert (Hlen : length pre = length pre') by lia.
  specialize (Hwide Hlen).
  destruct Hm
    as (tag' & w1' & body' & w2' & post' & Heq & Htag' & H1' & H2' & ->).
  rewrite Ht in Heq.
  apply length_eq_app in Heq as [<- Heq]; [|exact Hlen].
  apply app_inv_head in Heq. cbn [app] in Heq.
  apply opening_determined in Heq as (_ & _ & Heq); try assumption.
  rewrite <- !app_assoc in Heq. cbn [app] in Heq.
  pose proof (@no_wider _ _ _ _ _ _ H2 Hpost Heq) as Hle'.
  cbn [length] in Hwide. rewrite !length_app in Hwide. cbn [length] in Hwide.
  apply length_eq_app in Heq as [<- _]; [reflexivity|lia].
Qed.

(** What is captured is determined by the text. *)
Lemma captured_unique t g g' : captured t g -> captured t g' -> g = g'.
Proof.
  intros (pre & Hm & Hmin) (pre' & Hm' & Hmin').
  destruct (Hmin _ _ Hm') as [Hle Hw]. destruct (Hmin' _ _ Hm) as [Hle' Hw'].
  assert (Hlen : length pre = length pre') by lia.
  specialize (Hw (eq_sym Hlen)). specialize (Hw' Hlen).
  destruct Hm as (tag & w1 & body & w2 & post & Heq & Htag & H1 & H2 & ->).
  destruct Hm'
    as (tag' & w1' & body' & w2' & post' & Heq' & Htag' & H1' & H2' & ->).
  rewrite Heq in Heq'.
  apply length_eq_app in Heq' as [<- Heq']; [|exact Hlen].
  apply app_inv_head in Heq'. cbn [app] in Heq'.
  apply opening_determined in Heq' as (_ & _ & Heq'); try assumption.
  rewrite <- !app_assoc in Heq'.
  cbn [length] in Hw, Hw'. rewrite !length_app in Hw, Hw'.
  cbn [length] in Hw, Hw'.
  apply length_eq_app in Heq' as [<- _]; [reflexivity|lia].
Qed.

(** The strategies leave no choice: they determine the outcome. *)
Lemma strategy_order_unique text r r' :
  strategy_order text r -> strategy_order text r' -> r = r'.
Proof.
  intros H H'.
  destruct H as [g Hc|s Hno Hs Hb|s g Hno Hs Hb Hg|s Hno Hs Hb Hg];
    destruct H' as [g' Hc'|s' Hno' Hs' Hb'|s' g' Hno' Hs' Hb' Hg'
                   |s' Hno' Hs' Hb' Hg'];
    try (destruct Hc as (pre & Hm & _); now destruct (Hno' _ _ Hm));
    try (destruct Hc' as (pre & Hm & _); now destruct (Hno _ _ Hm));
    try congruence.
  f_equal. exact (captured_unique Hc Hc').
Qed.

(** The span search never contributes a result: it runs only on the empty
    text. *)
Lemma span_search_idle text s :
  s = stripTrailing (stripLeading (trim text)) ->
  startsWith (js "{") s = false -> s = [] /\ outermostSpan s = None.
Proof.
  intros -> Hb.
  destruct (stripped_cases (trim text)) as [E|E]; [|congruence].
  now rewrite E.
Qed.

(** Lines 91-102: after the two replacements the text is empty or starts
    with an opening brace, so the search for a span from a brace to a brace
    is applied to the empty text only, where it finds nothing: the third
    strategy never supplies the text that is parsed. *)
Theorem span_search_never_applies t :
  let cleaned := remove re_trailing (remove re_leading t) in
  (cleaned = [] /\ exec re_object cleaned = None) \/
  startsWith (js "{") cleaned = true.
Proof.
  cbv zeta. rewrite remove_leading, remove_trailing.
  destruct (stripped_cases t) as [-> |H]; [left|now right].
  split; reflexivity.
Qed.

End Extract.

(* ================================================================== *)
(** * JSON.parse *)

(** The JSON grammar of ECMA-404, as [JSON.parse] reads it: white space is
    space, tab, line feed and carriage return; a duplicated key keeps its
    first position and takes the last value; number tokens are converted by
    the runtime.  The text of the [SyntaxError] depends on the engine and is
    only ever logged by the program. *)
Module Json.
Import Regex.

Definition is_ws (c : N) : bool :=
  ((c =? 32) || (c =? 9) || (c =? 10) || (c =? 13))%N.

Definition is_digit (c : N) : bool := ((48 <=? c) && (c <=? 57))%N.

Definition skip_ws (s : jsstring) : jsstring := after is_ws s.

Definition hex (c : N) : option N :=
  if is_digit c then Some (c - 48)%N
  else if ((97 <=? c) && (c <=? 102))%N then Some (c - 87)%N
  else if ((65 <=? c) && (c <=? 70))%N then Some (c - 55)%N
  else None.

Definition hex4 (a b c d : N) : option N :=
  match hex a, hex b, hex c, hex d with
  | Some x, Some y, Some z, Some w =>
      Some (x * 4096 + y * 256 + z * 16 + w)%N
  | _, _, _, _ => None
  end.

(** The escape [\e] for a single-character escape [e]. *)
Definition escape (e : N) : option N :=
  if ((e =? 34) || (e =? 92) || (e =? 47))%N then Some e
  else if (e =? 98)%N then Some 8%N
  else if (e =? 102)%N then Some 12%N
  else if (e =? 110)%N then Some 10%N
  else if (e =? 114)%N then Some 13%N
  else if (e =? 116)%N then Some 9%N
  else None.

(** The characters of a string, after its opening quote. *)
Fixpoint parse_chars (s acc : jsstring) : option (jsstring * jsstring) :=
  match s with
  | [] => None
  | c :: t =>
      if (c =? 34)%N then Some (rev acc, t)
      else if (c =? 92)%N then
        match t with
        | [] => None
        | e :: t1 =>
            if (e =? 117)%N then
              match t1 with
              | a :: b :: c' :: d :: t2 =>
                  match hex4 a b c' d with
                  | Some u => parse_chars t2 (u :: acc)
                  | None => None
                  end
              | _ => None
              end
            else
              match escape e with
              | Some u => parse_chars t1 (u :: acc)
              | None => None
              end
        end
      else if (c <? 32)%N then None
      else parse_chars t (c :: acc)
  end.

(** A number token: an optional minus sign; a zero or a non-zero digit
    followed by digits; optionally a point and digits; optionally an
    exponent mark, a sign and digits. *)
Definition lex_int (s : jsstring) : option (jsstring * jsstring) :=
  match s with
  | c :: t =>
      if (c =? 48)%N then Some ([c], t)
      else if is_digit c then Some (run is_digit s, after is_digit s)
      else None
  | [] => None
  end.

Definition lex_frac (s : jsstring) : option (jsstring * jsstring) :=
  match s with
  | c :: t =>
      if (c =? 46)%N then
        match run is_digit t with
        | [] => None
        | ds => Some (c :: ds, after is_digit t)
        end
      else Some ([], s)
  | [] => Some ([], s)
  end.

Definition lex_exp (s : jsstring) : option (jsstring * jsstring) :=
  match s with
  | c :: t =>
      if ((c =? 101) || (c =? 69))%N then
        let (sign, t1) :=
          match t with
          | d :: t' => if ((d =? 43) || (d =? 45))%N then ([d], t') else ([], t)
          | [] => ([], t)
          end in
        match run is_digit t1 with
        | [] => None
        | ds => Some (c :: sign ++ ds, after is_digit t1)
        end
      else Some ([], s)
  | [] => Some ([], s)
  end.

Definition lex_number (s : jsstring) : option (jsstring * jsstring) :=
  let (sign, s0) :=
    match s with
    | c :: t => if (c =? 45)%N then ([c], t) else ([], s)
    | [] => ([], s)
    end in
  match lex_int s0 with
  | None => None
  | Some (i, s1) =>
      match lex_frac s1 with
      | None => None
      | Some (f, s2) =>
          match lex_exp s2 with
          | None => None
          | Some (e, s3) => Some (sign ++ i ++ f ++ e, s3)
          end
      end
  end.

Section Parser.
Context {rt : Runtime}.

(** [parse_value] reads a value at the head of a text without leading white
    space; [parse_elements] and [parse_members] read what follows the
    opening bracket or brace of a non-empty array or object. *)
Fixpoint parse_value (fuel : nat) (s : jsstring) {struct fuel}
  : option (JsVal * jsstring) :=
  match fuel with
  | O => None
  | S n =>
      match s with
      | [] => None
      | c :: t =>
          if (c =? 123)%N then
            match skip_ws t with
            | d :: t' =>
                if (d =? 125)%N then Some (JObj [], t')
                else
                  match parse_members n (d :: t') [] with
                  | Some (o, r) => Some (JObj o, r)
                  | None => None
                  end
            | [] => None
            end
          else if (c =? 91)%N then
            match skip_ws t with
            | d :: t' =>
                if (d =? 93)%N then Some (JArr [], t')
                else
                  match parse_elements n (d :: t') [] with
                  | Some (l, r) => Some (JArr l, r)
                  | None => None
                  end
            | [] => None
            end
          else if (c =? 34)%N then
            match parse_chars t [] with
            | Some (str, r) => Some (JStr str, r)
            | None => None
            end
          else if startsWith (js "true") s then
            Some (JBool true, skipn 4 s)
          else if startsWith (js "false") s then
            Some (JBool false, skipn 5 s)
          else if startsWith (js "null") s then
            Some (JNull, skipn 4 s)
          else
            match lex_number s with
            | Some (tok, r) => Some (JNum (StringToNumber tok), r)
            | None => None
            end
      end
  end

with parse_elements (fuel : nat) (s : jsstring) (acc : list JsVal)
  {struct fuel} : option (list JsVal * jsstring) :=
  match fuel with
  | O => None
  | S n =>
      match parse_value n s with
      | None => None
      | Some (v, r) =>
          match skip_ws r with
          | c :: t =>
              if (c =? 93)%N then Some (rev (v :: acc), t)
              else if (c =? 44)%N
              then parse_elements n (skip_ws t) (v :: acc)
              else None
          | [] => None
          end
      end
  end

with parse_members (fuel : nat) (s : jsstring) (acc : object)
  {struct fuel} : option (object * jsstring) :=
  match fuel with
  | O => None
  | S n =>
      match s with
      | q :: t =>
          if (q =? 34)%N then
            match parse_chars t [] with
            | None => None
            | Some (key, r) =>
                match skip_ws r with
                | c :: r1 =>
                    if (c =? 58)%N then
                      match parse_value n (skip_ws r1) with
                      | None => None
                      | Some (v, r2) =>
                          match skip_ws r2 with
                          | d :: r3 =>
                              if (d =? 125)%N
                              then Some (assign acc key v, r3)
                              else if (d =? 44)%N
                              then parse_members n (skip_ws r3)
                                     (assign acc key v)
                              else None
                          | [] => None
                          end
                      end
                    else None
                | [] => None
                end
            end
          else None
      | [] => None
      end
  end.

Definition SyntaxError : error := Error (js "Unexpected token in JSON").

(** [JSON.parse(text)].  Every level of nesting and every element consumes
    a code unit, so twice the length of the text is fuel enough. *)
Definition JSON_parse (text : jsstring) : result JsVal :=
  match parse_value (2 * length text + 4) (skip_ws text) with
  | Some (v, r) =>
      match skip_ws r with
      | [] => Returned v
      | _ :: _ => Threw SyntaxError
      end
  | None => Threw SyntaxError
  end.

(** A text that starts with an opening brace parses to an object, if it
    parses at all. *)
Lemma parse_brace t v :
  JSON_parse (123%N :: t) = Returned v -> exists o, v = JObj o.
Proof.
  unfold JSON_parse.
  change (skip_ws (123%N :: t)) with (123%N :: t).
  remember (length (123%N :: t)) as len. clear Heqlen.
  replace (2 * len + 4) with (S (2 * len + 3)) by lia.
  cbn [parse_value]. rewrite N.eqb_refl.
  destruct (skip_ws t) as [|d t']; [discriminate|].
  destruct (d =? 125)%N.
  - destruct (skip_ws t'); [|discriminate].
    intros H. injection H as <-. now exists [].
  - destruct (parse_members _ _ _) as [[o r]|]; [|discriminate].
    destruct (skip_ws r); [|discriminate].
    intros H. injection H as <-. now exists o.
Qed.

End Parser.
End Json.

(* ================================================================== *)
(** * Interaction with the outside *)

(** A computation that asks questions of type [Q] to the outside, receives
    answers of type [A], and ends with a value of type [R]. *)
Inductive Prog (Q A R : Type) : Type :=
| Ret (r : R)
| Ask (q : Q) (k : A -> Prog Q A R).
Arguments Ret {Q A R} r.
Arguments Ask {Q A R} q k.

(** Running a computation against an outside that answers each question
    knowing the questions asked so far; the questions are recorded in
    order. *)
Fixpoint interact {Q A R} (p : Prog Q A R) (outside : list Q -> A)
  (asked : list Q) : R * list Q :=
  match p with
  | Ret r => (r, asked)
  | Ask q k => interact (k (outside (asked ++ [q]))) outside (asked ++ [q])
  end.

(** An HTTP response of the server. *)
Inductive response :=
| Json (status : N) (body : JsVal)
| Redirect (location : jsstring).

(** [process.env] *)
Record Env := {
  GEMINI_API_KEY : option jsstring;
  GEMINI_MODEL : option jsstring;
  CLIENT_URL : option jsstring;
  GITHUB_CLIENT_ID : option jsstring;
  GITHUB_CLIENT_SECRET : option jsstring
}.

(** [v || d] and [!v] for an environment variable *)
Definition env_or (v : option jsstring) (d : jsstring) : jsstring :=
  match v with
  | Some (c :: s) => c :: s
  | _ => d
  end.

Definition unset (v : option jsstring) : bool :=
  match v with
  | Some (_ :: _) => false
  | _ => true
  end.

(** Property access by the name written in the source. *)
Definition field (o : object) (k : string) : JsVal := lookup o (js k).
Definition set (o : object) (k : string) (v : JsVal) : object :=
  assign o (js k) v.

(* ================================================================== *)
(** * services/gemini.js: reviewCode *)

Module Gemini.
Import Regex Extract Json.

Definition DEFAULT_MODEL : jsstring := js "gemini-2.0-flash".

(** What is sent to the provider: the model, and the prompt, which is the
    fixed template of the source instantiated with the language and the
    code. *)
Record prompt := mkPrompt {
  model : jsstring;
  prompt_language : jsstring;
  prompt_code : jsstring
}.

Definition ellipsis : jsstring := [8230%N].

(** [error.message?.includes(needle)] *)
Definition mentions (e : error) (needle : string) : bool :=
  match message e with
  | Some m => includes (js needle) m
  | None => false
  end.

Definition is_digit_or_dot (c : N) : bool := is_digit c || (c =? 46)%N.

(** [/retry in ([\d.]+)s/i] and [/Please retry in ([\d.]+)s/i] *)
Definition re_retry : regex :=
  Seq (lit_i (js "retry in "))
    (Seq (Group (Plus (Class is_digit_or_dot))) (Chr_i 115)).

Definition re_please_retry : regex :=
  Seq (lit_i (js "Please retry in "))
    (Seq (Group (Plus (Class is_digit_or_dot))) (Chr_i 115)).

Section ReviewCode.
Context {rt : Runtime}.
Variable env : Env.

(** Lines 113-119: the object built when parsing fails. *)
Definition fallback : JsVal :=
  JObj [ (js "errors", JArr []);
         (js "warnings",
           JArr [JObj [ (js "line", JNum (num 1));
                        (js "message",
                          JStr (js "Failed to parse AI response. Please check the code and try again.")) ]]);
         (js "suggestions", JArr []);
         (js "verdict",
           JStr (js "The Reaper encountered an issue analyzing your code."));
         (js "curseLevel", JNum (num 50)) ].

Definition parse_failure : jsstring :=
  js "Failed to parse AI response. Please ensure your code is valid and try again.".

(** Lines 80-123: the inner [try]/[catch].  The handler assigns the
    fallback object to [parsedResponse] and then throws. *)
Definition parseResponse (text : jsstring) : result JsVal :=
  try_catch
    (cleanedText <- extractJson text ;; JSON_parse cleanedText)
    (fun parseError =>
       let parsedResponse := fallback in
       Threw (Error parse_failure)).

Definition placeholder_verdict : jsstring :=
  js "The code has been analyzed by The Code Reaper.".

(** Lines 125-156, on the object that was parsed. *)
Definition postProcess (parsedResponse : object) : result JsVal :=
  let p := parsedResponse in
  (* Validate response structure *)
  let p :=
    if negb (truthy (field p "errors")) || negb (truthy (field p "warnings"))
       || negb (truthy (field p "suggestions"))
    then
      let p := set p "errors" (js_or (field p "errors") (JArr [])) in
      let p := set p "warnings" (js_or (field p "warnings") (JArr [])) in
      set p "suggestions" (js_or (field p "suggestions") (JArr []))
    else p in
  (* Set defaults for new fields *)
  let p := set p "updatedCode" (js_or (field p "updatedCode") JNull) in
  let p := set p "changes"
             (if isArray (field p "changes") then field p "changes"
              else JArr []) in
  p <- (if negb (is_number (field p "curseLevel")) then
          let errorCount :=
            js_or (length_opt (field p "errors")) (JNum (num 0)) in
          let warningCount :=
            js_or (length_opt (field p "warnings")) (JNum (num 0)) in
          a <- js_mul errorCount (num 30) ;;
          b <- js_mul warningCount (num 10) ;;
          Returned (set p "curseLevel" (JNum (Math_min (num 100) (add a b))))
        else Returned p) ;;
  let p :=
    if negb (truthy (field p "verdict")) || negb (is_string (field p "verdict"))
    then set p "verdict" (JStr placeholder_verdict)
    else p in
  (* Ensure arrays are arrays *)
  let p := set p "errors"
             (if isArray (field p "errors") then field p "errors"
              else JArr []) in
  let p := set p "warnings"
             (if isArray (field p "warnings") then field p "warnings"
              else JArr []) in
  let p := set p "suggestions"
             (if isArray (field p "suggestions") then field p "suggestions"
              else JArr []) in
  (* Clamp curseLevel between 0 and 100 *)
  x <- ToNumber (field p "curseLevel") ;;
  let p := set p "curseLevel" (JNum (clamp x)) in
  Returned (JObj p).

(** The same lines on whatever [JSON.parse] returned.  The text parsed
    starts with a brace, so the value is an object ([parsed_is_object]
    below); a property of [null] cannot be read, and a property of another
    primitive cannot be created in a module, which is strict code.  An array
    would take the properties without showing them when serialised. *)
Definition postProcessValue (parsedResponse : JsVal) : result JsVal :=
  match parsedResponse with
  | JObj o => postProcess o
  | JArr l => Returned (JArr l)
  | JNull | JUndefined => _ <- get parsedResponse (js "errors") ;; Returned JNull
  | _ =>
      Threw (TypeError (js "Cannot create property 'errors' on a primitive"))
  end.

(** Lines 173-174: the retry delay, as the template literal prints it, when
    there is one and its rounded-up value is truthy. *)
Definition retrySeconds (m : jsstring) : option jsstring :=
  match orelse (exec re_retry m) (exec re_please_retry m) with
  | Some retryMatch =>
      match group 1 retryMatch with
      | Some g =>
          let n := Math_ceil (parseFloat g) in
          if truthy (JNum n) then Some (NumberToString n) else None
      | None => None
      end
  | None => None
  end.

Definition check_your_key : jsstring :=
  js "The Reaper could not be summoned" ++ ellipsis
  ++ js " check your API key.".

(** Lines 157-200: the outer [catch]; it always throws. *)
Definition mapError (e : error) : error :=
  if mentions e "API key" || mentions e "GEMINI_API_KEY"
     || mentions e "API_KEY_NOT_VALID"
  then Error check_your_key
  else if mentions e "quota" || mentions e "429"
          || mentions e "Too Many Requests" || mentions e "RESOURCE_EXHAUSTED"
  then
    let retry :=
      match message e with
      | Some m => retrySeconds m
      | None => None
      end in
    if mentions e "free_tier_requests" || mentions e "FreeTier"
       || mentions e "limit: 200"
    then
      let waitTime :=
        match retry with
        | Some n => js " Please wait " ++ n
                    ++ js " seconds, or try again tomorrow."
        | None => js " You have reached the free tier daily limit of 200 requests. Please try again tomorrow or upgrade your plan."
        end in
      Error (js "The Reaper has reached its daily quota limit." ++ waitTime)
    else
      let waitTime :=
        match retry with
        | Some n => js " Please wait " ++ n
                    ++ js " seconds before trying again."
        | None => js " Please wait a moment and try again."
        end in
      Error (js "The Reaper is overwhelmed." ++ waitTime)
  else if mentions e "rate limit" || mentions e "RATE_LIMIT_EXCEEDED"
  then Error (js "The Reaper is overwhelmed. Please wait a moment and try again.")
  else if mentions e "model" || mentions e "MODEL_NOT_FOUND"
          || mentions e "404 Not Found" || mentions e "is not found"
  then
    let currentModel := env_or (GEMINI_MODEL env) DEFAULT_MODEL in
    Error (jsq "The Gemini model '" ++ currentModel
           ++ jsq "' is not available for your API key. Please check your API key permissions and ensure gemini-2.0-flash is available.")
  else
    Error (js "The Reaper could not be summoned: "
           ++ match message e with
              | Some (c :: m) => c :: m
              | _ => js "Unknown error"
              end).

Definition not_configured : jsstring :=
  js "API key not configured. Please set GEMINI_API_KEY in your .env file with a valid API key from https://makersuite.google.com/app/apikey".

(** Line 26, with [genAI] as initialised on lines 15-17. *)
Definition key_missing : bool :=
  match GEMINI_API_KEY env with
  | Some (c :: s) =>
      Str.eqb (c :: s) (js "your_gemini_api_key_here")
      || match trim (c :: s) with [] => true | _ => false end
  | _ => true
  end.

(** What [reviewCode] does with the provider's answer (lines 77-200). *)
Definition review (answer : result jsstring) : result JsVal :=
  try_catch
    (text <- answer ;;
     parsedResponse <- parseResponse text ;;
     postProcessValue parsedResponse)
    (fun e => Threw (mapError e)).

(** [reviewCode(code, language)] *)
Definition reviewCode (code language : jsstring)
  : Prog prompt (result jsstring) (result JsVal) :=
  if key_missing then Ret (Threw (Error not_configured))
  else
    let modelName := env_or (GEMINI_MODEL env) DEFAULT_MODEL in
    Ask (mkPrompt modelName language code) (fun answer => Ret (review answer)).

End ReviewCode.
(** ** Unparsable answers *)

Section ParseFailure.
Context {rt : Runtime}.
Variable env : Env.

(** No JSON object can be parsed from the text: the extraction fails, or
    [JSON.parse] rejects what was extracted. *)
Definition unparsable (text : jsstring) : Prop :=
  forall v,
    (cleanedText <- extractJson text ;; JSON_parse cleanedText) <> Returned v.

(** The error with which [reviewCode] ends after a parse failure: the
    error thrown on line 122, with the context the outer handler adds. *)
Definition MalformedResponseError : error :=
  Error (js "The Reaper could not be summoned: " ++ parse_failure).

Lemma parseResponse_unparsable text :
  unparsable text -> parseResponse text = Threw (Error parse_failure).
Proof.
  unfold unparsable, parseResponse. intros H.
  destruct (cleanedText <- extractJson text;; JSON_parse cleanedText) as [v|e];
    [now destruct (H v)|reflexivity].
Qed.

Lemma mapError_parse_failure :
  mapError env (Error parse_failure) = MalformedResponseError.
Proof. reflexivity. Qed.

Lemma review_unparsable text :
  unparsable text -> review env (Returned text) = Threw MalformedResponseError.
Proof.
  intros H. unfold review. cbn [bind].
  rewrite (parseResponse_unparsable H). cbn [bind try_catch].
  now rewrite mapError_parse_failure.
Qed.

Lemma extract_failure_unparsable text e :
  extractJson text = Threw e -> unparsable text.
Proof. intros H v. rewrite H. discriminate. Qed.

(** What [JSON.parse] returns on an extracted text is an object. *)
Lemma parsed_is_object text s v :
  extractJson text = Returned s -> JSON_parse s = Returned v ->
  exists o, v = JObj o.
Proof.
  intros He Hp. destruct (extract_brace _ He) as [t ->].
  exact (parse_brace _ Hp).
Qed.

(** C4: when no JSON object can be parsed from the raw output of the model,
    [reviewCode] ends with the parse error and returns nothing: the fallback
    object assigned in the handler of the parse failure is dropped by the
    [throw] that follows it. *)
Theorem unparsable_never_returns code language outside text :
  key_missing env = false ->
  outside [mkPrompt (env_or (GEMINI_MODEL env) DEFAULT_MODEL) language code]
    = Returned text ->
  unparsable text ->
  fst (interact (reviewCode env code language) outside [])
    = Threw MalformedResponseError /\
  parseResponse text <> Returned fallback.
Proof.
  intros Hk Ho Hu. unfold reviewCode. rewrite Hk. cbn [interact app fst].
  rewrite Ho. split; [now apply review_unparsable|].
  now rewrite (parseResponse_unparsable Hu).
Qed.

(** C5 (amended): the text handed to [JSON.parse] is the one, and the only
    one, that the strategies give in order.  When the fence pattern matches in the trimmed
    text - a fence, an optional [json] tag, white space, a text from a brace
    to a brace, white space, a fence - the text used is its capture: the
    braced text of the match that starts first and is the longest there.
    When the first fence of the text opens such a match and its last fence
    closes one, that is the text from the brace after the first fence to
    the brace before the last: the contents of the block when the text holds
    one block, a span across the blocks when it holds several ([body] is any
    text).  Without a match, the text without what precedes its first
    opening brace and what follows its last closing brace is used when it
    starts with a brace; otherwise the span matched from a brace to a brace;
    and when nothing is found the call ends with the parse error. *)
Theorem extraction_order text :
  (forall r, strategy_order text r <-> r = extractJson text) /\
  (forall pre tag w1 body w2 post,
     trim text = pre ++ fence ++ tag ++ w1 ++ (123%N :: body ++ [125%N])
                   ++ w2 ++ fence ++ post ->
     tag = [] \/ tag = js "json" ->
     forallb isWhiteSpace w1 = true ->
     forallb isWhiteSpace w2 = true ->
     includes fence pre = false ->
     includes fence post = false ->
     extractJson text = Returned (123%N :: body ++ [125%N])) /\
  (forall e, extractJson text = Threw e ->
             review env (Returned text) = Threw MalformedResponseError).
Proof.
  split; [|split].
  - intros r. split; [|intros ->; apply extract_strategy].
    intros Hr. exact (strategy_order_unique Hr (extract_strategy text)).
  - intros pre tag w1 body w2 post Ht Htag H1 H2 Hpre Hpost.
    assert (Hm : fence_match (trim text) pre (123%N :: body ++ [125%N])).
    { exists tag, w1, body, w2, post. repeat split; auto. }
    unfold extractJson.
    destruct (exec re_fenced (trim text)) as [f|] eqn:E;
      [|now apply fenced_complete in Hm].
    destruct (fenced_captures _ E) as (g & Hg & Hc).
    unfold group. rewrite Hg. simpl. f_equal.
    exact (@single_block _ _ _ _ _ _ _ _ Ht Htag H1 H2 Hpre Hpost Hc).
  - intros e He. apply review_unparsable.
    exact (extract_failure_unparsable _ He).
Qed.

End ParseFailure.

(** ** What post-processing guarantees *)

Lemma field_set_same o k v : field (set o k v) k = v.
Proof. apply lookup_assign_same. Qed.

Lemma field_set_other o k k' v :
  js k <> js k' -> field (set o k v) k' = field o k'.
Proof. apply lookup_assign_other. Qed.

Ltac other_key :=
  let H := fresh in intro H; vm_compute in H; discriminate H.

Ltac fields :=
  repeat (rewrite field_set_same
          || rewrite field_set_other by other_key).





Section Shape.
Context {rt : Runtime}.



End Shape.

(** ** What a returned review is *)

Section Returned.
Context {rt : Runtime}.
Variable env : Env.


End Returned.

End Gemini.

(* ================================================================== *)
(** * routes/review.js: POST /review *)

Module Review.

(** The call [reviewCode(code, language)] as the route sees it. *)
Record call := mkCall { call_code : jsstring; call_language : jsstring }.

Definition error_body (m : jsstring) : JsVal := JObj [(js "error", JStr m)].

Definition code_required : jsstring :=
  js "Code is required and cannot be empty".
Definition language_required : jsstring := js "Language is required".
Definition code_too_long : jsstring :=
  js "Code is too long (maximum 10,000 characters)".
Definition invalid_structure : jsstring :=
  js "Invalid response structure from AI service".

(** The text of a value already known to be a string. *)
Definition text_of (v : JsVal) : jsstring :=
  match v with
  | JStr s => s
  | _ => []
  end.

(** [s.length] *)
Definition len (s : jsstring) : N := N.of_nat (length s).

(** Lines 109-129: the validated code and language, or the rejection. *)
Definition validate (body : object) : response + call :=
  let code := field body "code" in
  let language := field body "language" in
  if negb (truthy code) || negb (is_string code)
     || (len (trim (text_of code)) =? 0)%N
  then inl (Json 400 (error_body code_required))
  else if negb (truthy language) || negb (is_string language)
  then inl (Json 400 (error_body language_required))
  else if (10000 <? len (text_of code))%N
  then inl (Json 400 (error_body code_too_long))
  else inr (mkCall (text_of code) (text_of language)).

(** [error.message?.includes(needle)] *)
Definition mentions (e : error) (needle : string) : bool :=
  match message e with
  | Some m => includes (js needle) m
  | None => false
  end.

(** [error.message || fallback] *)
Definition message_or (e : error) (fallback : jsstring) : jsstring :=
  match message e with
  | Some (c :: m) => c :: m
  | _ => fallback
  end.

(** Lines 159-180: the [catch] of the route. *)
Definition handleError (e : error) : response :=
  if mentions e "API key" || mentions e "Reaper could not be summoned"
  then Json 500 (error_body (message_or e
         (js "The Reaper could not be summoned" ++ Gemini.ellipsis
          ++ js " check your API key.")))
  else if mentions e "quota" || mentions e "rate limit"
          || mentions e "overwhelmed" || mentions e "daily quota"
  then Json 429 (error_body (message_or e
         (js "The Reaper is overwhelmed. Please wait a moment and try again.")))
  else Json 500 (error_body (message_or e
         (js "An error occurred while reviewing the code."))).

(** [v.length] for a value that the lines before made an array. *)
Definition array_length (v : JsVal) : number :=
  match v with
  | JArr l => count (length l)
  | _ => NaN
  end.

(** Lines 143-154 on an object: the fields are made present. *)
Definition ensureFields (result : object) : object :=
  let r := result in
  let r := if negb (isArray (field r "errors"))
           then set r "errors" (JArr []) else r in
  let r := if negb (isArray (field r "warnings"))
           then set r "warnings" (JArr []) else r in
  let r := if negb (isArray (field r "suggestions"))
           then set r "suggestions" (JArr []) else r in
  let r :=
    if negb (is_number (field r "curseLevel")) then
      let errorCount := array_length (field r "errors") in
      let warningCount := array_length (field r "warnings") in
      set r "curseLevel"
        (JNum (Math_min (num 100)
                 (add (mul errorCount (num 30)) (mul warningCount (num 10)))))
    else r in
  if negb (truthy (field r "verdict")) || negb (is_string (field r "verdict"))
  then set r "verdict" (JStr Gemini.placeholder_verdict)
  else r.

(** Lines 137-158: what is sent for a value returned by the AI client.  The
    named properties given to an array are not part of its serialisation. *)
Definition respond (result : JsVal) : response :=
  match result with
  | JObj o => Json 200 (JObj (ensureFields o))
  | JArr l => Json 200 (JArr l)
  | _ => handleError (Error invalid_structure)
  end.

(** The handler: the request body in, the response out, with the call to
    the AI client in between. *)
Definition handler (body : object) : Prog call (result JsVal) response :=
  match validate body with
  | inl rejection => Ret rejection
  | inr c =>
      Ask c (fun outcome =>
               Ret match outcome with
                   | Returned result => respond result
                   | Threw e => handleError e
                   end)
  end.

(** ** The validation, in the words of the specification *)

Definition blank (s : jsstring) : bool :=
  match trim s with
  | [] => true
  | _ :: _ => false
  end.

(** The code is missing, is not a string, or is empty once trimmed. *)
Definition code_rejected (code : JsVal) : bool :=
  match code with
  | JStr s => blank s
  | _ => true
  end.

(** The language is missing or is not a string. *)
Definition language_absent (language : JsVal) : bool :=
  negb (is_string language).

(** The language is missing, is not a string, or is the empty string. *)
Definition language_rejected (language : JsVal) : bool :=
  match language with
  | JStr (_ :: _) => false
  | _ => true
  end.

(** The code is longer than 10,000 characters. *)
Definition too_long (code : JsVal) : bool :=
  match code with
  | JStr s => (10000 <? len s)%N
  | _ => false
  end.

Definition status_of (r : response) : option N :=
  match r with
  | Json s _ => Some s
  | Redirect _ => None
  end.

(** What the route sends once the AI client has settled. *)
Definition reply (outcome : result JsVal) : response :=
  match outcome with
  | Returned result => respond result
  | Threw e => handleError e
  end.

Lemma blank_spec s : (len (trim s) =? 0)%N = blank s.
Proof. unfold blank, len. now destruct (trim s). Qed.

Lemma handleError_status e :
  status_of (handleError e) = Some 500%N \/
  status_of (handleError e) = Some 429%N.
Proof.
  unfold handleError.
  destruct (mentions e "API key" || mentions e "Reaper could not be summoned");
    [now left|].
  destruct (mentions e "quota" || mentions e "rate limit"
            || mentions e "overwhelmed" || mentions e "daily quota");
    [now right|now left].
Qed.

Lemma reply_status outcome : status_of (reply outcome) <> Some 400%N.
Proof.
  destruct outcome as [v|e]; simpl.
  - destruct v; simpl; try discriminate;
      destruct (handleError_status (Error invalid_structure)) as [H|H];
      rewrite H; discriminate.
  - destruct (handleError_status e) as [H|H]; rewrite H; discriminate.
Qed.

(** The request [{code: "x", language: ""}]. *)
Definition empty_language : object :=
  [ (js "code", JStr (js "x")); (js "language", JStr []) ].

(** C2 (as stated, refuted): the request [{code: "x", language: ""}] is
    answered 400 although its code is a non-empty string of one character
    and its language is present and is a string. *)
Lemma empty_language_is_rejected :
  handler empty_language = Ret (Json 400 (error_body language_required)) /\
  code_rejected (field empty_language "code") = false /\
  language_absent (field empty_language "language") = false /\
  too_long (field empty_language "code") = false.
Proof. repeat split; reflexivity. Qed.

Lemma handler_cases (body : object) :
  handler body =
    (if code_rejected (field body "code")
     then Ret (Json 400 (error_body code_required))
     else if language_rejected (field body "language")
     then Ret (Json 400 (error_body language_required))
     else if too_long (field body "code")
     then Ret (Json 400 (error_body code_too_long))
     else Ask (mkCall (text_of (field body "code"))
                 (text_of (field body "language")))
              (fun outcome => Ret (reply outcome))).
Proof.
  unfold handler, validate. rewrite blank_spec.
  destruct (field body "code") as [| |b|n|s|l|o]; try reflexivity.
  - destruct b; reflexivity.
  - destruct n as [| |q]; try reflexivity.
    simpl. destruct (is_zero q); reflexivity.
  - destruct s as [|c s]; [reflexivity|].
    cbn [truthy is_string negb orb text_of code_rejected too_long].
    destruct (blank (c :: s)); [reflexivity|].
    destruct (field body "language") as [| |b|n|t|l|o]; try reflexivity.
    + destruct b; reflexivity.
    + destruct n as [| |q]; try reflexivity.
      simpl. destruct (is_zero q); reflexivity.
    + destruct t as [|d t]; [reflexivity|].
      cbn [truthy is_string negb orb text_of language_rejected].
      destruct (10000 <? len (c :: s))%N; reflexivity.
Qed.

(** C2 (amended): the route answers 400 without calling the AI client
    exactly when the code is missing, not a string or empty once trimmed
    (with the message "Code is required and cannot be empty"), when the
    language is missing, not a string or the empty string, or when the code
    is longer than 10,000 characters; otherwise it calls the AI client with
    that code and language, and whatever it then answers is not a 400. *)
Theorem validation_exact (body : object) :
  let code := field body "code" in
  let language := field body "language" in
  handler body =
    (if code_rejected code
     then Ret (Json 400 (error_body code_required))
     else if language_rejected language
     then Ret (Json 400 (error_body language_required))
     else if too_long code
     then Ret (Json 400 (error_body code_too_long))
     else Ask (mkCall (text_of code) (text_of language))
              (fun outcome => Ret (reply outcome)))
  /\ forall outcome, status_of (reply outcome) <> Some 400%N.
Proof.
  cbv zeta. split; [apply handler_cases|apply reply_status].
Qed.

(** C10: when the code passes its check and the language is falsy (the
    empty string, or a missing, null, false or zero value), the route
    answers 400 with the message "Language is required". *)
Theorem falsy_language_rejected (body : object) :
  code_rejected (field body "code") = false ->
  truthy (field body "language") = false ->
  handler body = Ret (Json 400 (error_body language_required)).
Proof.
  intros Hc Hl. rewrite handler_cases, Hc.
  destruct (field body "language") as [| |b|n|t|l|o]; try reflexivity;
    try discriminate.
  destruct t; [reflexivity|discriminate].
Qed.

Lemma falsy_language_rejected_witness :
  handler empty_language = Ret (Json 400 (error_body language_required)).
Proof.
  apply (falsy_language_rejected empty_language); reflexivity.
Defined.

(** ** The error mapping, in the words of the specification *)

(** The message mentions the credential: it contains "API key" or "Reaper
    could not be summoned". *)
Definition credential_flavoured (e : error) : bool :=
  mentions e "API key" || mentions e "Reaper could not be summoned".

(** The message mentions a rate limit: it contains "quota", "rate limit",
    "overwhelmed" or "daily quota". *)
Definition rate_limit_flavoured (e : error) : bool :=
  mentions e "quota" || mentions e "rate limit" || mentions e "overwhelmed"
  || mentions e "daily quota".

(** The message in the body: the one of the error, unless it has none or an
    empty one. *)
Definition surfaced (e : error) (m : jsstring) : Prop :=
  match message e with
  | Some (c :: t) => m = c :: t
  | _ => True
  end.

(** C8 (amended): the route answers 429 when the message of the error
    thrown by the AI client contains "quota", "rate limit", "overwhelmed" or
    "daily quota" and contains neither "API key" nor "Reaper could not be
    summoned"; a message that contains one of these two gives 500; every
    other failure gives 500; in each case the body carries the message of
    the error when it has a non-empty one. *)
Theorem error_statuses (e : error) :
  exists m,
    surfaced e m /\
    handleError e =
      Json (if credential_flavoured e then 500
            else if rate_limit_flavoured e then 429 else 500)
           (error_body m).
Proof.
  unfold handleError, credential_flavoured, rate_limit_flavoured, surfaced,
    message_or.
  destruct (mentions e "API key" || mentions e "Reaper could not be summoned").
  - eexists. split; [|reflexivity]. now destruct (message e) as [[|c t]|].
  - destruct (mentions e "quota" || mentions e "rate limit"
              || mentions e "overwhelmed" || mentions e "daily quota").
    + eexists. split; [|reflexivity]. now destruct (message e) as [[|c t]|].
    + eexists. split; [|reflexivity]. now destruct (message e) as [[|c t]|].
Qed.

(** ** What a 200 response carries *)


(** ** Messages built around a printed number *)




End Review.

(* ================================================================== *)
(** * encodeURIComponent *)

Module Uri.

Definition alnum (c : N) : bool :=
  ((48 <=? c) && (c <=? 57) || (65 <=? c) && (c <=? 90)
   || (97 <=? c) && (c <=? 122))%N.

(** The characters left as they are: letters, digits and [-_.!~*'()]. *)
Definition unreserved (c : N) : bool :=
  alnum c
  || existsb (N.eqb c) [45; 95; 46; 33; 126; 42; 39; 40; 41]%N.

Definition hexdigit (d : N) : N :=
  if (d <? 10)%N then (48 + d)%N else (55 + d)%N.

(** [%XX] for an octet *)
Definition pct (b : N) : jsstring :=
  [37%N; hexdigit (b / 16); hexdigit (b mod 16)].

(** The UTF-8 octets of a code point, each percent-encoded. *)
Definition utf8 (cp : N) : jsstring :=
  (if cp <? 128 then pct cp
   else if cp <? 2048 then pct (192 + cp / 64) ++ pct (128 + cp mod 64)
   else if cp <? 65536 then
     pct (224 + cp / 4096) ++ pct (128 + (cp / 64) mod 64)
     ++ pct (128 + cp mod 64)
   else
     pct (240 + cp / 262144) ++ pct (128 + (cp / 4096) mod 64)
     ++ pct (128 + (cp / 64) mod 64) ++ pct (128 + cp mod 64))%N.

Definition high_surrogate (c : N) : bool := ((55296 <=? c) && (c <=? 56319))%N.
Definition low_surrogate (c : N) : bool := ((56320 <=? c) && (c <=? 57343))%N.

Definition URIError : error := Error (js "URI malformed").

(** [encodeURIComponent(s)]: a surrogate that is not part of a pair makes
    it throw. *)
Fixpoint encodeURIComponent (s : jsstring) : result jsstring :=
  match s with
  | [] => Returned []
  | c :: t =>
      if unreserved c then
        r <- encodeURIComponent t ;; Returned (c :: r)
      else if high_surrogate c then
        match t with
        | d :: t' =>
            if low_surrogate d then
              r <- encodeURIComponent t' ;;
              Returned (utf8 (65536 + (c - 55296) * 1024 + (d - 56320))%N ++ r)
            else Threw URIError
        | [] => Threw URIError
        end
      else if low_surrogate c then Threw URIError
      else r <- encodeURIComponent t ;; Returned (utf8 c ++ r)
  end.



Lemma encode_cases s :
  (exists r, encodeURIComponent s = Returned r) \/
  encodeURIComponent s = Threw URIError.
Proof.
  remember (length s) as n eqn:En.
  assert (Hn : length s <= n) by lia. clear En.
  revert s Hn. induction n as [|n IH]; intros s Hn.
  - destruct s; [left; now exists []|simpl in Hn; lia].
  - destruct s as [|c t]; [left; now exists []|].
    simpl in Hn. cbn [encodeURIComponent].
    assert (Ht : (exists r, encodeURIComponent t = Returned r) \/
                 encodeURIComponent t = Threw URIError)
      by (apply IH; lia).
    destruct (unreserved c).
    { destruct Ht as [[r ->]| ->]; [left; now eexists|now right]. }
    destruct (high_surrogate c).
    { destruct t as [|d t']; [now right|].
      destruct (low_surrogate d); [|now right].
      assert (Ht' : (exists r, encodeURIComponent t' = Returned r) \/
                    encodeURIComponent t' = Threw URIError)
        by (apply IH; simpl in Hn; lia).
      destruct Ht' as [[r ->]| ->]; [left; now eexists|now right]. }
    destruct (low_surrogate c); [now right|].
    destruct Ht as [[r ->]| ->]; [left; now eexists|now right].
Qed.

End Uri.

(* ================================================================== *)
(** * routes/github.js *)

Module Github.
Import Uri.

(** A call to [fetch] and what it resolves to. *)
Record request := mkRequest {
  url : jsstring;
  method : jsstring;
  headers : list (jsstring * jsstring);
  payload : option JsVal          (* the object given to JSON.stringify *)
}.

Record http := mkHttp {
  status : N;
  statusText : jsstring;
  text : result jsstring;         (* await response.text() *)
  json : result JsVal             (* await response.json() *)
}.

(** [response.ok] *)
Definition ok (r : http) : bool := ((200 <=? status r) && (status r <=? 299))%N.

(** [await fetch(...)]: a response, or a rejection. *)
Definition answer := result http.

(** [v.includes(needle)] as a method call: strings and arrays have the
    method, nothing else that [JSON.parse] returns does. *)
Definition call_includes (v : JsVal) (needle : jsstring) : result bool :=
  match v with
  | JStr s => Returned (includes needle s)
  | JArr l =>
      Returned (existsb (fun x => match x with
                                  | JStr t => Str.eqb t needle
                                  | _ => false
                                  end) l)
  | _ => Threw (TypeError (js "errorDescription.includes is not a function"))
  end.

Section Handlers.
Context {rt : Runtime}.
Variable env : Env.

Definition frontendUrl : jsstring :=
  env_or (CLIENT_URL env) (js "http://localhost:5173").

(** ** GET /callback *)

(** [res.redirect(`${frontendUrl}#error=${encodeURIComponent(msg)}`)] *)
Definition redirect_error (msg : jsstring) : result response :=
  errorMsg <- encodeURIComponent msg ;;
  Returned (Redirect (frontendUrl ++ js "#error=" ++ errorMsg)).

Definition missing_code : jsstring :=
  js "Missing authorization code from GitHub".
Definition oauth_not_configured : jsstring :=
  js "GitHub OAuth not configured. Please set GITHUB_CLIENT_ID and GITHUB_CLIENT_SECRET in your .env file.".
Definition oauth_configuration_error : jsstring :=
  js "GitHub OAuth configuration error: Please check your GITHUB_CLIENT_ID and GITHUB_CLIENT_SECRET in your .env file.".
Definition oauth_redirect_mismatch : jsstring :=
  js "GitHub OAuth redirect URI mismatch: Please ensure GITHUB_REDIRECT_URI matches your GitHub app settings.".

Definition env_value (v : option jsstring) : JsVal :=
  match v with
  | Some s => JStr s
  | None => JUndefined
  end.

(** Lines 79-90: the token exchange. *)
Definition exchange (code : JsVal) : request :=
  mkRequest (js "https://github.com/login/oauth/access_token") (js "POST")
    [ (js "Content-Type", js "application/json");
      (js "Accept", js "application/json") ]
    (Some (JObj [ (js "client_id", env_value (GITHUB_CLIENT_ID env));
                  (js "client_secret", env_value (GITHUB_CLIENT_SECRET env));
                  (js "code", code) ])).

(** Lines 92-123: the body of the [try] once [fetch] has settled. *)
Definition exchanged (a : answer) : result response :=
  tokenResponse <- a ;;
  if negb (ok tokenResponse) then
    errorText <- text tokenResponse ;;
    redirect_error (js "GitHub OAuth failed: " ++ decimal (status tokenResponse)
                    ++ js " " ++ statusText tokenResponse)
  else
    tokenData <- json tokenResponse ;;
    error <- get tokenData (js "error") ;;
    access_token <- get tokenData (js "access_token") ;;
    if truthy error || negb (truthy access_token) then
      error_description <- get tokenData (js "error_description") ;;
      let errorDescription :=
        js_or error_description
          (js_or error (JStr (js "No access token received"))) in
      id <- call_includes errorDescription (js "client_id") ;;
      secret <- (if id then Returned true
                 else call_includes errorDescription (js "client_secret")) ;;
      errorMsg <-
        (if secret then Returned oauth_configuration_error
         else
           uri <- call_includes errorDescription (js "redirect_uri") ;;
           if uri then Returned oauth_redirect_mismatch
           else
             d <- ToString errorDescription ;;
             Returned (js "GitHub OAuth failed: " ++ d)) ;;
      redirect_error errorMsg
    else
      accessToken <- ToString access_token ;;
      Returned (Redirect (frontendUrl ++ js "#token=" ++ accessToken)).

(** Lines 124-128: the [catch]. *)
Definition exchange_failed (e : error) : result response :=
  redirect_error (js "GitHub OAuth failed: "
                  ++ match message e with
                     | Some m => m
                     | None => js "undefined"
                     end).

(** The handler; its result is the response sent, or the exception that
    leaves the handler with nothing sent. *)
Definition callback (code : JsVal) : Prog request answer (result response) :=
  if negb (truthy code) then Ret (redirect_error missing_code)
  else if unset (GITHUB_CLIENT_ID env) || unset (GITHUB_CLIENT_SECRET env)
  then Ret (redirect_error oauth_not_configured)
  else
    Ask (exchange code)
      (fun a => Ret (try_catch (exchanged a) exchange_failed)).

(** ** POST /pull-request *)

Definition api : jsstring := js "https://api.github.com/repos/".

(** Lines 342-347: the [catch]. *)
Definition failed (e : error) : response :=
  Json 500 (JObj [ (js "error", JStr (js "Failed to create pull request"));
                   (js "message", match message e with
                                  | Some m => JStr m
                                  | None => JUndefined
                                  end) ]).

(** Continue inside the [try]: an exception ends the handler with the
    response of the [catch]. *)
Definition attempt {A} (c : result A)
  (k : A -> Prog request answer (result response))
  : Prog request answer (result response) :=
  match c with
  | Returned a => k a
  | Threw e => Ret (Returned (failed e))
  end.

Definition expired_token : response :=
  Json 401 (JObj [ (js "error", JStr (js "Invalid or expired token"));
                   (js "message", JStr (js "Please re-authenticate with GitHub")) ]).

Definition branch_conflict : response :=
  Json 409 (JObj [ (js "error", JStr (js "Branch conflict"));
                   (js "message",
                     JStr (js "A branch with this name already exists. Please try again.")) ]).

Definition missing_fields : response :=
  Json 400 (JObj [ (js "error", JStr (js "Missing required fields")) ]).

(** [`${a}${b}...`] *)
Fixpoint template (parts : list (jsstring + JsVal)) : result jsstring :=
  match parts with
  | [] => Returned []
  | inl s :: rest => r <- template rest ;; Returned (s ++ r)
  | inr v :: rest => s <- ToString v ;; r <- template rest ;; Returned (s ++ r)
  end.

Definition lit (s : string) : jsstring + JsVal := inl (js s).
Definition val (v : JsVal) : jsstring + JsVal := inr v.

(** The handler, given the value of [Date.now()]. *)
Definition pull_request (now : N) (body : object)
  : Prog request answer (result response) :=
  let accessToken := field body "accessToken" in
  let owner := field body "owner" in
  let repo := field body "repo" in
  let filePath := field body "filePath" in
  let improvedCode := field body "improvedCode" in
  let category := field body "category" in
  let explanation := field body "explanation" in
  if negb (truthy accessToken) || negb (truthy owner) || negb (truthy repo)
     || negb (truthy filePath) || negb (truthy improvedCode)
     || negb (truthy category) || negb (truthy explanation)
  then Ret (Returned missing_fields)
  else
  (* Generate unique branch name *)
  let branchName := js "aireviewmate-update-" ++ decimal now in
  match template [lit "Bearer "; val accessToken] with
  | Threw e => Ret (Threw e)
  | Returned authorization =>
  let githubApiHeaders :=
    [ (js "Authorization", authorization);
      (js "Accept", js "application/vnd.github+json");
      (js "User-Agent", js "AIReviewMate") ] in
  (* Step A: Fetch base branch (main) SHA *)
  attempt (template [inl api; val owner; lit "/"; val repo;
                     lit "/git/refs/heads/main"]) (fun refUrl =>
  Ask (mkRequest refUrl (js "GET") githubApiHeaders None) (fun a =>
  attempt a (fun refResponse =>
  if (status refResponse =? 401)%N then Ret (Returned expired_token) else
  attempt (if negb (ok refResponse)
           then Threw (Error (js "Failed to fetch main branch: "
                              ++ decimal (status refResponse)))
           else
             refData <- json refResponse ;;
             object <- get refData (js "object") ;;
             get object (js "sha")) (fun mainBranchSHA =>
  (* Step B: Create new branch *)
  attempt (template [inl api; val owner; lit "/"; val repo; lit "/git/refs"])
    (fun refsUrl =>
  Ask (mkRequest refsUrl (js "POST") githubApiHeaders
         (Some (JObj [ (js "ref", JStr (js "refs/heads/" ++ branchName));
                       (js "sha", mainBranchSHA) ]))) (fun a =>
  attempt a (fun createBranchResponse =>
  if (status createBranchResponse =? 409)%N
  then Ret (Returned branch_conflict) else
  attempt (if negb (ok createBranchResponse)
           then Threw (Error (js "Failed to create branch: "
                              ++ decimal (status createBranchResponse)))
           else Returned tt) (fun _ =>
  (* Step C: Get current file info *)
  attempt (template [inl api; val owner; lit "/"; val repo; lit "/contents/";
                     val filePath]) (fun fileUrl =>
  Ask (mkRequest fileUrl (js "GET") githubApiHeaders None) (fun a =>
  attempt a (fun fileResponse =>
  attempt (if negb (ok fileResponse)
           then Threw (Error (js "Failed to fetch file: "
                              ++ decimal (status fileResponse)))
           else
             fileData <- json fileResponse ;;
             get fileData (js "sha")) (fun fileSHA =>
  (* Step D: Commit improved code *)
  attempt (improvedCodeBase64 <- toBase64 improvedCode ;;
           commitUrl <- template [inl api; val owner; lit "/"; val repo;
                                  lit "/contents/"; val filePath] ;;
           message <- template [lit "AIReviewMate: "; val category] ;;
           Returned (commitUrl, message, improvedCodeBase64))
    (fun '(commitUrl, message, improvedCodeBase64) =>
  Ask (mkRequest commitUrl (js "PUT") githubApiHeaders
         (Some (JObj [ (js "message", JStr message);
                       (js "content", JStr improvedCodeBase64);
                       (js "sha", fileSHA);
                       (js "branch", JStr branchName) ]))) (fun a =>
  attempt a (fun commitResponse =>
  attempt (if negb (ok commitResponse)
           then Threw (Error (js "Failed to commit code: "
                              ++ decimal (status commitResponse)))
           else Returned tt) (fun _ =>
  (* Step E: Create Pull Request *)
  attempt (pullsUrl <- template [inl api; val owner; lit "/"; val repo;
                                 lit "/pulls"] ;;
           title <- template [lit "AI Review Suggestion: "; val category] ;;
           Returned (pullsUrl, title)) (fun '(pullsUrl, title) =>
  Ask (mkRequest pullsUrl (js "POST") githubApiHeaders
         (Some (JObj [ (js "title", JStr title);
                       (js "head", JStr branchName);
                       (js "base", JStr (js "main"));
                       (js "body", explanation) ]))) (fun a =>
  attempt a (fun prResponse =>
  attempt (if negb (ok prResponse)
           then
             let errorData := match json prResponse with
                              | Returned v => v
                              | Threw _ => JObj []
                              end in
             m <- get errorData (js "message") ;;
             text <- template [lit "Failed to create PR: ";
                               inl (decimal (status prResponse)); lit " - ";
                               val (js_or m (JStr (js "Unknown error")))] ;;
             Threw (Error text)
           else
             prData <- json prResponse ;;
             html_url <- get prData (js "html_url") ;;
             number <- get prData (js "number") ;;
             Returned (Json 200 (JObj [ (js "success", JBool true);
                                        (js "url", html_url);
                                        (js "number", number);
                                        (js "branch", JStr branchName) ])))
    (fun sent => Ret (Returned sent)))))))))))))))))))))
  end.

End Handlers.
(** ** The terminal states of the callback *)

Section Callback.
Context {rt : Runtime}.
Variable env : Env.

(** The redirect that carries the message [msg], encoded, after the [#]. *)
Definition error_redirect (msg : jsstring) (sent : response) : Prop :=
  exists errorMsg,
    encodeURIComponent msg = Returned errorMsg /\
    sent = Redirect (frontendUrl env ++ js "#error=" ++ errorMsg).

(** The message of an exception in the text of a template. *)
Definition printed (e : error) : jsstring :=
  match message e with
  | Some m => m
  | None => js "undefined"
  end.

(** The exchange succeeded and gave a token that prints as [t]. *)
Definition granted (a : answer) (t : jsstring) : Prop :=
  exists tokenResponse tokenData error access_token,
    a = Returned tokenResponse /\
    ok tokenResponse = true /\
    json tokenResponse = Returned tokenData /\
    get tokenData (js "error") = Returned error /\
    truthy error = false /\
    get tokenData (js "access_token") = Returned access_token /\
    truthy access_token = true /\
    ToString access_token = Returned t.

Lemma returned_same A (a b : A) : Returned a = Returned b -> a = b.
Proof. intros H. now injection H. Qed.

Lemma bind_returned A B (c : result A) (k : A -> result B) b :
  bind c k = Returned b -> exists a, c = Returned a /\ k a = Returned b.
Proof. destruct c as [a|e]; [now exists a|discriminate]. Qed.

Lemma redirect_error_sent msg sent :
  redirect_error env msg = Returned sent -> error_redirect msg sent.
Proof.
  unfold redirect_error, error_redirect.
  destruct (encodeURIComponent msg) as [r|e]; [|discriminate].
  cbn [bind]. intros H. injection H as <-. now exists r.
Qed.

(** What the [try] sends is the redirect with the token or a redirect with
    an encoded message. *)
Lemma exchanged_sent a sent :
  exchanged env a = Returned sent ->
  (exists msg, error_redirect msg sent) \/
  (exists t, granted a t /\
             sent = Redirect (frontendUrl env ++ js "#token=" ++ t)).
Proof.
  unfold exchanged. destruct a as [tokenResponse|e]; [|discriminate].
  cbn [bind]. destruct (ok tokenResponse) eqn:Eok; cbn [negb].
  - destruct (json tokenResponse) as [tokenData|e] eqn:Ej; [|discriminate].
    cbn [bind].
    destruct (get tokenData (js "error")) as [error|e] eqn:E1;
      [|discriminate].
    cbn [bind].
    destruct (get tokenData (js "access_token")) as [access_token|e] eqn:E2;
      [|discriminate].
    cbn [bind].
    destruct (truthy error) eqn:Ete; cbn [orb].
    { destruct (get tokenData (js "error_description")) as [d|e];
        [|discriminate].
      cbn [bind].
      intros H.
      apply bind_returned in H as (id & _ & H).
      apply bind_returned in H as (secret & _ & H).
      apply bind_returned in H as (msg & _ & H).
      left. exists msg. now apply redirect_error_sent. }
    destruct (truthy access_token) eqn:Eta; cbn [negb].
    + destruct (ToString access_token) as [t|e] eqn:Es; [|discriminate].
      cbn [bind]. intros H. injection H as <-. right. exists t.
      split; [|reflexivity].
      now exists tokenResponse, tokenData, error, access_token.
    + destruct (get tokenData (js "error_description")) as [d|e];
        [|discriminate].
      cbn [bind].
      intros H.
      apply bind_returned in H as (id & _ & H).
      apply bind_returned in H as (secret & _ & H).
      apply bind_returned in H as (msg & _ & H).
      left. exists msg. now apply redirect_error_sent.
  - destruct (text tokenResponse) as [errorText|e]; [|discriminate].
    cbn [bind]. intros H. left. eexists.
    apply redirect_error_sent. exact H.
Qed.

Lemma encoded_missing_code :
  encodeURIComponent missing_code
  = Returned (js "Missing%20authorization%20code%20from%20GitHub").
Proof. reflexivity. Qed.

Lemma encoded_not_configured :
  encodeURIComponent oauth_not_configured
  = Returned (js "GitHub%20OAuth%20not%20configured.%20Please%20set%20GITHUB_CLIENT_ID%20and%20GITHUB_CLIENT_SECRET%20in%20your%20.env%20file.").
Proof. reflexivity. Qed.

(** What the [catch] does with an exception of the [try]. *)
Lemma exchange_failed_cases e :
  (exists sent,
     exchange_failed env e = Returned sent /\
     error_redirect (js "GitHub OAuth failed: " ++ printed e) sent) \/
  (exchange_failed env e = Threw URIError /\
   encodeURIComponent (js "GitHub OAuth failed: " ++ printed e)
   = Threw URIError).
Proof.
  unfold exchange_failed, redirect_error, error_redirect, printed.
  destruct (encode_cases
              (js "GitHub OAuth failed: "
               ++ match message e with
                  | Some m => m
                  | None => js "undefined"
                  end)) as [[r Hr]|Hr]; rewrite Hr; cbn [bind].
  - left. eexists. split; [reflexivity|]. exists r.
    split; [first [exact Hr|reflexivity]|reflexivity].
  - right. split; first [exact Hr|reflexivity].
Qed.

(** The terminal states of the callback.  Without a [code], and without the
    credentials, the fixed message is sent; once the exchange is made, a
    granted token is sent after [#token=], an answer that is not a success
    is reported with its status, and an exception of the [try] is reported
    by the [catch] with its message.  Whatever is sent is a redirect to the
    front end with [#token=] or with [#error=] and an encoded message, never
    a page.  Nothing at all is sent in one case: the [catch] cannot encode
    the message of the exception. *)
Theorem callback_terminal_states
  (code : JsVal) (outside : list request -> answer) :
  let out := fst (interact (callback env code) outside []) in
  let a := outside [exchange env code] in
  let configured :=
    unset (GITHUB_CLIENT_ID env) || unset (GITHUB_CLIENT_SECRET env) = false in
  (truthy code = false ->
   out = Returned (Redirect
           (frontendUrl env
            ++ js "#error=Missing%20authorization%20code%20from%20GitHub")))
  /\
  (truthy code = true -> ~ configured ->
   exists sent, out = Returned sent /\ error_redirect oauth_not_configured sent)
  /\
  (forall t,
     truthy code = true -> configured -> granted a t ->
     out = Returned (Redirect (frontendUrl env ++ js "#token=" ++ t)))
  /\
  (forall r errorText errorMsg,
     truthy code = true -> configured ->
     a = Returned r -> ok r = false -> text r = Returned errorText ->
     encodeURIComponent (js "GitHub OAuth failed: " ++ decimal (status r)
                         ++ js " " ++ statusText r) = Returned errorMsg ->
     out = Returned (Redirect (frontendUrl env ++ js "#error=" ++ errorMsg)))
  /\
  (forall e errorMsg,
     truthy code = true -> configured -> exchanged env a = Threw e ->
     encodeURIComponent (js "GitHub OAuth failed: " ++ printed e)
     = Returned errorMsg ->
     out = Returned (Redirect (frontendUrl env ++ js "#error=" ++ errorMsg)))
  /\
  (forall sent,
     out = Returned sent ->
     (exists msg, error_redirect msg sent) \/
     (exists t, granted a t /\
                sent = Redirect (frontendUrl env ++ js "#token=" ++ t)))
  /\
  (forall e',
     out = Threw e' ->
     e' = URIError /\ truthy code = true /\ configured /\
     exists e,
       exchanged env a = Threw e /\
       encodeURIComponent (js "GitHub OAuth failed: " ++ printed e)
       = Threw URIError).
Proof.
  cbv zeta. unfold callback.
  destruct (truthy code) eqn:Ec; cbn [negb].
  2: { cbn [interact fst]. unfold redirect_error.
       rewrite encoded_missing_code. cbn [bind].
       repeat split; try discriminate; try reflexivity.
       intros sent H. injection H as <-. left. exists missing_code.
       exists (js "Missing%20authorization%20code%20from%20GitHub").
       split; [exact encoded_missing_code|reflexivity]. }
  destruct (unset (GITHUB_CLIENT_ID env) || unset (GITHUB_CLIENT_SECRET env))
    eqn:Eu.
  { cbn [interact fst]. unfold redirect_error.
    rewrite encoded_not_configured. cbn [bind].
    assert (Hsent : error_redirect oauth_not_configured
              (Redirect (frontendUrl env ++ js "#error="
                 ++ js "GitHub%20OAuth%20not%20configured.%20Please%20set%20GITHUB_CLIENT_ID%20and%20GITHUB_CLIENT_SECRET%20in%20your%20.env%20file.")))
      by (eexists; split; [apply encoded_not_configured|reflexivity]).
    repeat split; try discriminate.
    - intros _ _. eexists. split; [reflexivity|exact Hsent].
    - intros sent H. apply returned_same in H. subst sent.
      left. exists oauth_not_configured. exact Hsent. }
  cbn [interact fst app].
  split; [discriminate|]. split; [intros _ H; now destruct H|].
  split; [|split; [|split; [|split]]].
  - intros t _ _ (r & d & e & tok & Ha & Hok & Hj & He & Hte & Htok & Htt & Hs).
    rewrite Ha. unfold exchanged.
    cbn [bind]. rewrite Hok. cbn [negb]. rewrite Hj. cbn [bind].
    rewrite He. cbn [bind]. rewrite Htok. cbn [bind].
    rewrite Hte, Htt. cbn [negb orb]. rewrite Hs. reflexivity.
  - intros r errorText errorMsg _ _ Ha Hok Ht Henc.
    rewrite Ha. unfold exchanged. cbn [bind]. rewrite Hok. cbn [negb].
    rewrite Ht. cbn [bind]. unfold redirect_error. rewrite Henc.
    reflexivity.
  - intros e errorMsg _ _ He Henc. rewrite He. cbn [try_catch].
    change (exchange_failed env e)
      with (redirect_error env (js "GitHub OAuth failed: " ++ printed e)).
    unfold redirect_error. rewrite Henc. reflexivity.
  - intros sent.
    destruct (exchanged env (outside [exchange env code])) as [r|e] eqn:E;
      cbn [try_catch].
    + intros H. apply returned_same in H. subst sent.
      exact (exchanged_sent _ E).
    + destruct (exchange_failed_cases e) as [(s & -> & Hs)|[-> _]];
        [|discriminate].
      intros H. apply returned_same in H. subst sent.
      left. eexists. exact Hs.
  - intros e'.
    destruct (exchanged env (outside [exchange env code])) as [r|e] eqn:E;
      cbn [try_catch]; [discriminate|].
    destruct (exchange_failed_cases e) as [(s & -> & Hs)|[-> He]];
      [discriminate|].
    intros H. injection H as <-. repeat split.
    exists e. split; [reflexivity|exact He].
Qed.

(** ** A response is sent whenever the messages from outside can be
    encoded *)








End Callback.

(** ** The pull-request sequence *)

Section PullRequest.
Context {rt : Runtime}.
Variable env : Env.

Lemma interact_extends {Q A R} (p : Prog Q A R) outside : forall asked0 r asked,
  interact p outside asked0 = (r, asked) -> exists rest, asked = asked0 ++ rest.
Proof.
  induction p as [x|q k IH]; intros asked0 r asked H; simpl in H.
  - injection H as _ <-. exists []. now rewrite app_nil_r.
  - apply IH in H as [rest ->]. exists (q :: rest).
    now rewrite <- app_assoc.
Qed.


(** ** What the sequence asks for *)

(** The name of the new branch, the headers of every request, and the
    addresses used. *)
Definition branch_of (now : N) : jsstring :=
  js "aireviewmate-update-" ++ decimal now.

Definition headers_for (accessToken : jsstring) : list (jsstring * jsstring) :=
  [ (js "Authorization", js "Bearer " ++ accessToken);
    (js "Accept", js "application/vnd.github+json");
    (js "User-Agent", js "AIReviewMate") ].

(** The reference of a branch of a repository. *)
Definition ref_of (owner repo branch : jsstring) : jsstring :=
  api ++ owner ++ js "/" ++ repo ++ js "/git/refs/heads/" ++ branch.

Definition pulls_of (owner repo : jsstring) : jsstring :=
  api ++ owner ++ js "/" ++ repo ++ js "/pulls".

(** The request that opens a pull request from [head] to [base]. *)
Definition open_pull (accessToken owner repo category head base : jsstring)
  (description : JsVal) : request :=
  mkRequest (pulls_of owner repo) (js "POST") (headers_for accessToken)
    (Some (JObj [ (js "title", JStr (js "AI Review Suggestion: " ++ category));
                  (js "head", JStr head);
                  (js "base", JStr base);
                  (js "body", description) ])).

Lemma asked_nth {Q A R} (p : Prog Q A R) outside asked0 i q :
  nth_error asked0 i = Some q ->
  nth_error (snd (interact p outside asked0)) i = Some q.
Proof.
  intros H. destruct (interact p outside asked0) as [r asked] eqn:E.
  apply interact_extends in E as [rest ->]. cbn [snd].
  rewrite nth_error_app1; [assumption|].
  apply nth_error_Some. congruence.
Qed.

Ltac early :=
  cbn [attempt interact snd app nth_error]; intros ? H; discriminate H.

Ltac finish_request :=
  unfold open_pull, pulls_of, ref_of, headers_for, branch_of;
  rewrite ?app_nil_r; reflexivity.

Section Targets.
Variables (now : N) (body : object) (outside : list request -> answer).
Variables accessToken owner repo category : jsstring.
Hypothesis Ht : field body "accessToken" = JStr accessToken.
Hypothesis Ho : field body "owner" = JStr owner.
Hypothesis Hr : field body "repo" = JStr repo.
Hypothesis Hc : field body "category" = JStr category.

Let asked := snd (interact (pull_request now body) outside []).

Lemma first_request qA :
  nth_error asked 0 = Some qA ->
  qA = mkRequest (ref_of owner repo (js "main")) (js "GET")
         (headers_for accessToken) None.
Proof.
  subst asked. unfold pull_request. rewrite Ht, Ho, Hr.
  destruct (negb _ || _ || _ || _ || _ || _ || _);
    [intros H; discriminate H|].
  cbn [template lit val ToString bind attempt interact].
  rewrite app_nil_l. intros H.
  rewrite (asked_nth _ _ [_] 0 eq_refl) in H.
  injection H as <-. finish_request.
Qed.

Lemma fifth_request qE :
  nth_error asked 4 = Some qE ->
  qE = open_pull accessToken owner repo category (branch_of now)
         (js "main") (field body "explanation").
Proof.
  subst asked. unfold pull_request. rewrite Ht, Ho, Hr, Hc. revert qE.
  destruct (negb _ || _ || _ || _ || _ || _ || _); [early|].
  cbn [template lit val ToString bind attempt interact].
  (* Step A *)
  destruct (outside _) as [refResponse|e]; [|early].
  cbn [attempt]. destruct (status refResponse =? 401)%N; [early|].
  match goal with
  | |- context [interact (attempt ?c _) _ _] => destruct c as [sha|e]
  end; [|early].
  cbn [attempt interact].
  (* Step B *)
  destruct (outside _) as [createBranchResponse|e]; [|early].
  cbn [attempt]. destruct (status createBranchResponse =? 409)%N; [early|].
  destruct (negb (ok createBranchResponse)); [early|].
  cbn [attempt interact].
  (* Step C *)
  destruct (ToString (field body "filePath")) as [path|e]; [|early].
  cbn [bind attempt interact].
  destruct (outside _) as [fileResponse|e]; [|early].
  cbn [attempt].
  match goal with
  | |- context [interact (attempt ?c _) _ _] => destruct c as [fileSHA|e]
  end; [|early].
  cbn [attempt].
  (* Step D *)
  destruct (toBase64 _) as [improvedCodeBase64|e]; [|early].
  cbn [bind attempt interact].
  destruct (outside _) as [commitResponse|e]; [|early].
  cbn [attempt]. destruct (negb (ok commitResponse)); [early|].
  cbn [attempt interact].
  (* Step E *)
  intros qE H.
  erewrite (asked_nth _ _ _ 4) in H by reflexivity.
  injection H as <-. finish_request.
Qed.

End Targets.

(** C6 (amended): the first request reads the reference of the branch named
    [main], and the fifth opens the pull request from the new branch to the
    base [main], with the title "AI Review Suggestion: " followed by the
    category and the explanation of the request as its body; the default
    branch of the repository is not consulted. *)
Theorem pull_request_targets_main now body outside
  accessToken owner repo category :
  field body "accessToken" = JStr accessToken ->
  field body "owner" = JStr owner ->
  field body "repo" = JStr repo ->
  field body "category" = JStr category ->
  let asked := snd (interact (pull_request now body) outside []) in
  (forall qA, nth_error asked 0 = Some qA ->
     qA = mkRequest (ref_of owner repo (js "main")) (js "GET")
            (headers_for accessToken) None) /\
  (forall qE, nth_error asked 4 = Some qE ->
     qE = open_pull accessToken owner repo category (branch_of now)
            (js "main") (field body "explanation")).
Proof.
  intros Ht Ho Hr Hc. cbv zeta. split; intros q H.
  - eapply first_request; eassumption.
  - eapply fifth_request; eassumption.
Qed.

End PullRequest.

(** ** Every way out of the pull-request sequence *)

Section Outcomes.
Context {rt : Runtime}.

(** The seven fields that line 212 requires. *)
Definition required : list string :=
  [ "accessToken"; "owner"; "repo"; "filePath"; "improvedCode"; "category";
    "explanation" ]%string.

Lemma required_spec body :
  negb (truthy (field body "accessToken")) || negb (truthy (field body "owner"))
  || negb (truthy (field body "repo")) || negb (truthy (field body "filePath"))
  || negb (truthy (field body "improvedCode"))
  || negb (truthy (field body "category"))
  || negb (truthy (field body "explanation"))
  = existsb (fun k => negb (truthy (field body k))) required.
Proof. unfold required. cbn [existsb]. now rewrite orb_false_r, !orb_assoc. Qed.

(** When one of the seven fields is absent or falsy (empty string, zero,
    [null], [false]), the handler answers 400 "Missing required fields" and
    sends nothing to GitHub. *)
Theorem missing_field_rejected now body outside k :
  In k required -> truthy (field body k) = false ->
  interact (pull_request now body) outside []
  = (Returned missing_fields, []).
Proof.
  intros Hk Hf. unfold pull_request. rewrite required_spec.
  replace (existsb _ required) with true; [reflexivity|].
  symmetry. apply existsb_exists. exists k. split; [assumption|].
  now rewrite Hf.
Qed.

(** Lines 335-340: the answer of a completed sequence. *)
Definition created (now : N) (html_url number : JsVal) : response :=
  Json 200 (JObj [ (js "success", JBool true);
                   (js "url", html_url);
                   (js "number", number);
                   (js "branch", JStr (branch_of now)) ]).

(** One step of the run: the outcome of the next fallible expression or
    test decides how the handler goes on. *)
Ltac walk H :=
  repeat (cbn [attempt interact] in H;
          match type of H with
          | interact (attempt ?c _) _ _ = _ =>
              let x := fresh "x" in let e := fresh "e" in
              destruct c as [x|e] eqn:?;
              repeat match goal with
                     | p : (_ * _)%type |- _ => destruct p
                     end
          | interact (if ?b then _ else _) _ _ = _ => destruct b eqn:?
          end).

Ltac ended H := apply pair_equal_spec in H as [<- <-].

Ltac conclude H :=
  ended H; rewrite ?length_app; cbn [length Nat.add fst snd];
  first [ left; split; reflexivity
        | right; left; split; reflexivity
        | do 2 right; left; split; reflexivity
        | do 3 right; left; split; reflexivity
        | do 4 right; left; eexists; split; [reflexivity|lia]
        | do 5 right; do 2 eexists; split; reflexivity ].

(** The handler ends in one of six ways, after at most five requests: the
    400 of a missing field and nothing asked; no answer at all, when the
    token is an object that cannot be printed, and nothing asked; the 401
    of an expired token after one request; the 409 of a branch conflict
    after two; the 500 of the [catch]; or the 200 that carries the address
    and the number of the pull request, after exactly five requests. *)
Theorem pull_request_outcomes now body outside :
  let run := interact (pull_request now body) outside [] in
  let n := length (snd run) in
  (fst run = Returned missing_fields /\ n = 0) \/
  (fst run = Threw (TypeError (js "Cannot convert object to primitive value"))
   /\ n = 0) \/
  (fst run = Returned expired_token /\ n = 1) \/
  (fst run = Returned branch_conflict /\ n = 2) \/
  (exists e, fst run = Returned (failed e) /\ n <= 5) \/
  (exists html_url number,
     fst run = Returned (created now html_url number) /\ n = 5).
Proof.
  cbv zeta.
  destruct (interact (pull_request now body) outside []) as [out asked] eqn:Hrun.
  cbn [fst snd]. unfold pull_request in Hrun.
  destruct (negb _ || _ || _ || _ || _ || _ || _);
    [cbn [interact] in Hrun; conclude Hrun|].
  destruct (template [lit "Bearer "; val (field body "accessToken")])
    as [authorization|e] eqn:Ea.
  2:{ cbn [template lit val] in Ea.
      destruct (ToString (field body "accessToken")) as [s|e'] eqn:Es;
        [discriminate|].
      apply ToString_error in Es. cbn [bind] in Ea. injection Ea as <-.
      subst e'. cbn [interact] in Hrun. conclude Hrun. }
  walk Hrun; try conclude Hrun.
  cbn [interact] in Hrun. ended Hrun.
  rewrite ?length_app. cbn [length Nat.add].
  match goal with
  | H : (if negb (ok ?r) then _ else _) = Returned ?x |- _ =>
      destruct (negb (ok r));
      [ destruct (get _ _) in H; cbn [bind] in H; [|discriminate H];
        destruct (template _) in H; discriminate H
      | destruct (json r) as [prData|] in H; cbn [bind] in H;
          [|discriminate H];
        destruct (get prData (js "html_url")) as [html_url|] in H;
          cbn [bind] in H; [|discriminate H];
        destruct (get prData (js "number")) as [number|] in H;
          cbn [bind] in H; [|discriminate H];
        injection H as <- ]
  end.
  do 5 right. now exists html_url, number.
Qed.

(** The answers that let the sequence go on had a status from 200 to 299. *)
Ltac oks :=
  repeat match goal with
         | H : (if negb (ok ?r) then _ else _) = Returned _ |- _ =>
             assert (ok r = true)
               by (destruct (ok r) eqn:Eok; [reflexivity|];
                   try rewrite Eok in H; cbn [negb] in H;
                   first [ discriminate H
                         | destruct (get _ _) in H; cbn [bind] in H;
                           [destruct (template _) in H|]; discriminate H ]);
             clear H
         end.

(** The handler answers 200 only after five requests, each of which GitHub
    answered with a status from 200 to 299. *)
Theorem success_needs_every_step now body outside b :
  fst (interact (pull_request now body) outside []) = Returned (Json 200 b) ->
  let asked := snd (interact (pull_request now body) outside []) in
  length asked = 5 /\
  forall i, i < 5 ->
    exists r, outside (firstn (S i) asked) = Returned r /\ ok r = true.
Proof.
  cbv zeta.
  destruct (interact (pull_request now body) outside []) as [out asked] eqn:Hrun.
  cbn [fst snd]. intros ->. unfold pull_request in Hrun.
  destruct (negb _ || _ || _ || _ || _ || _ || _);
    [cbn [interact] in Hrun; discriminate Hrun|].
  destruct (template [lit "Bearer "; val (field body "accessToken")])
    as [authorization|e]; [|discriminate Hrun].
  walk Hrun; try discriminate Hrun.
  cbn [interact] in Hrun. apply pair_equal_spec in Hrun as [_ <-].
  rewrite !app_nil_l in *. cbn [app] in *.
  split; [reflexivity|]. oks.
  intros i Hi.
  destruct i as [|[|[|[|[|i]]]]]; [| | | | |lia]; cbn [firstn];
    eexists; (split; [eassumption|assumption]).
Qed.

(** An answer that makes a step fail: a rejected [fetch], or a status
    outside 200-299, the 401 of the first step and the 409 of the second
    apart, which have answers of their own. *)
Definition broken (i : nat) (a : answer) : Prop :=
  match a with
  | Threw _ => True
  | Returned r =>
      ok r = false /\ ~ (i = 0 /\ status r = 401%N)
      /\ ~ (i = 1 /\ status r = 409%N)
  end.

(** A step that fails ends the sequence at once with the 500 of the
    [catch]: no later request is sent, and what the earlier steps created
    stays.  In particular a 401 is answered 401 only at the first step; at a
    later step it is answered 500. *)
Theorem failed_step_ends_sequence now body outside i :
  let run := interact (pull_request now body) outside [] in
  i < length (snd run) ->
  broken i (outside (firstn (S i) (snd run))) ->
  (exists e, fst run = Returned (failed e)) /\ length (snd run) = S i.
Proof.
  cbv zeta.
  destruct (interact (pull_request now body) outside []) as [out asked] eqn:Hrun.
  cbn [fst snd]. unfold pull_request in Hrun.
  destruct (negb _ || _ || _ || _ || _ || _ || _);
    [cbn [interact] in Hrun; ended Hrun; cbn [length]; lia|].
  destruct (template [lit "Bearer "; val (field body "accessToken")])
    as [authorization|e];
    [|cbn [interact] in Hrun; ended Hrun; cbn [length]; lia].
  walk Hrun; cbn [interact] in Hrun; ended Hrun;
    rewrite ?app_nil_l in *; cbn [app] in *; oks; cbn [length];
    intros Hi Hb.
  all: destruct i as [|[|[|[|[|i]]]]]; try lia; cbn [firstn] in Hb.
  all: try (split; [eexists; reflexivity|reflexivity]).
  all: match goal with
       | Ha : ?f ?l = _, Hb : broken _ (?f ?l) |- _ =>
           rewrite Ha in Hb; cbn [broken] in Hb;
           destruct Hb as (Hok & H401 & H409)
       end.
  all: try congruence.
  all: exfalso;
    first [ apply H401; split; [reflexivity|now apply N.eqb_eq]
          | apply H409; split; [reflexivity|now apply N.eqb_eq] ].
Qed.

(** ** What the sequence sends *)

Definition contents_of (owner repo path : jsstring) : jsstring :=
  api ++ owner ++ js "/" ++ repo ++ js "/contents/" ++ path.

Definition refs_of (owner repo : jsstring) : jsstring :=
  api ++ owner ++ js "/" ++ repo ++ js "/git/refs".



Section Flow.
Variables (now : N) (body : object) (outside : list request -> answer).
Variables accessToken owner repo path category : jsstring.
Hypothesis Ht : field body "accessToken" = JStr accessToken.
Hypothesis Ho : field body "owner" = JStr owner.
Hypothesis Hr : field body "repo" = JStr repo.
Hypothesis Hp : field body "filePath" = JStr path.
Hypothesis Hc : field body "category" = JStr category.

Let asked := snd (interact (pull_request now body) outside []).

Ltac start Hrun :=
  unfold pull_request in Hrun; rewrite Ht, Ho, Hr, Hp, Hc in Hrun;
  cbn [template lit val ToString bind] in Hrun;
  rewrite ?app_nil_r in Hrun;
  destruct (negb _ || _ || _ || _ || _ || _ || _) in Hrun;
    [cbn [interact] in Hrun|
     repeat (cbn [attempt interact bind] in Hrun;
             match type of Hrun with
             | interact (attempt (bind ?c _) _) _ _ = _ => destruct c eqn:?
             | interact (attempt ?c _) _ _ = _ => destruct c eqn:?
             | interact (if ?b then _ else _) _ _ = _ => destruct b eqn:?
             end);
     cbn [interact] in Hrun];
  apply pair_equal_spec in Hrun as [_ <-];
  rewrite ?app_nil_l in *; cbn [app] in *.


(** The second request creates the new branch at the commit that the first
    answer gave for [main]. *)
Theorem branch_cut_from_main qB :
  nth_error asked 1 = Some qB ->
  exists refResponse refData object sha,
    outside [mkRequest (ref_of owner repo (js "main")) (js "GET")
               (headers_for accessToken) None] = Returned refResponse /\
    json refResponse = Returned refData /\
    get refData (js "object") = Returned object /\
    get object (js "sha") = Returned sha /\
    qB = mkRequest (refs_of owner repo) (js "POST") (headers_for accessToken)
           (Some (JObj [ (js "ref", JStr (js "refs/heads/" ++ branch_of now));
                         (js "sha", sha) ])).
Proof.
  subst asked.
  destruct (interact (pull_request now body) outside []) as [out asked]
    eqn:Hrun.
  cbn [snd]. start Hrun; cbn [nth_error]; intros H; try discriminate H.
  all: apply (f_equal (fun o => match o with Some q => q | None => qB end))
         in H; subst qB.
  all: match goal with
       | Ha : ?f [_] = Returned ?r,
         Hj : (if negb (ok ?r) then _ else _) = Returned ?sha |- _ =>
           destruct (negb (ok r)); [discriminate Hj|];
           destruct (json r) as [refData|] eqn:Ej; cbn [bind] in Hj;
             [|discriminate Hj];
           destruct (get refData (js "object")) as [object|] eqn:Eo;
             cbn [bind] in Hj; [|discriminate Hj];
           exists r, refData, object, sha
       end.
  all: repeat split; assumption || reflexivity.
Qed.

(** The fourth request commits to the new branch: it puts the encoded code
    at the path that the third request read, with the blob identifier that
    the third answer gave, under the message "AIReviewMate: " followed by
    the category. *)
Theorem commit_targets_new_branch qD :
  nth_error asked 3 = Some qD ->
  exists fileResponse fileData fileSHA content,
    nth_error asked 2
    = Some (mkRequest (contents_of owner repo path) (js "GET")
              (headers_for accessToken) None) /\
    outside (firstn 3 asked) = Returned fileResponse /\
    json fileResponse = Returned fileData /\
    get fileData (js "sha") = Returned fileSHA /\
    toBase64 (field body "improvedCode") = Returned content /\
    qD = mkRequest (contents_of owner repo path) (js "PUT")
           (headers_for accessToken)
           (Some (JObj [ (js "message", JStr (js "AIReviewMate: " ++ category));
                         (js "content", JStr content);
                         (js "sha", fileSHA);
                         (js "branch", JStr (branch_of now)) ])).
Proof.
  subst asked.
  destruct (interact (pull_request now body) outside []) as [out asked]
    eqn:Hrun.
  cbn [snd]. start Hrun; cbn [nth_error firstn]; intros H;
    try discriminate H.
  all: apply (f_equal (fun o => match o with Some q => q | None => qD end))
         in H; subst qD.
  all: match goal with
       | Ha : ?f [_; _; _] = Returned ?r,
         Hj : (if negb (ok ?r) then _ else _) = Returned ?sha,
         Hb : toBase64 _ = Returned ?c |- _ =>
           destruct (negb (ok r)); [discriminate Hj|];
           destruct (json r) as [fileData|] eqn:Ej; cbn [bind] in Hj;
             [|discriminate Hj];
           exists r, fileData, sha, c
       end.
  all: repeat split; assumption || reflexivity.
Qed.

End Flow.

End Outcomes.

(** ** GET /repos *)

(** [array.map(f)] where [f] may throw: the elements in order, up to the
    first that throws. *)
Fixpoint mapM {A B} (f : A -> result B) (l : list A) : result (list B) :=
  match l with
  | [] => Returned []
  | x :: rest => y <- f x ;; ys <- mapM f rest ;; Returned (y :: ys)
  end.

(** [v.map(f)] as a method call: only arrays have the method among the
    values of [JSON.parse]. *)
Definition call_map (v : JsVal) (f : JsVal -> result JsVal) : result JsVal :=
  match v with
  | JArr l => l' <- mapM f l ;; Returned (JArr l')
  | JUndefined => Threw (TypeError (cannot_read (js "undefined") (js "map")))
  | JNull => Threw (TypeError (cannot_read (js "null") (js "map")))
  | _ => Threw (TypeError (js "reposData.map is not a function"))
  end.

(** Lines 182-188: the entry of the answer for a repository of GitHub. *)
Definition formatRepo (repo : JsVal) : result JsVal :=
  name <- get repo (js "name") ;;
  full_name <- get repo (js "full_name") ;;
  owner <- get repo (js "owner") ;;
  login <- get owner (js "login") ;;
  default_branch <- get repo (js "default_branch") ;;
  html_url <- get repo (js "html_url") ;;
  Returned (JObj [ (js "name", name);
                   (js "full_name", full_name);
                   (js "owner", login);
                   (js "default_branch", default_branch);
                   (js "url", html_url) ]).

Definition missing_token : response :=
  Json 401 (JObj [ (js "error", JStr (js "Missing access token"));
                   (js "message",
                     JStr (js "Authorization header with Bearer token is required")) ]).

(** Lines 191-196: the [catch]. *)
Definition repos_failed (e : error) : response :=
  Json 500 (JObj [ (js "error", JStr (js "Failed to fetch repositories"));
                   (js "message", match message e with
                                  | Some m => JStr m
                                  | None => JUndefined
                                  end) ]).

(** Lines 159-166 *)
Definition list_repos (accessToken : jsstring) : request :=
  mkRequest (js "https://api.github.com/user/repos") (js "GET")
    [ (js "Authorization", js "Bearer " ++ accessToken);
      (js "Accept", js "application/vnd.github+json");
      (js "User-Agent", js "AIReviewMate") ]
    None.

(** Lines 168-190: the body of the [try] once [fetch] has settled. *)
Definition listed (a : answer) : result response :=
  reposResponse <- a ;;
  if (status reposResponse =? 401)%N then Returned expired_token
  else if negb (ok reposResponse) then
    Threw (Error (js "GitHub API responded with status "
                  ++ decimal (status reposResponse)))
  else
    reposData <- json reposResponse ;;
    repos <- call_map reposData formatRepo ;;
    Returned (Json 200 (JObj [ (js "repos", repos) ])).

(** The handler, given [req.headers.authorization]. *)
Definition repos (authHeader : option jsstring)
  : Prog request answer response :=
  match authHeader with
  | None => Ret missing_token
  | Some authHeader =>
      if match authHeader with [] => true | _ => false end
         || negb (startsWith (js "Bearer ") authHeader)
      then Ret missing_token
      else
        let accessToken := skipn 7 authHeader in
        Ask (list_repos accessToken)
          (fun a => Ret match listed a with
                        | Returned sent => sent
                        | Threw e => repos_failed e
                        end)
  end.

(** The header carries a bearer token. *)
Definition bearer (authHeader : option jsstring) : bool :=
  match authHeader with
  | Some h => startsWith (js "Bearer ") h
  | None => false
  end.

(** Without an authorization header that starts with "Bearer ", the answer
    is 401 "Missing access token" and GitHub is not asked. *)
Theorem repos_requires_bearer authHeader outside :
  bearer authHeader = false ->
  interact (repos authHeader) outside [] = (missing_token, []).
Proof.
  destruct authHeader as [h|]; [|reflexivity]. cbn [bearer repos].
  intros ->. now rewrite orb_true_r.
Qed.

Lemma bearer_split h :
  startsWith (js "Bearer ") h = true -> h = js "Bearer " ++ skipn 7 h.
Proof.
  intros H. apply startsWith_spec in H as [t ->]. reflexivity.
Qed.

(** With a bearer token, one request is made, and the authorization it
    carries is the header that came in. *)
Theorem repos_forwards_header h outside :
  bearer (Some h) = true ->
  snd (interact (repos (Some h)) outside [])
  = [ mkRequest (js "https://api.github.com/user/repos") (js "GET")
        [ (js "Authorization", h);
          (js "Accept", js "application/vnd.github+json");
          (js "User-Agent", js "AIReviewMate") ]
        None ].
Proof.
  cbn [bearer repos]. intros H. rewrite H.
  assert (Hne : match h with [] => true | _ => false end = false).
  { apply startsWith_spec in H as [t ->]. reflexivity. }
  rewrite Hne. cbn [orb negb interact snd app]. unfold list_repos.
  now rewrite <- (bearer_split h H).
Qed.

Lemma mapM_each {A B} (f : A -> result B) l l' :
  mapM f l = Returned l' -> Forall2 (fun x y => f x = Returned y) l l'.
Proof.
  revert l'. induction l as [|x l IH]; intros l' H; cbn [mapM] in H.
  - injection H as <-. constructor.
  - destruct (f x) as [y|] eqn:Ey; cbn [bind] in H; [|discriminate].
    destruct (mapM f l) as [ys|]; cbn [bind] in H; [|discriminate].
    injection H as <-. constructor; [assumption|now apply IH].
Qed.

Lemma mapM_throws {A B} (f : A -> result B) l x e :
  In x l -> f x = Threw e -> exists e', mapM f l = Threw e'.
Proof.
  intros Hin Hx. induction l as [|y l IH]; [contradiction|].
  cbn [mapM]. destruct Hin as [->|Hin].
  - rewrite Hx. now exists e.
  - destruct (f y); cbn [bind]; [|now eexists].
    destruct (IH Hin) as [e' ->]. now exists e'.
Qed.

(** A 200 answer lists the repositories that GitHub returned, one entry for
    each, in the same order. *)
Theorem repos_lists_every_repository authHeader outside body :
  fst (interact (repos authHeader) outside []) = Json 200 body ->
  exists h r given listing,
    authHeader = Some h /\
    outside [list_repos (skipn 7 h)] = Returned r /\
    ok r = true /\
    json r = Returned (JArr given) /\
    body = JObj [ (js "repos", JArr listing) ] /\
    Forall2 (fun repo entry => formatRepo repo = Returned entry) given listing.
Proof.
  destruct authHeader as [h|]; [|discriminate]. cbn [repos].
  destruct (_ || _); [discriminate|]. cbn [interact fst app].
  destruct (outside _) as [r|e] eqn:Ea; [|discriminate]. cbn [listed bind].
  destruct (status r =? 401)%N; [discriminate|].
  destruct (ok r) eqn:Eok; [|discriminate]. cbn [negb].
  destruct (json r) as [reposData|] eqn:Ej; [|discriminate]. cbn [bind].
  destruct reposData as [| | | | |l|]; try discriminate. cbn [call_map].
  destruct (mapM formatRepo l) as [l'|] eqn:El; [|discriminate].
  cbn [bind]. intros H. injection H as <-.
  exists h, r, l, l'. repeat split; try reflexivity; try assumption.
  now apply mapM_each.
Qed.

(** An entry that is [null], or whose owner is absent or [null]. *)
Definition ownerless (repo : JsVal) : Prop :=
  repo = JNull \/
  get repo (js "owner") = Returned JUndefined \/
  get repo (js "owner") = Returned JNull.

(** One such entry fails the whole listing: the answer is the 500 of the
    [catch], and no repository is listed. *)
Theorem repos_entry_without_owner h outside r given repo :
  bearer (Some h) = true ->
  outside [list_repos (skipn 7 h)] = Returned r ->
  ok r = true ->
  json r = Returned (JArr given) ->
  In repo given -> ownerless repo ->
  exists e, fst (interact (repos (Some h)) outside []) = repos_failed e.
Proof.
  intros Hb Ha Hok Hj Hin Hrepo. cbn [bearer] in Hb. cbn [repos].
  rewrite Hb.
  assert (Hne : match h with [] => true | _ => false end = false).
  { apply startsWith_spec in Hb as [t ->]. reflexivity. }
  rewrite Hne. cbn [orb negb interact fst app]. rewrite Ha.
  cbn [listed bind].
  assert (H401 : (status r =? 401)%N = false).
  { unfold ok in Hok. apply andb_true_iff in Hok as [_ H].
    apply N.leb_le in H. apply N.eqb_neq. lia. }
  rewrite H401, Hok, Hj. cbn [negb bind call_map].
  assert (Hthrow : exists e, formatRepo repo = Threw e).
  { unfold formatRepo. destruct Hrepo as [->|[H|H]].
    - cbn [get bind]. now eexists.
    - destruct (get repo (js "name")); cbn [bind]; [|now eexists].
      destruct (get repo (js "full_name")); cbn [bind]; [|now eexists].
      rewrite H. cbn [get bind]. now eexists.
    - destruct (get repo (js "name")); cbn [bind]; [|now eexists].
      destruct (get repo (js "full_name")); cbn [bind]; [|now eexists].
      rewrite H. cbn [get bind]. now eexists. }
  destruct Hthrow as [e He].
  destruct (mapM_throws formatRepo given repo Hin He) as [e' ->].
  cbn [bind]. now exists e'.
Qed.

(** Whatever happens, the answer is 200, 401 or 500, and at most one request
    is made. *)
Theorem repos_outcomes authHeader outside :
  let run := interact (repos authHeader) outside [] in
  length (snd run) <= 1 /\
  (fst run = missing_token \/ fst run = expired_token \/
   (exists e, fst run = repos_failed e) \/
   exists listing, fst run = Json 200 (JObj [ (js "repos", JArr listing) ])).
Proof.
  cbv zeta. destruct authHeader as [h|]; [|cbn; auto]. cbn [repos].
  destruct (_ || _); [cbn; auto|]. cbn [interact fst snd app length].
  split; [lia|].
  destruct (outside _) as [r|e]; cbn [listed bind]; [|right; right; left; eauto].
  destruct (status r =? 401)%N; [auto|].
  destruct (negb (ok r)); [right; right; left; eauto|].
  destruct (json r) as [reposData|]; cbn [bind];
    [|right; right; left; eauto].
  destruct reposData as [| | | | |l|]; cbn [call_map bind];
    try (right; right; left; eauto; fail).
  destruct (mapM formatRepo l) as [l'|]; cbn [bind];
    [right; right; right; eauto|right; right; left; eauto].
Qed.

(** ** What the callback tells about a refused exchange *)

Section Refused.
Context {rt : Runtime}.
Variable env : Env.

(** Lines 106-113: the message for a failure that GitHub describes as
    [d]. *)
Definition described (d : jsstring) : jsstring :=
  if includes (js "client_id") d || includes (js "client_secret") d
  then oauth_configuration_error
  else if includes (js "redirect_uri") d then oauth_redirect_mismatch
  else js "GitHub OAuth failed: " ++ d.

(** When the exchange is answered with an error, or without a token, and a
    description [d], the user is sent back with a message and never with a
    token, even if the answer carries one: the message is GitHub's
    description after "GitHub OAuth failed: ", unless the description names
    [client_id], [client_secret] or [redirect_uri], for which the callback
    has messages of its own. *)
Theorem callback_reports_refusal code outside r o d enc :
  truthy code = true ->
  unset (GITHUB_CLIENT_ID env) || unset (GITHUB_CLIENT_SECRET env) = false ->
  outside [exchange env code] = Returned r ->
  ok r = true ->
  json r = Returned (JObj o) ->
  truthy (lookup o (js "error")) = true
  \/ truthy (lookup o (js "access_token")) = false ->
  lookup o (js "error_description") = JStr d -> d <> [] ->
  encodeURIComponent (described d) = Returned enc ->
  fst (interact (callback env code) outside [])
  = Returned (Redirect (frontendUrl env ++ js "#error=" ++ enc)).
Proof.
  intros Hc Hs Ha Hok Hj He Hd Hne Henc. unfold callback.
  rewrite Hc, Hs. cbn [negb interact fst app]. rewrite Ha.
  unfold exchanged. cbn [bind]. rewrite Hok, Hj. cbn [negb bind get].
  assert (Hcond : truthy (lookup o (js "error"))
                  || negb (truthy (lookup o (js "access_token"))) = true).
  { destruct He as [-> | ->]; [reflexivity|apply orb_true_r]. }
  rewrite Hcond, Hd. cbn [bind].
  assert (Hor : forall v, js_or (JStr d) v = JStr d).
  { intros v. unfold js_or. destruct d; [contradiction|reflexivity]. }
  rewrite Hor. cbn [call_includes bind]. unfold described in Henc.
  destruct (includes (js "client_id") d); cbn [orb bind] in *.
  { unfold redirect_error. rewrite Henc. reflexivity. }
  destruct (includes (js "client_secret") d); cbn [bind] in *.
  { unfold redirect_error. rewrite Henc. reflexivity. }
  destruct (includes (js "redirect_uri") d); cbn [bind ToString] in *.
  { unfold redirect_error. rewrite Henc. reflexivity. }
  unfold redirect_error. rewrite Henc. reflexivity.
Qed.

End Refused.

End Github.

(* ================================================================== *)
(** * A runtime to run examples with *)

(** An instance of [Runtime] for the closed examples below.  It reads and
    prints decimal literals exactly, which is what the engine does whenever
    the value is a binary64 number with a short decimal form, as are all the
    numbers in the examples; [toBase64] covers strings. *)
Module Reference.
Import Regex Json.

Fixpoint digits_value (ds : jsstring) (acc : N) : N :=
  match ds with
  | [] => acc
  | d :: t => digits_value t (acc * 10 + (d - 48))%N
  end.

(** The value [m * 10^e]. *)
Definition scaled (m : N) (e : Z) : Q :=
  if (0 <=? e)%Z then inject_Z (Z.of_N m * 10 ^ e)
  else Qred (Qmake (Z.of_N m) (Z.to_pos (10 ^ (- e)))).

(** The longest decimal literal at the head of [s], and what follows. *)
Definition decimal_literal (s : jsstring) : option (Q * jsstring) :=
  let ip := run is_digit s in
  let r1 := after is_digit s in
  let '(fp, r2) :=
    match r1 with
    | c :: t =>
        if (c =? 46)%N then
          match ip, run is_digit t with
          | [], [] => ([], r1)
          | _, ds => (ds, after is_digit t)
          end
        else ([], r1)
    | [] => ([], r1)
    end in
  match ip ++ fp with
  | [] => None
  | ds =>
      let '(ex, r3) :=
        match lex_exp r2 with
        | Some (c :: tok, r) =>
            match tok with
            | sg :: ds' =>
                if (sg =? 45)%N then ((- Z.of_N (digits_value ds' 0))%Z, r)
                else if (sg =? 43)%N then (Z.of_N (digits_value ds' 0), r)
                else (Z.of_N (digits_value tok 0), r)
            | [] => (0%Z, r2)
            end
        | _ => (0%Z, r2)
        end in
      Some (scaled (digits_value ds 0) (ex - Z.of_nat (length fp)), r3)
  end.

Definition signed (s : jsstring) : bool * jsstring :=
  match s with
  | c :: t =>
      if (c =? 45)%N then (true, t)
      else if (c =? 43)%N then (false, t) else (false, s)
  | [] => (false, s)
  end.

Definition negate (neg : bool) (q : Q) : Q := if neg then Qopp q else q.

Definition ref_StringToNumber (s : jsstring) : number :=
  match trim s with
  | [] => num 0
  | t =>
      let '(neg, u) := signed t in
      if Str.eqb u (js "Infinity") then Inf neg
      else
        match decimal_literal u with
        | Some (q, []) => Fin (negate neg q)
        | _ => NaN
        end
  end.

Definition ref_parseFloat (s : jsstring) : number :=
  let '(neg, u) := signed (trimStart s) in
  if startsWith (js "Infinity") u then Inf neg
  else
    match decimal_literal u with
    | Some (q, _) => Fin (negate neg q)
    | None => NaN
    end.

Fixpoint fraction_digits (fuel : nat) (r d : N) : jsstring :=
  match fuel with
  | O => []
  | S f =>
      if (r =? 0)%N then []
      else (48 + (r * 10) / d)%N :: fraction_digits f ((r * 10) mod d)%N d
  end.

Definition ref_NumberToString (n : number) : jsstring :=
  match n with
  | NaN => js "NaN"
  | Inf false => js "Infinity"
  | Inf true => js "-Infinity"
  | Fin q =>
      let q' := Qred q in
      let a := Z.to_N (Z.abs (Qnum q')) in
      let d := Npos (Qden q') in
      (if is_neg q' then js "-" else [])
      ++ decimal (a / d)
      ++ (if (a mod d =? 0)%N then []
          else js "." ++ fraction_digits 20 (a mod d) d)
  end.

(** UTF-8 octets of a string; an unpaired surrogate becomes U+FFFD. *)
Definition octets (cp : N) : list N :=
  (if cp <? 128 then [cp]
   else if cp <? 2048 then [192 + cp / 64; 128 + cp mod 64]
   else if cp <? 65536 then
     [224 + cp / 4096; 128 + (cp / 64) mod 64; 128 + cp mod 64]
   else [240 + cp / 262144; 128 + (cp / 4096) mod 64;
         128 + (cp / 64) mod 64; 128 + cp mod 64])%N.

Fixpoint utf8_octets (s : jsstring) : list N :=
  match s with
  | [] => []
  | c :: t =>
      if Uri.high_surrogate c then
        match t with
        | d :: t' =>
            if Uri.low_surrogate d
            then octets (65536 + (c - 55296) * 1024 + (d - 56320))%N
                 ++ utf8_octets t'
            else octets 65533 ++ utf8_octets t
        | [] => octets 65533
        end
      else if Uri.low_surrogate c then octets 65533 ++ utf8_octets t
      else octets c ++ utf8_octets t
  end.

Definition sextet (v : N) : N :=
  (if v <? 26 then 65 + v
   else if v <? 52 then 71 + v
   else if v <? 62 then v - 4
   else if v =? 62 then 43 else 47)%N.

Fixpoint base64 (bytes : list N) : jsstring :=
  match bytes with
  | [] => []
  | [a] => [sextet (a / 4); sextet ((a mod 4) * 16); 61; 61]%N
  | [a; b] =>
      [sextet (a / 4); sextet ((a mod 4) * 16 + b / 16);
       sextet ((b mod 16) * 4); 61]%N
  | a :: b :: c :: t =>
      [sextet (a / 4); sextet ((a mod 4) * 16 + b / 16);
       sextet ((b mod 16) * 4 + c / 64); sextet (c mod 64)]%N ++ base64 t
  end.

Definition ref_toBase64 (v : JsVal) : result jsstring :=
  match v with
  | JStr s => Returned (base64 (utf8_octets s))
  | _ => Threw (TypeError (js "The first argument must be of type string or an instance of Buffer, ArrayBuffer, or Array or an Array-like Object."))
  end.

Definition runtime : Runtime := {|
  StringToNumber := ref_StringToNumber;
  NumberToString := ref_NumberToString;
  parseFloat := ref_parseFloat;
  toBase64 := ref_toBase64
|}.

End Reference.

(* ================================================================== *)
(** * The review pipeline: the route with [reviewCode] as its AI client *)

Module Pipeline.

(** Sequencing, and answering the questions of one computation by
    another. *)
Fixpoint pbind {Q A R S} (p : Prog Q A R) (k : R -> Prog Q A S)
  : Prog Q A S :=
  match p with
  | Ret r => k r
  | Ask q c => Ask q (fun a => pbind (c a) k)
  end.

Fixpoint link {Q A R Q' A'} (p : Prog Q A R) (impl : Q -> Prog Q' A' A)
  : Prog Q' A' R :=
  match p with
  | Ret r => Ret r
  | Ask q k => pbind (impl q) (fun a => link (k a) impl)
  end.

Section Serve.
Context {rt : Runtime}.
Variable env : Env.

(** POST /api/review, down to the call of the provider. *)
Definition serve (body : object)
  : Prog Gemini.prompt (result jsstring) response :=
  link (Review.handler body)
       (fun c => Gemini.reviewCode env (Review.call_code c)
                   (Review.call_language c)).

(** The response when the provider answers [a] to whatever it is asked. *)
Definition served (body : object) (a : result jsstring) : response :=
  fst (interact (serve body) (fun _ => a) []).

End Serve.

(** The shape the specification gives to a review result. *)
Definition ReviewResult (v : JsVal) : Prop :=
  exists o,
    v = JObj o /\
    isArray (field o "errors") = true /\
    isArray (field o "warnings") = true /\
    isArray (field o "suggestions") = true /\
    isArray (field o "changes") = true /\
    field o "updatedCode" <> JUndefined /\
    (exists n, field o "curseLevel" = JNum n /\ level n) /\
    (exists s, field o "verdict" = JStr s /\ s <> []).

(** The level the specification derives from the counts of errors and
    warnings. *)
Definition curse_formula (errors warnings : nat) : number :=
  Math_min (num 100)
    (add (mul (count errors) (num 30)) (mul (count warnings) (num 10))).

Lemma curse_formula_value e w :
  curse_formula e w = num (Z.min 100 (Z.of_nat e * 30 + Z.of_nat w * 10)).
Proof.
  unfold curse_formula. now rewrite !mul_count, add_num, Math_min_num.
Qed.

Lemma curse_formula_level e w : level (curse_formula e w).
Proof.
  rewrite curse_formula_value.
  exists (Z.min 100 (Z.of_nat e * 30 + Z.of_nat w * 10))%Z.
  split; [lia|reflexivity].
Qed.

(** ** Two answers of the provider *)

Definition configured : Env := {|
  GEMINI_API_KEY := Some (js "AIza-example");
  GEMINI_MODEL := None;
  CLIENT_URL := None;
  GITHUB_CLIENT_ID := Some (js "Iv1.example");
  GITHUB_CLIENT_SECRET := Some (js "secret")
|}.

Definition request_body : object :=
  [ (js "code", JStr (js "print(1)")); (js "language", JStr (js "python")) ].

(** [{"errors":{"length":{}}}] *)
Definition length_object : jsstring := jsq "{'errors':{'length':{}}}".

(** [{"errors":"abc"}] *)
Definition errors_text : jsstring := jsq "{'errors':'abc'}".

(** C1 (the code breaks the claim): when the provider answers
    [{"errors":{"length":{}}}], the error count is read from the [length]
    property before [errors] is replaced by a list; it is an object, the
    product is NaN, the clamp leaves NaN, and the route keeps it because its
    type is number.  The response is a 200 whose [curseLevel] is NaN, so the
    body is not a review result as the specification describes it. *)
Theorem curse_level_escapes_clamp :
  exists o,
    served (rt := Reference.runtime) configured request_body
      (Returned length_object) = Json 200 (JObj o) /\
    field o "curseLevel" = JNum NaN /\
    ~ ReviewResult (JObj o).
Proof.
  eexists. split; [vm_compute; reflexivity|]. split; [reflexivity|].
  intros (o & Ho & _ & _ & _ & _ & _ & (n & Hn & Hl) & _).
  injection Ho as <-. vm_compute in Hn. injection Hn as <-.
  now apply level_not_NaN in Hl.
Qed.

(** C3 (the code breaks the claim): when the provider answers
    [{"errors":"abc"}], without a [curseLevel], the result has no errors and
    no warnings, for which the formula gives 0, but its [curseLevel] is 90:
    the count was taken from the length of the string before [errors] was
    replaced by the empty list. *)
Theorem curse_level_counts_non_list :
  exists o,
    Gemini.review (rt := Reference.runtime) configured (Returned errors_text)
      = Returned (JObj o) /\
    field o "errors" = JArr [] /\
    field o "warnings" = JArr [] /\
    field o "curseLevel" = JNum (num 90) /\
    curse_formula 0 0 = num 0.
Proof.
  eexists. split; [vm_compute; reflexivity|].
  repeat split; reflexivity.
Qed.

(** An answer of the provider without any JSON in it. *)
Definition refusal : jsstring := js "I cannot review this.".

Lemma unparsable_never_returns_witness :
  fst (interact (Gemini.reviewCode (rt := Reference.runtime) configured
                   (js "print(1)") (js "python"))
         (fun _ => Returned refusal) [])
    = Threw Gemini.MalformedResponseError /\
  Gemini.parseResponse (rt := Reference.runtime) refusal
    <> Returned Gemini.fallback.
Proof.
  apply (Gemini.unparsable_never_returns (rt := Reference.runtime) configured
           (js "print(1)") (js "python") (fun _ => Returned refusal)
           (text := refusal)).
  - reflexivity.
  - reflexivity.
  - intros v. vm_compute. discriminate.
Defined.

(** ** A failure of the provider *)

(** C8 (as stated, refuted): the provider fails with the message "server
    overwhelmed"; [reviewCode] rethrows it as "The Reaper could not be
    summoned: server overwhelmed", which contains "overwhelmed", and the
    route answers 500, not 429, because the test for the credential comes
    first. *)
Lemma overwhelmed_answers_500 :
  let thrown :=
    Error (js "The Reaper could not be summoned: server overwhelmed") in
  Gemini.review (rt := Reference.runtime) configured
    (Threw (Error (js "server overwhelmed"))) = Threw thrown /\
  Review.mentions thrown "overwhelmed" = true /\
  served (rt := Reference.runtime) configured request_body
    (Threw (Error (js "server overwhelmed")))
    = Json 500 (Review.error_body
                  (js "The Reaper could not be summoned: server overwhelmed")).
Proof. cbv zeta. repeat split; vm_compute; reflexivity. Qed.

(** ** Every 200 response *)

Section Every200.
Context {rt : Runtime}.
Variable env : Env.


End Every200.

(** ** The level derived from lists *)

(** The value is a list of [n] entries, or is falsy (absent, [null], ...)
    and [n] is 0. *)
Definition entries (v : JsVal) (n : nat) : Prop :=
  (exists l, v = JArr l /\ length l = n) \/ (truthy v = false /\ n = 0).

Lemma count_or_zero n : js_or (JNum (count n)) (JNum (num 0)) = JNum (count n).
Proof. now destruct n. Qed.

Section Formula.
Context {rt : Runtime}.

Lemma defaulted v n (c : bool) :
  entries v n -> (truthy v = false -> c = true) ->
  exists l,
    (if c then js_or v (JArr []) else v) = JArr l /\ length l = n.
Proof.
  intros [(l & -> & Hl)|[Hv ->]] Hc.
  - exists l. now destruct c.
  - exists []. rewrite (Hc Hv). unfold js_or. now rewrite Hv.
Qed.

(** When the parsed object has no numeric [curseLevel] and its errors and
    warnings are lists or absent, the result's [curseLevel] is
    [min(100, errors * 30 + warnings * 10)] for the numbers of entries in
    the result. *)
Theorem level_from_lists o e w :
  is_number (field o "curseLevel") = false ->
  entries (field o "errors") e ->
  entries (field o "warnings") w ->
  exists o' le lw,
    Gemini.postProcess o = Returned (JObj o') /\
    field o' "curseLevel" = JNum (curse_formula e w) /\
    level (curse_formula e w) /\
    field o' "errors" = JArr le /\ length le = e /\
    field o' "warnings" = JArr lw /\ length lw = w.
Proof.
  intros Hn He Hw. unfold Gemini.postProcess. cbv zeta.
  set (c := negb (truthy (field o "errors"))
            || negb (truthy (field o "warnings"))
            || negb (truthy (field o "suggestions"))).
  destruct (@defaulted (field o "errors") e c He) as (le & Ele & Hle).
  { intros H. subst c. now rewrite H. }
  destruct (@defaulted (field o "warnings") w c Hw) as (lw & Elw & Hlw).
  { intros H. subst c. rewrite H. cbn [negb]. now rewrite orb_true_r. }
  match goal with
  | |- context [set ?p "updatedCode" _] => set (p1 := p)
  end.
  assert (H1 : field p1 "errors" = JArr le /\ field p1 "warnings" = JArr lw
               /\ field p1 "curseLevel" = field o "curseLevel").
  { subst p1. destruct c.
    - Gemini.fields. now rewrite Ele, Elw.
    - now rewrite Ele, Elw. }
  destruct H1 as (E1 & W1 & C1). clearbody p1. clear Ele Elw c.
  set (p2 := set (set p1 "updatedCode" _) "changes" _).
  assert (H2 : field p2 "errors" = JArr le /\ field p2 "warnings" = JArr lw
               /\ field p2 "curseLevel" = field o "curseLevel").
  { subst p2. now Gemini.fields. }
  destruct H2 as (E2 & W2 & C2). clearbody p2. clear E1 W1 C1 p1.
  rewrite C2, Hn, E2, W2. cbn [negb length_opt].
  rewrite !count_or_zero. unfold js_mul. cbn [ToNumber bind].
  rewrite Hle, Hlw. fold (curse_formula e w).
  match goal with
  | |- context [set ?p "errors" _] => set (pv := p)
  end.
  assert (Hv : field pv "errors" = JArr le /\ field pv "warnings" = JArr lw
               /\ field pv "curseLevel" = JNum (curse_formula e w)).
  { subst pv. Gemini.fields.
    destruct (negb _ || negb _); Gemini.fields; now rewrite E2, W2. }
  destruct Hv as (Ev & Wv & Cv). clearbody pv.
  Gemini.fields. rewrite Ev, Wv, Cv. cbn [isArray ToNumber bind].
  rewrite (clamp_level (curse_formula_level e w)).
  eexists _, le, lw. split; [reflexivity|].
  Gemini.fields.
  repeat split; try assumption. apply curse_formula_level.
Qed.

End Formula.

(** ** A quota failure of the provider *)

Section Quota.
Context {rt : Runtime}.
Variable env : Env.


End Quota.

(** A quota failure as the provider words it. *)
Definition quota_failure : jsstring :=
  js "[429 Too Many Requests] You exceeded your current quota. Please retry in 12.5s.".


(** ** A well-formed answer of the provider *)

(** A fenced answer with one error and a level above the range. *)
Definition sound_answer : jsstring :=
  jsq "```json {'errors':[{'line':1,'message':'Unused variable'}],'warnings':[],'suggestions':[],'verdict':'Doomed.','curseLevel':130} ```".



(** An object with two errors, one warning and no level. *)
Definition two_and_one : object :=
  [ (js "errors", JArr [JObj []; JObj []]); (js "warnings", JArr [JObj []]) ].

Lemma level_from_lists_witness :
  exists o' le lw,
    Gemini.postProcess (rt := Reference.runtime) two_and_one
      = Returned (JObj o') /\
    field o' "curseLevel" = JNum (curse_formula 2 1) /\
    level (curse_formula 2 1) /\
    field o' "errors" = JArr le /\ length le = 2 /\
    field o' "warnings" = JArr lw /\ length lw = 1.
Proof.
  apply (level_from_lists (rt := Reference.runtime) two_and_one).
  - reflexivity.
  - left. now exists [JObj []; JObj []].
  - left. now exists [JObj []].
Defined.

(** ** Where the failures come from *)

Section Failures.
Context {rt : Runtime}.
Variable env : Env.

Definition unprintable : error :=
  TypeError (js "Cannot convert object to primitive value").

Lemma ToNumber_error v e : ToNumber v = Threw e -> e = unprintable.
Proof.
  destruct v as [| |b|n|s|l|o]; cbn [ToNumber]; try discriminate.
  - destruct b; discriminate.
  - destruct (ToString (JArr l)) eqn:E; cbn [bind]; [discriminate|].
    intros H. injection H as <-. now apply ToString_error in E.
  - destruct (ToString (JObj o)) eqn:E; cbn [bind]; [discriminate|].
    intros H. injection H as <-. now apply ToString_error in E.
Qed.

(** The post-processing throws only when a count or a level is an object
    that cannot be converted to a number. *)
Lemma postProcess_throws o e :
  Gemini.postProcess o = Threw e -> e = unprintable.
Proof.
  unfold Gemini.postProcess. cbv zeta.
  match goal with
  | |- (bind ?c _ = _) -> _ => destruct c as [p3|e3] eqn:E3
  end; cbn [bind].
  - destruct (ToNumber _) as [x|ex] eqn:Ex; cbn [bind]; [discriminate|].
    intros H. injection H as <-. now apply ToNumber_error in Ex.
  - intros H. injection H as <-.
    destruct (negb (is_number _)); [|discriminate].
    unfold js_mul in E3.
    destruct (ToNumber _) as [a|ea] eqn:Ea in E3; cbn [bind] in E3.
    + destruct (ToNumber _) as [b|eb] eqn:Eb in E3; cbn [bind] in E3;
        [discriminate|].
      injection E3 as <-. now apply ToNumber_error in Eb.
    + injection E3 as <-. now apply ToNumber_error in Ea.
Qed.

(** What [reviewCode] throws once the provider has answered. *)
Lemma review_text_failure text e :
  Gemini.review env (Returned text) = Threw e ->
  e = Gemini.MalformedResponseError \/
  e = Error (js "The Reaper could not be summoned: "
             ++ js "Cannot convert object to primitive value").
Proof.
  unfold Gemini.review. cbn [bind].
  destruct (Gemini.parseResponse text) as [v|e0] eqn:Ep; cbn [bind].
  - unfold Gemini.parseResponse in Ep.
    destruct (Extract.extractJson text) as [s|] eqn:Es; cbn [bind try_catch] in Ep;
      [|discriminate].
    destruct (Json.JSON_parse s) as [v'|] eqn:Ej; cbn [try_catch] in Ep;
      [|discriminate].
    injection Ep as ->.
    destruct (Gemini.parsed_is_object _ Es Ej) as [o ->].
    cbn [Gemini.postProcessValue].
    destruct (Gemini.postProcess o) as [r|e1] eqn:E1; cbn [try_catch];
      [discriminate|].
    apply postProcess_throws in E1. subst e1.
    intros H. injection H as <-. right. reflexivity.
  - cbn [try_catch]. intros H. injection H as <-.
    unfold Gemini.parseResponse in Ep.
    destruct (bind _ _) in Ep; cbn [try_catch] in Ep; [discriminate|].
    injection Ep as <-. left. reflexivity.
Qed.


(** The provider's failure speaks of a quota or of a rate limit. *)
Definition throttled (e : error) : bool :=
  Gemini.mentions e "quota" || Gemini.mentions e "429"
  || Gemini.mentions e "Too Many Requests"
  || Gemini.mentions e "RESOURCE_EXHAUSTED"
  || Gemini.mentions e "rate limit" || Gemini.mentions e "RATE_LIMIT_EXCEEDED".

(** It speaks of the credential. *)
Definition keyed (e : error) : bool :=
  Gemini.mentions e "API key" || Gemini.mentions e "GEMINI_API_KEY"
  || Gemini.mentions e "API_KEY_NOT_VALID".

Lemma summoned_is_500 m :
  Review.handleError
    (Error (js "The Reaper could not be summoned: " ++ m))
  = Json 500 (Review.error_body (js "The Reaper could not be summoned: " ++ m)).
Proof.
  unfold Review.handleError.
  assert (H : Review.mentions
                (Error (js "The Reaper could not be summoned: " ++ m))
                "Reaper could not be summoned" = true).
  { unfold Review.mentions. cbn [message Error].
    apply includes_app_l. vm_compute. reflexivity. }
  rewrite H, orb_true_r. reflexivity.
Qed.

Lemma unavailable_is_500 model :
  exists b,
    Review.handleError
      (Error (jsq "The Gemini model '" ++ model
              ++ jsq "' is not available for your API key. Please check your API key permissions and ensure gemini-2.0-flash is available."))
    = Json 500 b.
Proof.
  unfold Review.handleError.
  match goal with
  | |- context [Review.mentions ?e "API key"] =>
      assert (H : Review.mentions e "API key" = true)
  end.
  { unfold Review.mentions. cbn [message Error].
    apply includes_app_r, includes_app_r. vm_compute. reflexivity. }
  rewrite H. cbn [orb]. eexists. reflexivity.
Qed.

(** POST /api/review answers 429 only when the call to the provider itself
    failed, with a message that speaks of a quota or a rate limit and not of
    the credential.  No answer of the provider, however malformed, and no
    missing configuration gives a 429. *)
Theorem too_many_requests_origin body a b :
  served env body a = Json 429 b ->
  exists e m,
    a = Threw e /\ message e = Some m /\
    throttled e = true /\ keyed e = false.
Proof.
  unfold served, serve. rewrite Review.handler_cases.
  destruct (Review.code_rejected _); [discriminate|].
  destruct (Review.language_rejected _); [discriminate|].
  destruct (Review.too_long _); [discriminate|].
  cbn [link]. unfold Gemini.reviewCode.
  destruct (Gemini.key_missing env);
    [cbn [pbind link interact fst Review.reply]; discriminate|].
  cbn [pbind link interact fst].
  destruct (Gemini.review env a) as [v|e] eqn:Er; cbn [Review.reply].
  { destruct v; cbn [Review.respond]; discriminate. }
  destruct a as [text|e0].
  { apply review_text_failure in Er as [->| ->].
    - unfold Gemini.MalformedResponseError. now rewrite summoned_is_500.
    - now rewrite summoned_is_500. }
  unfold Gemini.review in Er. cbn [bind try_catch] in Er.
  injection Er as <-. unfold Gemini.mapError.
  fold (keyed e0). destruct (keyed e0) eqn:Ek; [discriminate|].
  destruct (Gemini.mentions e0 "quota" || Gemini.mentions e0 "429"
            || Gemini.mentions e0 "Too Many Requests"
            || Gemini.mentions e0 "RESOURCE_EXHAUSTED") eqn:Eq.
  { intros _. destruct (message e0) as [m|] eqn:Em.
    - exists e0, m. unfold throttled. rewrite Eq. now repeat split.
    - unfold Gemini.mentions in Eq. rewrite Em in Eq. discriminate Eq. }
  destruct (Gemini.mentions e0 "rate limit"
            || Gemini.mentions e0 "RATE_LIMIT_EXCEEDED") eqn:El.
  { intros _. destruct (message e0) as [m|] eqn:Em.
    - exists e0, m. unfold throttled. rewrite Eq.
      cbn [orb]. rewrite El. now repeat split.
    - unfold Gemini.mentions in El. rewrite Em in El. discriminate El. }
  destruct (Gemini.mentions e0 "model" || _ || _ || _).
  { destruct (unavailable_is_500 (env_or (GEMINI_MODEL env) Gemini.DEFAULT_MODEL))
      as [b' ->]. discriminate. }
  now rewrite summoned_is_500.
Qed.


(** When GEMINI_API_KEY is unset, empty, blank or still the placeholder of
    the template, a request that passes the validation is answered 500 with
    the message "API key not configured. ..." and the provider is not
    called. *)
Theorem unconfigured_key_answers_500 body outside c :
  Gemini.key_missing env = true ->
  Review.validate body = inr c ->
  interact (serve env body) outside []
  = (Json 500 (Review.error_body Gemini.not_configured), []).
Proof.
  intros Hk Hv. unfold serve, Review.handler. rewrite Hv.
  cbn [link]. unfold Gemini.reviewCode. rewrite Hk.
  cbn [pbind link interact]. reflexivity.
Qed.

(** The provider is called at most once for a request; it is not called for
    a request that is answered 400; and when it is called, the prompt is made
    of the code and the language of the request, for the model that
    GEMINI_MODEL names, or gemini-2.0-flash. *)
Theorem provider_asked_at_most_once body outside :
  let run := interact (serve env body) outside [] in
  (forall b, fst run = Json 400 b -> snd run = []) /\
  (snd run = [] \/
   exists code language,
     field body "code" = JStr code /\
     field body "language" = JStr language /\
     snd run
     = [Gemini.mkPrompt (env_or (GEMINI_MODEL env) Gemini.DEFAULT_MODEL)
          language code]).
Proof.
  cbv zeta. unfold serve. rewrite Review.handler_cases.
  destruct (Review.code_rejected _) eqn:Ec; [cbn; auto|].
  destruct (Review.language_rejected _) eqn:El; [cbn; auto|].
  destruct (Review.too_long _); [cbn; auto|].
  cbn [link]. unfold Gemini.reviewCode.
  destruct (Gemini.key_missing env); [cbn; auto|].
  cbn [pbind link interact fst snd app]. split.
  - intros b H. now destruct (Review.reply_status _ (f_equal Review.status_of H)).
  - right. destruct (field body "code") as [| | | |code| |]; try discriminate.
    destruct (field body "language") as [| | | |language| |];
      try discriminate.
    exists code, language. repeat split.
Qed.

End Failures.

Section Level.
Context {rt : Runtime}.

(** A level that the provider gives as a number is rounded to the nearest
    integer and brought into the range from 0 to 100: the result is an
    integer of that range for every number that JSON can denote. *)
Theorem provided_level_is_clamped o x :
  field o "curseLevel" = JNum x ->
  exists o',
    Gemini.postProcess o = Returned (JObj o') /\
    field o' "curseLevel" = JNum (clamp x) /\
    (x <> NaN -> level (clamp x)).
Proof.
  intros Hx. unfold Gemini.postProcess. cbv zeta.
  match goal with
  | |- context [set ?p "updatedCode" _] => set (p1 := p)
  end.
  assert (H1 : field p1 "curseLevel" = JNum x).
  { subst p1. destruct (_ || _ || _); [|assumption]. now Gemini.fields. }
  clearbody p1.
  set (p2 := set (set p1 "updatedCode" _) "changes" _).
  assert (H2 : field p2 "curseLevel" = JNum x).
  { subst p2. now Gemini.fields. }
  clearbody p2. rewrite H2. cbn [is_number negb bind].
  match goal with
  | |- context [set ?p "errors" _] => set (pv := p)
  end.
  assert (Hv : field pv "curseLevel" = JNum x).
  { subst pv. destruct (_ || _); [|assumption]. now Gemini.fields. }
  clearbody pv. Gemini.fields. rewrite Hv. cbn [ToNumber bind].
  eexists. split; [reflexivity|]. Gemini.fields.
  split; [reflexivity|apply clamp_cases].
Qed.

End Level.

(** ** Examples of failures *)

Lemma too_many_requests_origin_witness :
  exists e m,
    Threw (A := jsstring) (Error quota_failure) = Threw e /\
    message e = Some m /\
    throttled e = true /\ keyed e = false.
Proof.
  apply (too_many_requests_origin (rt := Reference.runtime) configured
           request_body (Threw (Error quota_failure))
           (b := Review.error_body
                   (js "The Reaper is overwhelmed. Please wait 13 seconds before trying again."))).
  vm_compute. reflexivity.
Defined.

(** A server started from the template of the environment file. *)
Definition unconfigured : Env := {|
  GEMINI_API_KEY := Some (js "your_gemini_api_key_here");
  GEMINI_MODEL := None;
  CLIENT_URL := None;
  GITHUB_CLIENT_ID := None;
  GITHUB_CLIENT_SECRET := None
|}.

Lemma unconfigured_key_answers_500_witness :
  interact (serve (rt := Reference.runtime) unconfigured request_body)
    (fun _ => Returned sound_answer) []
  = (Json 500 (Review.error_body Gemini.not_configured), []).
Proof.
  apply (unconfigured_key_answers_500 (rt := Reference.runtime) unconfigured
           request_body (fun _ => Returned sound_answer)
           (c := Review.mkCall (js "print(1)") (js "python")));
    reflexivity.
Defined.

(** An object whose level is above the range. *)
Definition overshoot : object := [ (js "curseLevel", JNum (num 130)) ].

Lemma provided_level_is_clamped_witness :
  exists o',
    Gemini.postProcess (rt := Reference.runtime) overshoot
      = Returned (JObj o') /\
    field o' "curseLevel" = JNum (clamp (num 130)) /\
    (num 130 <> NaN -> level (clamp (num 130))).
Proof.
  apply (provided_level_is_clamped (rt := Reference.runtime) overshoot).
  reflexivity.
Defined.

(** A fenced block as the model writes it: the fence with its tag, the
    object and the closing fence, each on a line of its own. *)
Definition line_feed : jsstring := [10%N].

Definition block_of (contents : jsstring) : jsstring :=
  js "```json" ++ line_feed ++ contents ++ line_feed ++ js "```".

(** An answer with two fenced blocks, each holding an object that parses. *)
Definition two_blocks : jsstring :=
  block_of (jsq "{'a':1}") ++ line_feed ++ block_of (jsq "{'b':2}").

(** What is extracted from it: from the brace of the first block to the
    brace of the second. *)
Definition across_blocks : jsstring :=
  jsq "{'a':1}" ++ line_feed ++ js "```" ++ line_feed
  ++ js "```json" ++ line_feed ++ jsq "{'b':2}".

(** An answer with one fenced block between two lines of prose. *)
Definition one_block : jsstring :=
  js "Here is the review:" ++ line_feed ++ block_of (jsq "{'a':1}")
  ++ line_feed ++ js "Beware.".

(** C5 (as stated, refuted): the answer holds two fenced blocks, each with
    a braced object that parses, yet the text used is the contents of
    neither: it runs from the brace of the first block to the brace of the
    last, with the fences between them, and the call ends with the parse
    error. *)
Lemma two_blocks_span_both :
  ~ Extract.uses_block_contents two_blocks /\
  Extract.block_contents (trim two_blocks) (jsq "{'a':1}") /\
  Extract.block_contents (trim two_blocks) (jsq "{'b':2}") /\
  Extract.extractJson two_blocks = Returned across_blocks /\
  (exists a b,
     Json.JSON_parse (rt := Reference.runtime) (jsq "{'a':1}") = Returned a /\
     Json.JSON_parse (rt := Reference.runtime) (jsq "{'b':2}") = Returned b) /\
  Gemini.review (rt := Reference.runtime) configured (Returned two_blocks)
    = Threw Gemini.MalformedResponseError.
Proof.
  assert (Ha : Extract.block_contents (trim two_blocks) (jsq "{'a':1}")).
  { split; [|reflexivity].
    exists [], (js "json"), line_feed, (jsq "'a':1"), line_feed,
      (line_feed ++ block_of (jsq "{'b':2}")).
    repeat split; try reflexivity. now right. }
  assert (He : Extract.extractJson two_blocks = Returned across_blocks)
    by (vm_compute; reflexivity).
  split; [|split; [exact Ha|split; [|split; [exact He|split]]]].
  - intros H. destruct H as (g & [_ Hg] & Hx); [now exists (jsq "{'a':1}")|].
    rewrite He in Hx. injection Hx as <-. vm_compute in Hg. discriminate.
  - split; [|reflexivity].
    exists (block_of (jsq "{'a':1}") ++ line_feed), (js "json"), line_feed,
      (jsq "'b':2"), line_feed, [].
    repeat split; try reflexivity. now right.
  - eexists. eexists. split; vm_compute; reflexivity.
  - vm_compute. reflexivity.
Qed.

Lemma extraction_order_witness :
  Extract.extractJson one_block = Returned (jsq "{'a':1}").
Proof.
  change (jsq "{'a':1}") with (123%N :: jsq "'a':1" ++ [125%N]).
  apply (proj1 (proj2 (Gemini.extraction_order (rt := Reference.runtime)
                         configured one_block)))
    with (pre := js "Here is the review:" ++ line_feed) (tag := js "json")
         (w1 := line_feed) (w2 := line_feed)
         (post := line_feed ++ js "Beware.");
    try reflexivity.
  now right.
Defined.

End Pipeline.

(* ================================================================== *)
(** * A repository whose default branch is not [main] *)

Module Scenario.
Import Github.

Record repository := {
  repo_owner : jsstring;
  repo_name : jsstring;
  default_branch : jsstring
}.

Definition legacy : repository := {|
  repo_owner := js "octocat";
  repo_name := js "hello";
  default_branch := js "master"
|}.

Definition now : N := 1700000000000.
Definition token : jsstring := js "gho_example".

Definition spec : object :=
  [ (js "accessToken", JStr token);
    (js "owner", JStr (repo_owner legacy));
    (js "repo", JStr (repo_name legacy));
    (js "filePath", JStr (js "src/app.js"));
    (js "improvedCode", JStr (js "let x = 1;"));
    (js "category", JStr (js "Bug Fix"));
    (js "explanation", JStr (js "The code is cursed.")) ].

Definition answered (code : N) (reason : string) (v : JsVal) : answer :=
  Returned (mkHttp code (js reason) (Returned []) (Returned v)).

Definition sha (s : string) : JsVal := JObj [(js "sha", JStr (js s))].

(** A remote on which every step succeeds. *)
Definition obliging (asked : list request) : answer :=
  match length asked with
  | 1 => answered 200 "OK" (JObj [(js "object", sha "aaa111")])
  | 2 => answered 201 "Created" (JObj [])
  | 3 => answered 200 "OK" (sha "bbb222")
  | 4 => answered 200 "OK" (JObj [])
  | _ => answered 201 "Created"
           (JObj [ (js "html_url",
                     JStr (js "https://github.com/octocat/hello/pull/7"));
                   (js "number", JNum (num 7)) ])
  end.


Definition read_main : request :=
  mkRequest (ref_of (js "octocat") (js "hello") (js "main")) (js "GET")
    (headers_for token) None.

Definition create_branch : request :=
  mkRequest (api ++ js "octocat/hello/git/refs") (js "POST")
    (headers_for token)
    (Some (JObj [ (js "ref", JStr (js "refs/heads/" ++ branch_of now));
                  (js "sha", JStr (js "aaa111")) ])).

Definition open_to_main : request :=
  open_pull token (js "octocat") (js "hello") (js "Bug Fix") (branch_of now)
    (js "main") (JStr (js "The code is cursed.")).

(** C6 (as stated, refuted): on a repository whose default branch is
    [master], with every step succeeding, the first request reads
    [refs/heads/main] and the pull request is opened against [main]: neither
    is the default branch. *)
Lemma default_branch_not_consulted :
  let asked :=
    snd (interact (pull_request (rt := Reference.runtime) now spec)
           obliging []) in
  nth_error asked 0 = Some read_main /\
  url read_main
    <> ref_of (repo_owner legacy) (repo_name legacy) (default_branch legacy) /\
  nth_error asked 4 = Some open_to_main /\
  open_to_main
    <> open_pull token (js "octocat") (js "hello") (js "Bug Fix")
         (branch_of now) (default_branch legacy)
         (JStr (js "The code is cursed.")).
Proof.
  cbv zeta. repeat split; try (vm_compute; reflexivity);
    vm_compute; discriminate.
Qed.

Lemma pull_request_targets_main_witness :
  let asked :=
    snd (interact (pull_request (rt := Reference.runtime) now spec)
           obliging []) in
  (forall qA, nth_error asked 0 = Some qA -> qA = read_main) /\
  (forall qE, nth_error asked 4 = Some qE -> qE = open_to_main).
Proof.
  apply (pull_request_targets_main (rt := Reference.runtime) now spec
           obliging (accessToken := token) (owner := js "octocat")
           (repo := js "hello") (category := js "Bug Fix"));
    reflexivity.
Defined.




(** The whole sequence on the obliging remote: five requests, then the
    answer with the address of the pull request. *)
Example pull_request_succeeds :
  let run := interact (pull_request (rt := Reference.runtime) now spec)
               obliging [] in
  length (snd run) = 5 /\
  fst run
  = Returned (Json 200
      (JObj [ (js "success", JBool true);
              (js "url", JStr (js "https://github.com/octocat/hello/pull/7"));
              (js "number", JNum (num 7));
              (js "branch", JStr (branch_of now)) ])).
Proof. cbv zeta. split; vm_compute; reflexivity. Qed.

(** ** The other ways out of the sequence *)

Lemma missing_field_rejected_witness :
  interact (pull_request (rt := Reference.runtime) now []) obliging []
  = (Returned missing_fields, []).
Proof.
  apply (missing_field_rejected (rt := Reference.runtime) now [] obliging
           (k := "accessToken"%string)).
  - left. reflexivity.
  - reflexivity.
Defined.

(** The answer of the handler on the obliging remote. *)
Definition opened : JsVal :=
  JObj [ (js "success", JBool true);
         (js "url", JStr (js "https://github.com/octocat/hello/pull/7"));
         (js "number", JNum (num 7));
         (js "branch", JStr (branch_of now)) ].

Lemma success_needs_every_step_witness :
  let asked :=
    snd (interact (pull_request (rt := Reference.runtime) now spec)
           obliging []) in
  length asked = 5 /\
  forall i, i < 5 ->
    exists r, obliging (firstn (S i) asked) = Returned r /\ ok r = true.
Proof.
  apply (success_needs_every_step (rt := Reference.runtime) now spec obliging
           (b := opened)).
  vm_compute. reflexivity.
Defined.

(** A remote that accepts the token for the first request and rejects it
    for the second. *)
Definition revoking (asked : list request) : answer :=
  match length asked with
  | 1 => answered 200 "OK" (JObj [(js "object", sha "aaa111")])
  | _ => answered 401 "Unauthorized" (JObj [])
  end.

Lemma failed_step_ends_sequence_witness :
  let run := interact (pull_request (rt := Reference.runtime) now spec)
               revoking [] in
  (exists e, fst run = Returned (failed e)) /\ length (snd run) = 2.
Proof.
  apply (failed_step_ends_sequence (rt := Reference.runtime) now spec
           revoking (i := 1)).
  - vm_compute. lia.
  - vm_compute. split; [reflexivity|].
    split; intros [H1 H2]; discriminate.
Defined.


Lemma branch_cut_from_main_witness :
  exists refResponse refData object sha,
    obliging [read_main] = Returned refResponse /\
    json refResponse = Returned refData /\
    get refData (js "object") = Returned object /\
    get object (js "sha") = Returned sha /\
    create_branch
    = mkRequest (refs_of (js "octocat") (js "hello")) (js "POST")
        (headers_for token)
        (Some (JObj [ (js "ref", JStr (js "refs/heads/" ++ branch_of now));
                      (js "sha", sha) ])).
Proof.
  apply (branch_cut_from_main (rt := Reference.runtime) now spec obliging
           (accessToken := token) (owner := js "octocat") (repo := js "hello")
           (path := js "src/app.js") (category := js "Bug Fix"));
    reflexivity.
Defined.

(** The commit on the obliging remote. *)
Definition commit_code : request :=
  mkRequest (contents_of (js "octocat") (js "hello") (js "src/app.js"))
    (js "PUT") (headers_for token)
    (Some (JObj [ (js "message", JStr (js "AIReviewMate: Bug Fix"));
                  (js "content", JStr (js "bGV0IHggPSAxOw=="));
                  (js "sha", JStr (js "bbb222"));
                  (js "branch", JStr (branch_of now)) ])).

Lemma commit_targets_new_branch_witness :
  let asked :=
    snd (interact (pull_request (rt := Reference.runtime) now spec)
           obliging []) in
  exists fileResponse fileData fileSHA content,
    nth_error asked 2
    = Some (mkRequest (contents_of (js "octocat") (js "hello")
                         (js "src/app.js"))
              (js "GET") (headers_for token) None) /\
    obliging (firstn 3 asked) = Returned fileResponse /\
    json fileResponse = Returned fileData /\
    get fileData (js "sha") = Returned fileSHA /\
    Reference.ref_toBase64 (JStr (js "let x = 1;")) = Returned content /\
    commit_code
    = mkRequest (contents_of (js "octocat") (js "hello") (js "src/app.js"))
        (js "PUT") (headers_for token)
        (Some (JObj [ (js "message", JStr (js "AIReviewMate: " ++ js "Bug Fix"));
                      (js "content", JStr content);
                      (js "sha", fileSHA);
                      (js "branch", JStr (branch_of now)) ])).
Proof.
  apply (commit_targets_new_branch (rt := Reference.runtime) now spec obliging
           (accessToken := token) (owner := js "octocat") (repo := js "hello")
           (path := js "src/app.js") (category := js "Bug Fix"));
    reflexivity.
Defined.

(** ** Listing the repositories *)

Definition hello : JsVal :=
  JObj [ (js "name", JStr (js "hello"));
         (js "full_name", JStr (js "octocat/hello"));
         (js "owner", JObj [ (js "login", JStr (js "octocat")) ]);
         (js "default_branch", JStr (js "master"));
         (js "html_url", JStr (js "https://github.com/octocat/hello"));
         (js "private", JBool false) ].

(** GitHub's entry for a repository whose owner is not given. *)
Definition orphan : JsVal :=
  JObj [ (js "name", JStr (js "ghost")); (js "owner", JNull) ].

Definition listing (asked : list request) : answer :=
  answered 200 "OK" (JArr [hello]).

Definition listing_orphan (asked : list request) : answer :=
  answered 200 "OK" (JArr [hello; orphan]).

Definition bearer_header : jsstring := js "Bearer " ++ token.

Lemma repos_requires_bearer_witness :
  interact (repos (Some (js "token gho_example"))) listing []
  = (missing_token, []).
Proof.
  apply (repos_requires_bearer (Some (js "token gho_example")) listing).
  reflexivity.
Defined.

Lemma repos_forwards_header_witness :
  snd (interact (repos (Some bearer_header)) listing [])
  = [ mkRequest (js "https://api.github.com/user/repos") (js "GET")
        [ (js "Authorization", bearer_header);
          (js "Accept", js "application/vnd.github+json");
          (js "User-Agent", js "AIReviewMate") ]
        None ].
Proof.
  apply (repos_forwards_header bearer_header listing). reflexivity.
Defined.

Definition listed_hello : JsVal :=
  JObj [ (js "repos",
           JArr [ JObj [ (js "name", JStr (js "hello"));
                         (js "full_name", JStr (js "octocat/hello"));
                         (js "owner", JStr (js "octocat"));
                         (js "default_branch", JStr (js "master"));
                         (js "url",
                           JStr (js "https://github.com/octocat/hello")) ] ]) ].

Lemma repos_lists_every_repository_witness :
  exists h r given listing',
    Some bearer_header = Some h /\
    listing [list_repos (skipn 7 h)] = Returned r /\
    ok r = true /\
    json r = Returned (JArr given) /\
    listed_hello = JObj [ (js "repos", JArr listing') ] /\
    Forall2 (fun repo entry => formatRepo repo = Returned entry) given listing'.
Proof.
  apply (repos_lists_every_repository (Some bearer_header) listing
           (body := listed_hello)).
  vm_compute. reflexivity.
Defined.

Lemma repos_entry_without_owner_witness :
  exists e,
    fst (interact (repos (Some bearer_header)) listing_orphan [])
    = repos_failed e.
Proof.
  apply (repos_entry_without_owner bearer_header listing_orphan
           (r := mkHttp 200 (js "OK") (Returned [])
                   (Returned (JArr [hello; orphan])))
           (given := [hello; orphan]) (repo := orphan)).
  - reflexivity.
  - reflexivity.
  - reflexivity.
  - reflexivity.
  - right. left. reflexivity.
  - right. right. reflexivity.
Defined.

(** ** A refused exchange *)

(** GitHub's answer to a code that has expired. *)
Definition expired_code : object :=
  [ (js "error", JStr (js "bad_verification_code"));
    (js "error_description",
      JStr (js "The code passed is incorrect or expired.")) ].

Definition refusing (asked : list request) : answer :=
  answered 200 "OK" (JObj expired_code).

Lemma callback_reports_refusal_witness :
  fst (interact (callback (rt := Reference.runtime) Pipeline.configured
                   (JStr (js "4f3c2a")))
         refusing [])
  = Returned (Redirect
      (frontendUrl Pipeline.configured ++ js "#error="
       ++ js "GitHub%20OAuth%20failed%3A%20The%20code%20passed%20is%20incorrect%20or%20expired.")).
Proof.
  apply (callback_reports_refusal (rt := Reference.runtime)
           Pipeline.configured (JStr (js "4f3c2a")) refusing
           (r := mkHttp 200 (js "OK") (Returned []) (Returned (JObj expired_code)))
           (o := expired_code)
           (d := js "The code passed is incorrect or expired."));
    try reflexivity.
  - left. reflexivity.
  - discriminate.
Defined.

(** A token request that fails with an exception whose message is an
    unpaired surrogate. *)
Definition unpaired : jsstring := [55296%N].

Definition failing (asked : list request) : answer := Threw (Error unpaired).

(** C9 (the code breaks the claim): the token request fails with an
    exception whose message is an unpaired surrogate.  The [try] ends with
    that exception, the [catch] throws in turn when it encodes the message,
    and the handler ends with [URIError] and nothing sent: no redirect,
    although the handler is to redirect on every path, errors included. *)
Theorem unencodable_failure_sends_nothing :
  let code := JStr (js "4f3c2a") in
  let run :=
    interact (callback (rt := Reference.runtime) Pipeline.configured code)
      failing [] in
  snd run = [exchange Pipeline.configured code] /\
  exchanged (rt := Reference.runtime) Pipeline.configured (failing (snd run))
    = Threw (Error unpaired) /\
  exchange_failed Pipeline.configured (Error unpaired) = Threw Uri.URIError /\
  fst run = Threw Uri.URIError /\
  (forall sent, fst run <> Returned sent).
Proof.
  cbv zeta. repeat split; try (vm_compute; reflexivity).
  intros sent H. vm_compute in H. discriminate H.
Qed.

End Scenario.

(* ================================================================== *)
(** * UTF-8, as the browser decodes it *)

Module Utf8.

(** The UTF-16 code units of a code point. *)
Definition utf16 (cp : N) : jsstring :=
  (if cp <? 65536 then [cp]
   else [55296 + (cp - 65536) / 1024; 56320 + (cp - 65536) mod 1024])%N.

(** The decoder of the Encoding standard.  Between two bytes it is either
    at rest or inside a sequence: the bits gathered so far, the number of
    bytes still needed, and the range allowed for the next byte. *)
Record pending := mkPending {
  code_point : N;
  needed : nat;
  lower : N;
  upper : N
}.

(** A byte met at rest: what it emits, and the sequence it opens. *)
Definition lead (b : N) : list N * option pending :=
  (if b <=? 127 then ([b], None)
   else if (194 <=? b) && (b <=? 223)
   then ([], Some (mkPending (b - 192) 1 128 191))
   else if (224 <=? b) && (b <=? 239)
   then ([], Some (mkPending (b - 224) 2
                     (if b =? 224 then 160 else 128)
                     (if b =? 237 then 159 else 191)))
   else if (240 <=? b) && (b <=? 244)
   then ([], Some (mkPending (b - 240) 3
                     (if b =? 240 then 144 else 128)
                     (if b =? 244 then 143 else 191)))
   else ([65533], None))%N.

(** The code points of a sequence of bytes; what is not UTF-8 becomes
    U+FFFD, and the byte that broke a sequence is read again at rest. *)
Fixpoint decode (st : option pending) (bytes : list N) : list N :=
  match bytes with
  | [] => match st with Some _ => [65533%N] | None => [] end
  | b :: rest =>
      match st with
      | None => let '(out, st') := lead b in out ++ decode st' rest
      | Some p =>
          if ((lower p <=? b) && (b <=? upper p))%N then
            let cp := (code_point p * 64 + (b - 128))%N in
            match needed p with
            | S (S n) => decode (Some (mkPending cp (S n) 128 191)) rest
            | _ => cp :: decode None rest
            end
          else
            65533%N :: (let '(out, st') := lead b in out ++ decode st' rest)
      end
  end.

(** UTF-8 decode without BOM *)
Definition utf8_decode (bytes : list N) : jsstring :=
  flat_map utf16 (decode None bytes).

End Utf8.

(* ================================================================== *)
(** * decodeURIComponent *)

Module Unescape.
Import Uri Utf8.

Definition hexval (c : N) : option N :=
  (if (48 <=? c) && (c <=? 57) then Some (c - 48)
   else if (65 <=? c) && (c <=? 70) then Some (c - 55)
   else if (97 <=? c) && (c <=? 102) then Some (c - 87)
   else None)%N.

(** An escape [%XY] at the head of a string: its octet, and what follows. *)
Definition escape (s : jsstring) : option (N * jsstring) :=
  match s with
  | c :: h :: l :: rest =>
      if (c =? 37)%N then
        match hexval h, hexval l with
        | Some a, Some b => Some (a * 16 + b, rest)%N
        | _, _ => None
        end
      else None
  | _ => None
  end.

(** [n] escapes in a row. *)
Fixpoint escapes (n : nat) (s : jsstring) : option (list N * jsstring) :=
  match n with
  | O => Some ([], s)
  | S n' =>
      match escape s with
      | Some (b, rest) =>
          match escapes n' rest with
          | Some (bs, rest') => Some (b :: bs, rest')
          | None => None
          end
      | None => None
      end
  end.

(** The number of leading 1 bits of an octet. *)
Definition leading_ones (b : N) : nat :=
  if (b <? 128)%N then 0 else if (b <? 192)%N then 1
  else if (b <? 224)%N then 2 else if (b <? 240)%N then 3
  else if (b <? 248)%N then 4 else 5.

Definition continuation (b : N) : bool := ((128 <=? b) && (b <=? 191))%N.

(** The code point of a valid UTF-8 encoding of two, three or four octets:
    continuation octets after the first, the shortest form, no surrogate,
    nothing above U+10FFFF. *)
Definition scalar (octets : list N) : option N :=
  match octets with
  | [a; b] =>
      let cp := ((a - 192) * 64 + (b - 128))%N in
      if continuation b && (128 <=? cp)%N then Some cp else None
  | [a; b; c] =>
      let cp := (((a - 224) * 64 + (b - 128)) * 64 + (c - 128))%N in
      if continuation b && continuation c && (2048 <=? cp)%N
         && negb (high_surrogate cp || low_surrogate cp)
      then Some cp else None
  | [a; b; c; d] =>
      let cp := ((((a - 240) * 64 + (b - 128)) * 64 + (c - 128)) * 64
                 + (d - 128))%N in
      if continuation b && continuation c && continuation d
         && (65536 <=? cp)%N && (cp <=? 1114111)%N
      then Some cp else None
  | _ => None
  end.

(** The abstract operation Decode with an empty set of preserved escapes;
    the fuel is the length of the string. *)
Fixpoint decode_fuel (fuel : nat) (s : jsstring) : result jsstring :=
  match fuel with
  | O => Returned []
  | S f =>
      match s with
      | [] => Returned []
      | c :: t =>
          if (c =? 37)%N then
            match escape s with
            | None => Threw URIError
            | Some (B, rest) =>
                match leading_ones B with
                | 0 => r <- decode_fuel f rest ;; Returned (B :: r)
                | 1 => Threw URIError
                | S (S n) =>
                    if (n <=? 2)%nat then
                      match escapes (S n) rest with
                      | None => Threw URIError
                      | Some (octets, rest') =>
                          match scalar (B :: octets) with
                          | None => Threw URIError
                          | Some cp =>
                              r <- decode_fuel f rest' ;;
                              Returned (utf16 cp ++ r)
                          end
                      end
                    else Threw URIError
                end
            end
          else r <- decode_fuel f t ;; Returned (c :: r)
      end
  end.

Definition decodeURIComponent (s : jsstring) : result jsstring :=
  decode_fuel (length s) s.

End Unescape.

(* ================================================================== *)
(** * URLSearchParams *)

Module Form.
Import Uri Utf8 Unescape.

(** Split at every occurrence of a byte. *)
Fixpoint split_on (sep : N) (bytes : list N) : list (list N) :=
  match bytes with
  | [] => [[]]
  | b :: rest =>
      if (b =? sep)%N then [] :: split_on sep rest
      else match split_on sep rest with
           | piece :: pieces => (b :: piece) :: pieces
           | [] => [[b]]
           end
  end.

(** Cut at the first [=]: the name, and the value (empty without [=]). *)
Fixpoint cut (bytes : list N) : list N * list N :=
  match bytes with
  | [] => ([], [])
  | b :: rest =>
      if (b =? 61)%N then ([], rest)
      else let '(name, value) := cut rest in (b :: name, value)
  end.

Definition plus_to_space (bytes : list N) : list N :=
  map (fun b => if (b =? 43)%N then 32%N else b) bytes.

(** percent-decode *)
Fixpoint percent_decode (bytes : list N) : list N :=
  match bytes with
  | [] => []
  | b :: rest =>
      if (b =? 37)%N then
        match rest with
        | h :: l :: rest' =>
            match hexval h, hexval l with
            | Some x, Some y => (x * 16 + y)%N :: percent_decode rest'
            | _, _ => b :: percent_decode rest
            end
        | _ => b :: percent_decode rest
        end
      else b :: percent_decode rest
  end.

Definition form_decode (bytes : list N) : jsstring :=
  utf8_decode (percent_decode (plus_to_space bytes)).

(** The application/x-www-form-urlencoded parser, on a string. *)
Definition parse (input : jsstring) : list (jsstring * jsstring) :=
  flat_map (fun piece =>
              match piece with
              | [] => []
              | _ => let '(name, value) := cut piece in
                     [(form_decode name, form_decode value)]
              end)
    (split_on 38 (Reference.utf8_octets input)).

(** [new URLSearchParams(init)] for a string: a leading [?] is dropped. *)
Definition URLSearchParams (init : jsstring) : list (jsstring * jsstring) :=
  parse match init with
        | c :: t => if (c =? 63)%N then t else init
        | [] => init
        end.

(** [params.get(name)]: the first value under the name, or [null]. *)
Fixpoint get (params : list (jsstring * jsstring)) (name : jsstring)
  : option jsstring :=
  match params with
  | [] => None
  | (n, v) :: rest => if Str.eqb n name then Some v else get rest name
  end.

(** The bytes left as they are by the serializer: letters, digits and
    [*-._]. *)
Definition form_safe (b : N) : bool :=
  alnum b || existsb (N.eqb b) [42; 45; 46; 95]%N.

Definition form_byte (b : N) : jsstring :=
  if (b =? 32)%N then [43%N] else if form_safe b then [b] else pct b.

Definition form_encode (s : jsstring) : jsstring :=
  flat_map form_byte (Reference.utf8_octets s).

(** The application/x-www-form-urlencoded serializer. *)
Fixpoint serialize (pairs : list (jsstring * jsstring)) : jsstring :=
  match pairs with
  | [] => []
  | [(n, v)] => form_encode n ++ js "=" ++ form_encode v
  | (n, v) :: rest =>
      form_encode n ++ js "=" ++ form_encode v ++ js "&" ++ serialize rest
  end.

End Form.

(* ================================================================== *)
(** * Decoding undoes encoding *)

Module Utf8Facts.
Import Uri Utf8.

Ltac div_lia := zify; Z.to_euclidean_division_equations; lia.

(** A Unicode scalar value: a code point that is not a surrogate. *)
Definition scalar_value (cp : N) : Prop :=
  (cp < 1114112 /\ ~ (55296 <= cp <= 57343))%N.

Ltac tests :=
  repeat match goal with
         | |- context [(?a <=? ?b)%N] =>
             destruct (N.leb_spec a b); try (exfalso; lia)
         | |- context [(?a =? ?b)%N] =>
             destruct (N.eqb_spec a b); try (exfalso; lia)
         | |- context [(?a <? ?b)%N] =>
             destruct (N.ltb_spec a b); try (exfalso; lia)
         end.

Lemma decode1 a rest :
  (a <= 127)%N -> decode None (a :: rest) = a :: decode None rest.
Proof. intros H. cbn [decode]. unfold lead. tests. reflexivity. Qed.

Lemma decode_more p b rest n :
  needed p = S (S n) -> (lower p <= b <= upper p)%N ->
  decode (Some p) (b :: rest)
  = decode (Some (mkPending (code_point p * 64 + (b - 128)) (S n) 128 191))
      rest.
Proof. intros Hn Hb. cbn [decode]. rewrite Hn. tests. reflexivity. Qed.

Lemma decode_last p b rest :
  needed p = 1 -> (lower p <= b <= upper p)%N ->
  decode (Some p) (b :: rest)
  = (code_point p * 64 + (b - 128))%N :: decode None rest.
Proof. intros Hn Hb. cbn [decode]. rewrite Hn. tests. reflexivity. Qed.

Lemma lead2 a :
  (194 <= a <= 223)%N -> lead a = ([], Some (mkPending (a - 192) 1 128 191)).
Proof. intros H. unfold lead. tests. reflexivity. Qed.

Lemma lead3 a :
  (224 <= a <= 239)%N ->
  lead a = ([], Some (mkPending (a - 224) 2
                        (if (a =? 224)%N then 160%N else 128%N)
                        (if (a =? 237)%N then 159%N else 191%N))).
Proof.
  intros H. unfold lead.
  destruct (N.leb_spec a 127); [lia|].
  destruct (N.leb_spec 194 a); [|lia].
  destruct (N.leb_spec a 223); [lia|]. cbn [andb].
  destruct (N.leb_spec 224 a); [|lia].
  destruct (N.leb_spec a 239); [|lia]. reflexivity.
Qed.

Lemma lead4 a :
  (240 <= a <= 244)%N ->
  lead a = ([], Some (mkPending (a - 240) 3
                        (if (a =? 240)%N then 144%N else 128%N)
                        (if (a =? 244)%N then 143%N else 191%N))).
Proof.
  intros H. unfold lead.
  destruct (N.leb_spec a 127); [lia|].
  destruct (N.leb_spec 194 a); [|lia].
  destruct (N.leb_spec a 223); [lia|]. cbn [andb].
  destruct (N.leb_spec 224 a); [|lia].
  destruct (N.leb_spec a 239); [lia|]. cbn [andb].
  destruct (N.leb_spec 240 a); [|lia].
  destruct (N.leb_spec a 244); [|lia]. reflexivity.
Qed.

Lemma decode2 a b rest :
  (194 <= a <= 223)%N -> (128 <= b <= 191)%N ->
  decode None (a :: b :: rest)
  = ((a - 192) * 64 + (b - 128))%N :: decode None rest.
Proof.
  intros Ha Hb.
  change (decode None (a :: b :: rest))
    with (let '(out, st') := lead a in out ++ decode st' (b :: rest)).
  rewrite lead2 by assumption. cbn [app]. now rewrite decode_last.
Qed.

Lemma decode3 a b c rest :
  (224 <= a <= 239)%N -> (128 <= b <= 191)%N -> (128 <= c <= 191)%N ->
  (a = 224 -> 160 <= b)%N -> (a = 237 -> b <= 159)%N ->
  decode None (a :: b :: c :: rest)
  = (((a - 224) * 64 + (b - 128)) * 64 + (c - 128))%N :: decode None rest.
Proof.
  intros Ha Hb Hc Hlo Hhi.
  change (decode None (a :: b :: c :: rest))
    with (let '(out, st') := lead a in out ++ decode st' (b :: c :: rest)).
  rewrite lead3 by assumption. cbn [app].
  rewrite decode_more with (n := 0); [|reflexivity|].
  - now rewrite decode_last.
  - cbn [lower upper].
    destruct (N.eqb_spec a 224); destruct (N.eqb_spec a 237); lia.
Qed.

Lemma decode4 a b c d rest :
  (240 <= a <= 244)%N -> (128 <= b <= 191)%N -> (128 <= c <= 191)%N ->
  (128 <= d <= 191)%N ->
  (a = 240 -> 144 <= b)%N -> (a = 244 -> b <= 143)%N ->
  decode None (a :: b :: c :: d :: rest)
  = ((((a - 240) * 64 + (b - 128)) * 64 + (c - 128)) * 64 + (d - 128))%N
    :: decode None rest.
Proof.
  intros Ha Hb Hc Hd Hlo Hhi.
  change (decode None (a :: b :: c :: d :: rest))
    with (let '(out, st') := lead a in out ++ decode st' (b :: c :: d :: rest)).
  rewrite lead4 by assumption. cbn [app].
  rewrite decode_more with (n := 1); [|reflexivity|].
  - rewrite decode_more with (n := 0); [|reflexivity|assumption].
    now rewrite decode_last.
  - cbn [lower upper].
    destruct (N.eqb_spec a 240); destruct (N.eqb_spec a 244); lia.
Qed.

Lemma decode_octets cp rest :
  scalar_value cp ->
  decode None (Reference.octets cp ++ rest) = cp :: decode None rest.
Proof.
  intros [Hmax Hsur]. unfold Reference.octets.
  destruct (N.ltb_spec cp 128).
  { cbn [app]. apply decode1. lia. }
  destruct (N.ltb_spec cp 2048).
  { cbn [app]. rewrite decode2 by div_lia. f_equal. div_lia. }
  destruct (N.ltb_spec cp 65536).
  { cbn [app]. rewrite decode3 by div_lia. f_equal. div_lia. }
  cbn [app]. rewrite decode4 by div_lia. f_equal. div_lia.
Qed.


(** A string of 16-bit code units. *)
Definition units (s : jsstring) : Prop := Forall (fun c => c < 65536)%N s.

Lemma utf16_unit c : (c < 65536)%N -> utf16 c = [c].
Proof. intros H. unfold utf16. now destruct (N.ltb_spec c 65536); [|lia]. Qed.

Lemma utf16_pair c d :
  high_surrogate c = true -> low_surrogate d = true ->
  utf16 (65536 + (c - 55296) * 1024 + (d - 56320)) = [c; d].
Proof.
  unfold high_surrogate, low_surrogate, utf16. intros Hc Hd.
  apply andb_true_iff in Hc as [Hc1 Hc2]. apply andb_true_iff in Hd as [Hd1 Hd2].
  apply N.leb_le in Hc1, Hc2, Hd1, Hd2.
  destruct (N.ltb_spec (65536 + (c - 55296) * 1024 + (d - 56320)) 65536);
    [lia|].
  f_equal; [|f_equal]; div_lia.
Qed.

Lemma pair_scalar c d :
  high_surrogate c = true -> low_surrogate d = true ->
  scalar_value (65536 + (c - 55296) * 1024 + (d - 56320)).
Proof.
  unfold high_surrogate, low_surrogate, scalar_value. intros Hc Hd.
  apply andb_true_iff in Hc as [Hc1 Hc2]. apply andb_true_iff in Hd as [Hd1 Hd2].
  apply N.leb_le in Hc1, Hc2, Hd1, Hd2. lia.
Qed.

Lemma unit_scalar c :
  (c < 65536)%N -> high_surrogate c = false -> low_surrogate c = false ->
  scalar_value c.
Proof.
  unfold high_surrogate, low_surrogate, scalar_value. intros Hc Hh Hl.
  apply andb_false_iff in Hh, Hl.
  rewrite !N.leb_gt in Hh, Hl. lia.
Qed.

Lemma utf8_decode_octets cp rest :
  scalar_value cp ->
  utf8_decode (Reference.octets cp ++ rest) = utf16 cp ++ utf8_decode rest.
Proof.
  intros H. unfold utf8_decode. now rewrite decode_octets.
Qed.

Lemma Returned_inj {A} (a b : A) : Returned a = Returned b -> a = b.
Proof. intros H. now injection H. Qed.

(** How [encodeURIComponent] goes through a string that it accepts. *)
Lemma encode_ind (P : jsstring -> jsstring -> Prop) :
  P [] [] ->
  (forall c t r,
     unreserved c = true -> encodeURIComponent t = Returned r -> P t r ->
     P (c :: t) (c :: r)) ->
  (forall c d t r,
     unreserved c = false -> high_surrogate c = true ->
     low_surrogate d = true ->
     encodeURIComponent t = Returned r -> P t r ->
     P (c :: d :: t)
       (utf8 (65536 + (c - 55296) * 1024 + (d - 56320)) ++ r)) ->
  (forall c t r,
     unreserved c = false -> high_surrogate c = false ->
     low_surrogate c = false ->
     encodeURIComponent t = Returned r -> P t r ->
     P (c :: t) (utf8 c ++ r)) ->
  forall s enc, encodeURIComponent s = Returned enc -> P s enc.
Proof.
  intros H0 H1 H2 H3 s.
  remember (length s) as n eqn:En.
  assert (Hn : length s <= n) by lia. clear En.
  revert s Hn. induction n as [|n IH]; intros s Hn enc He.
  - destruct s; [|simpl in Hn; lia]. apply Returned_inj in He as <-.
    exact H0.
  - destruct s as [|c t]; [apply Returned_inj in He as <-; exact H0|].
    simpl in Hn. cbn [encodeURIComponent] in He.
    destruct (unreserved c) eqn:Eu.
    { destruct (encodeURIComponent t) as [r|] eqn:Et; [|discriminate].
      apply Returned_inj in He as <-. apply H1; try assumption.
      apply IH; [lia|assumption]. }
    destruct (high_surrogate c) eqn:Eh.
    { destruct t as [|d t']; [discriminate|].
      destruct (low_surrogate d) eqn:El; [|discriminate].
      destruct (encodeURIComponent t') as [r|] eqn:Et; [|discriminate].
      apply Returned_inj in He as <-. apply H2; try assumption.
      apply IH; [simpl in Hn; lia|assumption]. }
    destruct (low_surrogate c) eqn:El; [discriminate|].
    destruct (encodeURIComponent t) as [r|] eqn:Et; [|discriminate].
    apply Returned_inj in He as <-. apply H3; try assumption.
    apply IH; [lia|assumption].
Qed.

Lemma unreserved_ascii c :
  unreserved c = true ->
  (c < 128 /\ c <> 37 /\ c <> 38 /\ c <> 43 /\ c <> 61)%N /\
  high_surrogate c = false /\ low_surrogate c = false.
Proof.
  unfold unreserved, alnum, high_surrogate, low_surrogate. cbn [existsb].
  intros H.
  repeat match type of H with
         | (_ || _) = true => apply orb_true_iff in H as [H|H]
         | (_ && _) = true => apply andb_true_iff in H as [? H]
         end;
  repeat match goal with
         | H : (_ <=? _)%N = true |- _ => apply N.leb_le in H
         | H : (_ =? _)%N = true |- _ => apply N.eqb_eq in H
         end; try discriminate;
  (split; [lia|]); split; apply andb_false_iff; rewrite !N.leb_gt; lia.
Qed.

(** A string that [encodeURIComponent] accepts decodes from its UTF-8
    octets to itself. *)
Lemma utf8_round_trip s enc :
  encodeURIComponent s = Returned enc -> units s ->
  utf8_decode (Reference.utf8_octets s) = s.
Proof.
  revert s enc.
  apply (encode_ind (fun s _ => units s -> utf8_decode (Reference.utf8_octets s) = s)).
  - reflexivity.
  - intros c t r Hc _ IH Hu. inversion Hu as [|? ? Hc16 Ht]; subst.
    destruct (unreserved_ascii c Hc) as (Ha & Hh & Hl).
    cbn [Reference.utf8_octets]. rewrite Hh, Hl.
    rewrite utf8_decode_octets by now apply unit_scalar.
    rewrite utf16_unit by assumption. cbn [app]. now rewrite IH.
  - intros c d t r _ Hh Hl _ IH Hu.
    inversion Hu as [|? ? Hc16 Ht]; subst.
    inversion Ht as [|? ? Hd16 Ht']; subst.
    cbn [Reference.utf8_octets]. rewrite Hh, Hl.
    rewrite utf8_decode_octets by now apply pair_scalar.
    rewrite utf16_pair by assumption. cbn [app]. now rewrite IH.
  - intros c t r _ Hh Hl _ IH Hu. inversion Hu as [|? ? Hc16 Ht]; subst.
    cbn [Reference.utf8_octets]. rewrite Hh, Hl.
    rewrite utf8_decode_octets by now apply unit_scalar.
    rewrite utf16_unit by assumption. cbn [app]. now rewrite IH.
Qed.

End Utf8Facts.

Module FormFacts.
Import Uri Utf8 Unescape Form Utf8Facts.

Lemma hexval_hexdigit d : (d < 16)%N -> hexval (hexdigit d) = Some d.
Proof.
  intros H. unfold hexval, hexdigit.
  destruct (N.ltb_spec d 10).
  - destruct (N.leb_spec 48 (48 + d)); [|lia].
    destruct (N.leb_spec (48 + d) 57); [|lia]. cbn [andb]. f_equal. lia.
  - destruct (N.leb_spec 48 (55 + d)); [|lia].
    destruct (N.leb_spec (55 + d) 57); [lia|]. cbn [andb].
    destruct (N.leb_spec 65 (55 + d)); [|lia].
    destruct (N.leb_spec (55 + d) 70); [|lia]. cbn [andb]. f_equal. lia.
Qed.

Lemma hexdigit_quiet d :
  (d < 16)%N ->
  (hexdigit d < 128 /\ hexdigit d <> 37 /\ hexdigit d <> 38
   /\ hexdigit d <> 43 /\ hexdigit d <> 61)%N.
Proof. intros H. unfold hexdigit. destruct (N.ltb_spec d 10); lia. Qed.

Lemma percent_decode_pct b rest :
  (b < 256)%N -> percent_decode (pct b ++ rest) = b :: percent_decode rest.
Proof.
  intros H. unfold pct. cbn [app percent_decode N.eqb Pos.eqb].
  rewrite !hexval_hexdigit by div_lia. f_equal. div_lia.
Qed.

Lemma plus_to_space_pct b rest :
  (b < 256)%N -> plus_to_space (pct b ++ rest) = pct b ++ plus_to_space rest.
Proof.
  intros H. unfold pct, plus_to_space. cbn [app map N.eqb Pos.eqb].
  assert (H1 : (b / 16 < 16)%N) by div_lia.
  assert (H2 : (b mod 16 < 16)%N) by div_lia.
  destruct (hexdigit_quiet H1) as (_ & _ & _ & Ha & _).
  destruct (hexdigit_quiet H2) as (_ & _ & _ & Hb & _).
  apply N.eqb_neq in Ha, Hb. now rewrite Ha, Hb.
Qed.

(** The text that [encodeURIComponent] writes for a code point is the
    escapes of its UTF-8 octets. *)
Lemma utf8_pct cp : utf8 cp = flat_map pct (Reference.octets cp).
Proof.
  unfold utf8, Reference.octets.
  destruct (cp <? 128)%N; [cbn [flat_map]; now rewrite app_nil_r|].
  destruct (cp <? 2048)%N; [cbn [flat_map]; now rewrite app_nil_r|].
  destruct (cp <? 65536)%N; cbn [flat_map]; now rewrite app_nil_r.
Qed.

Lemma octets_bytes cp :
  (cp < 4194304)%N -> Forall (fun b => b < 256)%N (Reference.octets cp).
Proof.
  intros H. unfold Reference.octets.
  destruct (N.ltb_spec cp 128); [repeat constructor; lia|].
  destruct (N.ltb_spec cp 2048); [repeat constructor; div_lia|].
  destruct (N.ltb_spec cp 65536); repeat constructor; div_lia.
Qed.

Lemma unescape_octets bytes rest :
  Forall (fun b => b < 256)%N bytes ->
  percent_decode (plus_to_space (flat_map pct bytes ++ rest))
  = bytes ++ percent_decode (plus_to_space rest).
Proof.
  induction 1 as [|b bytes Hb _ IH]; [reflexivity|].
  cbn [flat_map]. rewrite <- app_assoc.
  rewrite plus_to_space_pct, percent_decode_pct by assumption.
  cbn [app]. now rewrite IH.
Qed.

Lemma scalar_small cp : scalar_value cp -> (cp < 4194304)%N.
Proof. intros [H _]. lia. Qed.

(** Undoing the escapes of an encoded string gives the UTF-8 octets of the
    string. *)
Lemma encoded_octets s enc :
  encodeURIComponent s = Returned enc -> units s ->
  percent_decode (plus_to_space enc) = Reference.utf8_octets s.
Proof.
  revert s enc.
  apply (encode_ind (fun s enc => units s ->
           percent_decode (plus_to_space enc) = Reference.utf8_octets s)).
  - reflexivity.
  - intros c t r Hc _ IH Hu. inversion Hu as [|? ? Hc16 Ht]; subst.
    destruct (unreserved_ascii c Hc) as ((Ha & H37 & H38 & H43 & H61) & Hh & Hl).
    cbn [Reference.utf8_octets plus_to_space map percent_decode].
    rewrite Hh, Hl.
    apply N.eqb_neq in H43, H37. rewrite H43, H37.
    unfold Reference.octets. destruct (N.ltb_spec c 128); [|lia].
    cbn [app]. f_equal. now apply IH.
  - intros c d t r _ Hh Hl _ IH Hu.
    inversion Hu as [|? ? Hc16 Ht]; subst.
    inversion Ht as [|? ? Hd16 Ht']; subst.
    cbn [Reference.utf8_octets]. rewrite Hh, Hl, utf8_pct.
    rewrite unescape_octets
      by (apply octets_bytes, scalar_small, pair_scalar; assumption).
    f_equal. now apply IH.
  - intros c t r _ Hh Hl _ IH Hu. inversion Hu as [|? ? Hc16 Ht]; subst.
    cbn [Reference.utf8_octets]. rewrite Hh, Hl, utf8_pct.
    rewrite unescape_octets by (apply octets_bytes; lia).
    f_equal. now apply IH.
Qed.

(** An encoded string is ASCII without [&]. *)
Definition quiet (c : N) : Prop := (c < 128 /\ c <> 38)%N.

Lemma pct_quiet b : (b < 256)%N -> Forall quiet (pct b).
Proof.
  intros H. unfold pct.
  assert (H1 : (b / 16 < 16)%N) by div_lia.
  assert (H2 : (b mod 16 < 16)%N) by div_lia.
  destruct (hexdigit_quiet H1) as (? & _ & ? & _).
  destruct (hexdigit_quiet H2) as (? & _ & ? & _).
  repeat constructor; (lia || assumption).
Qed.

Lemma escapes_quiet bytes :
  Forall (fun b => b < 256)%N bytes -> Forall quiet (flat_map pct bytes).
Proof.
  induction 1; cbn [flat_map]; [constructor|].
  apply Forall_app. split; [now apply pct_quiet|assumption].
Qed.

Lemma encoded_quiet s enc :
  encodeURIComponent s = Returned enc -> units s -> Forall quiet enc.
Proof.
  revert s enc.
  apply (encode_ind (fun s enc => units s -> Forall quiet enc)).
  - constructor.
  - intros c t r Hc _ IH Hu. inversion Hu; subst.
    destruct (unreserved_ascii c Hc) as ((Ha & H37 & H38 & H43 & H61) & _).
    constructor; [split; assumption|now apply IH].
  - intros c d t r _ Hh Hl _ IH Hu.
    inversion Hu as [|? ? Hc16 Ht]; subst.
    inversion Ht as [|? ? Hd16 Ht']; subst.
    apply Forall_app. split; [|now apply IH].
    rewrite utf8_pct.
    apply escapes_quiet, octets_bytes, scalar_small, pair_scalar; assumption.
  - intros c t r _ Hh Hl _ IH Hu. inversion Hu as [|? ? Hc16 Ht]; subst.
    apply Forall_app. split; [|now apply IH].
    rewrite utf8_pct. apply escapes_quiet, octets_bytes. lia.
Qed.

Lemma ascii_octets l :
  Forall (fun c => c < 128)%N l -> Reference.utf8_octets l = l.
Proof.
  induction 1 as [|c l Hc _ IH]; [reflexivity|].
  cbn [Reference.utf8_octets].
  assert (Hh : high_surrogate c = false).
  { unfold high_surrogate. destruct (N.leb_spec 55296 c); [lia|reflexivity]. }
  assert (Hl : low_surrogate c = false).
  { unfold low_surrogate. destruct (N.leb_spec 56320 c); [lia|reflexivity]. }
  rewrite Hh, Hl, IH. unfold Reference.octets.
  now destruct (N.ltb_spec c 128); [|lia].
Qed.

Lemma split_on_none sep l :
  Forall (fun c => c <> sep) l -> split_on sep l = [l].
Proof.
  induction 1 as [|c l Hc _ IH]; [reflexivity|].
  cbn [split_on]. apply N.eqb_neq in Hc. now rewrite Hc, IH.
Qed.

(** ASCII without [+] and [%]: what the parser leaves as it is. *)
Definition literal (c : N) : Prop := (c < 128 /\ c <> 43 /\ c <> 37)%N.

Lemma decode_ascii l :
  Forall (fun c => c < 128)%N l -> utf8_decode l = l.
Proof.
  unfold utf8_decode. induction 1 as [|c l Hc _ IH]; [reflexivity|].
  rewrite decode1 by lia. cbn [flat_map]. rewrite IH.
  now rewrite utf16_unit by lia.
Qed.

Lemma form_decode_plain l : Forall literal l -> form_decode l = l.
Proof.
  intros H. unfold form_decode.
  assert (H1 : plus_to_space l = l).
  { induction H as [|c l (_ & Hc & _) _ IH]; [reflexivity|].
    cbn [plus_to_space map]. apply N.eqb_neq in Hc. rewrite Hc.
    f_equal. exact IH. }
  assert (H2 : percent_decode l = l).
  { clear H1. induction H as [|c l (_ & _ & Hc) _ IH]; [reflexivity|].
    cbn [percent_decode]. apply N.eqb_neq in Hc. rewrite Hc.
    f_equal. exact IH. }
  rewrite H1, H2. apply decode_ascii.
  eapply Forall_impl; [|exact H]. now intros c (Hc & _).
Qed.

Lemma cut_at name value :
  Forall (fun c => c <> 61)%N name -> cut (name ++ 61%N :: value) = (name, value).
Proof.
  induction 1 as [|c l Hc _ IH]; [reflexivity|].
  cbn [app cut]. apply N.eqb_neq in Hc. now rewrite Hc, IH.
Qed.

(** What the parser makes of [name=value] when the name is plain and the
    value is ASCII without [&]. *)
Lemma parse_pair name value :
  name <> [] ->
  Forall (fun c => literal c /\ c <> 38 /\ c <> 61)%N name ->
  Forall quiet value ->
  parse (name ++ 61%N :: value) = [(name, form_decode value)].
Proof.
  intros Hne Hn Hv. unfold parse.
  rewrite ascii_octets.
  2:{ apply Forall_app. split.
      - eapply Forall_impl; [|exact Hn]. now intros c ((Hc & _) & _).
      - constructor; [lia|].
        eapply Forall_impl; [|exact Hv]. now intros c (Hc & _). }
  rewrite split_on_none.
  2:{ apply Forall_app. split.
      - eapply Forall_impl; [|exact Hn]. now intros c (_ & Hc & _).
      - constructor; [lia|].
        eapply Forall_impl; [|exact Hv]. now intros c (_ & Hc). }
  cbn [flat_map]. rewrite app_nil_r.
  destruct name as [|c name]; [contradiction|]. cbn [app].
  change (c :: name ++ 61%N :: value) with ((c :: name) ++ 61%N :: value).
  rewrite cut_at.
  2:{ eapply Forall_impl; [|exact Hn]. now intros x (_ & _ & Hx). }
  rewrite (form_decode_plain (l := c :: name)); [reflexivity|].
  eapply Forall_impl; [|exact Hn]. now intros x (Hx & _).
Qed.

(** A string without [%] is its own decoding. *)
Lemma decode_without_percent s :
  Forall (fun c => c <> 37)%N s -> decodeURIComponent s = Returned s.
Proof.
  unfold decodeURIComponent. induction 1 as [|c s Hc _ IH]; [reflexivity|].
  cbn [length decode_fuel]. apply N.eqb_neq in Hc. rewrite Hc, IH.
  reflexivity.
Qed.


(** What [URLSearchParams] makes of the fragment [#name=value]. *)
Lemma fragment_params name value :
  name <> [] ->
  Forall (fun c => literal c /\ c <> 38 /\ c <> 61 /\ c <> 63)%N name ->
  Forall quiet value ->
  URLSearchParams (skipn 1 (35%N :: name ++ 61%N :: value))
  = [(name, form_decode value)].
Proof.
  intros Hne Hn Hv. cbn [skipn]. unfold URLSearchParams.
  destruct name as [|c name]; [contradiction|]. cbn [app].
  inversion Hn as [|? ? (_ & _ & _ & Hc) _]; subst.
  apply N.eqb_neq in Hc. rewrite Hc.
  change (c :: name ++ 61%N :: value) with ((c :: name) ++ 61%N :: value).
  apply parse_pair; [discriminate| |assumption].
  eapply Forall_impl; [|exact Hn]. now intros x (H1 & H2 & H3 & _).
Qed.

Lemma name_error :
  Forall (fun c => literal c /\ c <> 38 /\ c <> 61 /\ c <> 63)%N (js "error").
Proof. repeat constructor; unfold literal; try lia; discriminate. Qed.

Lemma name_token :
  Forall (fun c => literal c /\ c <> 38 /\ c <> 61 /\ c <> 63)%N (js "token").
Proof. repeat constructor; unfold literal; try lia; discriminate. Qed.

End FormFacts.

(* ================================================================== *)
(** * routes/github.js: GET /login *)

Module Login.
Import Uri Utf8 Unescape Form Utf8Facts FormFacts.

Section Handler.
Variable env : Env.
(** [process.env.GITHUB_REDIRECT_URI] *)
Variable GITHUB_REDIRECT_URI : option jsstring.

Definition oauth_not_configured : response :=
  Json 500
    (JObj [ (js "error", JStr (js "GitHub OAuth not configured"));
            (js "message",
              JStr (js "Missing GITHUB_CLIENT_ID or GITHUB_REDIRECT_URI environment variables")) ]).

Definition authorize : jsstring :=
  js "https://github.com/login/oauth/authorize".

(** The value of a variable that is set. *)
Definition value (v : option jsstring) : jsstring :=
  match v with
  | Some s => s
  | None => []
  end.

(** The four parameters, in the order in which they are appended. *)
Definition parameters : list (jsstring * jsstring) :=
  [ (js "client_id", value (GITHUB_CLIENT_ID env));
    (js "redirect_uri", value GITHUB_REDIRECT_URI);
    (js "scope", js "repo");
    (js "allow_signup", js "true") ].

(** The handler: the address of GitHub's authorization page, with the query
    that [searchParams] serializes. *)
Definition login : response :=
  if unset (GITHUB_CLIENT_ID env) || unset GITHUB_REDIRECT_URI
  then oauth_not_configured
  else Redirect (authorize ++ js "?" ++ serialize parameters).

End Handler.

(** ** The query says what was configured *)

Definition all_ascii (s : jsstring) : Prop := Forall (fun c => c < 128)%N s.

Lemma form_byte_quiet b :
  (b < 128)%N ->
  Forall (fun c => c < 128 /\ c <> 38 /\ c <> 61)%N (form_byte b).
Proof.
  intros Hb. unfold form_byte.
  destruct (N.eqb_spec b 32); [repeat constructor; lia|].
  destruct (form_safe b) eqn:Es.
  - repeat constructor; try assumption.
    + intros ->. discriminate Es.
    + intros ->. discriminate Es.
  - unfold pct.
    assert (H1 : (b / 16 < 16)%N) by div_lia.
    assert (H2 : (b mod 16 < 16)%N) by div_lia.
    destruct (hexdigit_quiet H1) as (? & _ & ? & _ & ?).
    destruct (hexdigit_quiet H2) as (? & _ & ? & _ & ?).
    repeat constructor; (lia || assumption).
Qed.

Lemma form_encode_quiet s :
  all_ascii s -> Forall (fun c => c < 128 /\ c <> 38 /\ c <> 61)%N (form_encode s).
Proof.
  intros H. unfold form_encode. rewrite ascii_octets by exact H.
  induction H as [|c s Hc _ IH]; cbn [flat_map]; [constructor|].
  apply Forall_app. split; [now apply form_byte_quiet|exact IH].
Qed.

Lemma form_safe_plain b :
  form_safe b = true -> (b <> 43 /\ b <> 37)%N.
Proof. intros H. split; intros ->; discriminate H. Qed.

(** Decoding undoes the serializer. *)
Lemma form_round_trip s : all_ascii s -> form_decode (form_encode s) = s.
Proof.
  intros H. unfold form_decode, form_encode.
  rewrite ascii_octets by exact H.
  assert (Hd : percent_decode (plus_to_space (flat_map form_byte s)) = s).
  { induction H as [|c s Hc _ IH]; [reflexivity|]. cbn [flat_map].
    unfold form_byte at 1.
    destruct (N.eqb_spec c 32) as [->|Hsp].
    { cbn [app plus_to_space map percent_decode N.eqb Pos.eqb].
      f_equal. exact IH. }
    destruct (form_safe c) eqn:Es.
    - destruct (form_safe_plain _ Es) as [H43 H37].
      cbn [app plus_to_space map percent_decode].
      apply N.eqb_neq in H43, H37. rewrite H43, H37. f_equal. exact IH.
    - rewrite plus_to_space_pct, percent_decode_pct by lia.
      f_equal. exact IH. }
  rewrite Hd. now apply decode_ascii.
Qed.

Lemma octets_app_ascii a b :
  all_ascii a -> Reference.utf8_octets (a ++ b) = a ++ Reference.utf8_octets b.
Proof.
  induction 1 as [|c a Hc _ IH]; [reflexivity|].
  cbn [app Reference.utf8_octets].
  assert (Hh : high_surrogate c = false).
  { unfold high_surrogate. destruct (N.leb_spec 55296 c); [lia|reflexivity]. }
  assert (Hl : low_surrogate c = false).
  { unfold low_surrogate. destruct (N.leb_spec 56320 c); [lia|reflexivity]. }
  rewrite Hh, Hl, IH. unfold Reference.octets.
  now destruct (N.ltb_spec c 128); [|lia].
Qed.

Lemma split_on_app sep a b :
  Forall (fun c => c <> sep) a ->
  split_on sep (a ++ sep :: b) = a :: split_on sep b.
Proof.
  induction 1 as [|c a Hc _ IH].
  - cbn [app split_on]. now rewrite N.eqb_refl.
  - cbn [app split_on]. apply N.eqb_neq in Hc. now rewrite Hc, IH.
Qed.

(** The parser on [name=value&rest]. *)
Lemma parse_more name value rest :
  name <> [] ->
  Forall (fun c => literal c /\ c <> 38 /\ c <> 61)%N name ->
  Forall (fun c => c < 128 /\ c <> 38 /\ c <> 61)%N value ->
  parse (name ++ 61%N :: value ++ 38%N :: rest)
  = (name, form_decode value) :: parse rest.
Proof.
  intros Hne Hn Hv. unfold parse.
  replace (name ++ 61%N :: value ++ 38%N :: rest)
    with ((name ++ 61%N :: value) ++ 38%N :: rest)
    by (rewrite <- app_assoc; reflexivity).
  assert (Ha : all_ascii (name ++ 61%N :: value)).
  { apply Forall_app. split.
    - eapply Forall_impl; [|exact Hn]. now intros c ((Hc & _) & _).
    - constructor; [lia|].
      eapply Forall_impl; [|exact Hv]. now intros c (Hc & _). }
  replace (38%N :: rest) with ([38%N] ++ rest) by reflexivity.
  rewrite app_assoc, octets_app_ascii.
  2:{ apply Forall_app. split; [exact Ha|repeat constructor; lia]. }
  rewrite <- app_assoc. cbn [app]. rewrite split_on_app.
  2:{ apply Forall_app. split.
      - eapply Forall_impl; [|exact Hn]. now intros c (_ & Hc & _).
      - constructor; [lia|].
        eapply Forall_impl; [|exact Hv]. now intros c (_ & Hc & _). }
  cbn [flat_map]. f_equal.
  destruct name as [|c name]; [contradiction|]. cbn [app].
  change (c :: name ++ 61%N :: value) with ((c :: name) ++ 61%N :: value).
  rewrite cut_at.
  2:{ eapply Forall_impl; [|exact Hn]. now intros x (_ & _ & Hx). }
  rewrite (form_decode_plain (l := c :: name)); [reflexivity|].
  eapply Forall_impl; [|exact Hn]. now intros x (Hx & _).
Qed.

Lemma quiet_value value :
  Forall (fun c => c < 128 /\ c <> 38 /\ c <> 61)%N value -> Forall quiet value.
Proof. intros H. eapply Forall_impl; [|exact H]. now intros c (H1 & H2 & _). Qed.

Ltac name_ok := repeat constructor; unfold literal; try lia; discriminate.

Section Query.
Variable env : Env.
Variable GITHUB_REDIRECT_URI : option jsstring.

(** When the client identifier and the redirect address are set (and are
    ASCII), the handler redirects to GitHub's authorization page with a
    query that reads back as exactly four parameters: the two configured
    values unchanged, [scope=repo] and [allow_signup=true].  No character
    of a configured value can add or cut a parameter. *)
Theorem login_query_round_trip id uri :
  GITHUB_CLIENT_ID env = Some id -> GITHUB_REDIRECT_URI = Some uri ->
  id <> [] -> uri <> [] -> all_ascii id -> all_ascii uri ->
  exists query,
    login env GITHUB_REDIRECT_URI = Redirect (authorize ++ js "?" ++ query) /\
    URLSearchParams (js "?" ++ query)
    = [ (js "client_id", id); (js "redirect_uri", uri);
        (js "scope", js "repo"); (js "allow_signup", js "true") ].
Proof.
  intros Hid Huri Hne1 Hne2 Ha1 Ha2.
  exists (serialize (parameters env GITHUB_REDIRECT_URI)). split.
  - unfold login. rewrite Hid, Huri.
    destruct id; [contradiction|]. destruct uri; [contradiction|].
    reflexivity.
  - unfold parameters. rewrite Hid, Huri. cbn [value serialize].
    change (URLSearchParams (js "?" ++ ?q)) with (parse q).
    change (form_encode (js "client_id")) with (js "client_id").
    change (form_encode (js "redirect_uri")) with (js "redirect_uri").
    change (form_encode (js "scope")) with (js "scope").
    change (form_encode (js "repo")) with (js "repo").
    change (form_encode (js "allow_signup")) with (js "allow_signup").
    change (form_encode (js "true")) with (js "true").
    repeat match goal with
           | |- context [js "=" ++ ?x] =>
               change (js "=" ++ x) with (61%N :: x)
           | |- context [js "&" ++ ?x] =>
               change (js "&" ++ x) with (38%N :: x)
           end.
    rewrite parse_more; [|discriminate|name_ok|now apply form_encode_quiet].
    rewrite parse_more; [|discriminate|name_ok|now apply form_encode_quiet].
    rewrite !form_round_trip by assumption.
    reflexivity.
Qed.

End Query.

End Login.

(* ================================================================== *)
(** * client/src/services/api.ts *)

Module Client.
Import Uri Utf8 Unescape Utf8Facts FormFacts.

(** [String.prototype.endsWith] *)
Definition endsWith (suffix s : jsstring) : bool :=
  startsWith (rev suffix) (rev s).

(** ** The address of an endpoint *)

Section Address.
(** [import.meta.env?.VITE_API_URL] *)
Variable VITE_API_URL : option jsstring.

Definition API_BASE_URL : jsstring := env_or VITE_API_URL (js "/api").

Definition getApiUrl (endpoint : jsstring) : jsstring :=
  let cleanEndpoint :=
    if startsWith (js "/") endpoint then endpoint else js "/" ++ endpoint in
  if startsWith (js "http") API_BASE_URL then
    if endsWith (js "/api") API_BASE_URL then API_BASE_URL ++ cleanEndpoint
    else if endsWith (js "/") API_BASE_URL
    then API_BASE_URL ++ js "api" ++ cleanEndpoint
    else API_BASE_URL ++ js "/api" ++ cleanEndpoint
  else
    let base :=
      if startsWith (js "/api") API_BASE_URL then API_BASE_URL
      else js "/api" in
    base ++ cleanEndpoint.

End Address.

(** ** The page and its storage *)

(** What the functions read and write of the browser: the fragment and the
    query of the address, as [location.hash] and [location.search] give
    them, and the local storage. *)
Record Window := mkWindow {
  hash : jsstring;
  search : jsstring;
  localStorage : list (jsstring * jsstring)
}.

Fixpoint getItem (store : list (jsstring * jsstring)) (key : jsstring)
  : option jsstring :=
  match store with
  | [] => None
  | (k, v) :: rest => if Str.eqb k key then Some v else getItem rest key
  end.

Fixpoint removeItem (store : list (jsstring * jsstring)) (key : jsstring)
  : list (jsstring * jsstring) :=
  match store with
  | [] => []
  | (k, v) :: rest =>
      if Str.eqb k key then removeItem rest key
      else (k, v) :: removeItem rest key
  end.

Definition setItem (store : list (jsstring * jsstring)) (key value : jsstring)
  : list (jsstring * jsstring) :=
  (key, value) :: removeItem store key.

(** [if (v)] for a string or [null] *)
Definition present (v : option jsstring) : option jsstring :=
  match v with
  | Some (c :: s) => Some (c :: s)
  | _ => None
  end.

(** [window.location.hash = ''] *)
Definition clear_hash (w : Window) : Window :=
  mkWindow [] (search w) (localStorage w).

(** [window.history.replaceState({}, document.title,
    window.location.pathname)]: the address keeps its path only. *)
Definition replaceState (w : Window) : Window :=
  mkWindow [] [] (localStorage w).

Definition store (w : Window) (key value : jsstring) : Window :=
  mkWindow (hash w) (search w) (setItem (localStorage w) key value).

Definition unstore (w : Window) (key : jsstring) : Window :=
  mkWindow (hash w) (search w) (removeItem (localStorage w) key).

(** ** The token after the OAuth callback *)

(** The function returns the token or [null], or throws, and leaves the
    page in a new state. *)
Definition getGitHubTokenFromURL (w : Window)
  : result (option jsstring) * Window :=
  let query (w : Window) :=
    (* Fallback to query params (old method) *)
    let params := Form.URLSearchParams (search w) in
    match present (Form.get params (js "error")) with
    | Some error =>
        match decodeURIComponent error with           (* console.error *)
        | Threw e => (Threw e, w)
        | Returned _ =>
            match decodeURIComponent error with
            | Threw e => (Threw e, w)
            | Returned shown =>
                let w := store w (js "github_oauth_error") shown in
                (Returned None, replaceState w)
            end
        end
    | None =>
        match present (Form.get params (js "token")) with
        | Some token => (Returned (Some token), replaceState w)
        | None => (Returned None, w)
        end
    end in
  match hash w with
  | [] => query w
  | _ :: _ =>
      (* Check hash first (new method) *)
      let hashParams := Form.URLSearchParams (skipn 1 (hash w)) in
      match present (Form.get hashParams (js "error")) with
      | Some error =>
          match decodeURIComponent error with         (* console.error *)
          | Threw e => (Threw e, w)
          | Returned _ =>
              let w := clear_hash w in
              match decodeURIComponent error with
              | Threw e => (Threw e, w)
              | Returned shown =>
                  (Returned None, store w (js "github_oauth_error") shown)
              end
          end
      | None =>
          match present (Form.get hashParams (js "token")) with
          | Some token => (Returned (Some token), clear_hash w)
          | None => query w
          end
      end
  end.

(** Get and clear the OAuth error message. *)
Definition getGitHubOAuthError (w : Window) : option jsstring * Window :=
  match present (getItem (localStorage w) (js "github_oauth_error")) with
  | Some error => (Some error, unstore w (js "github_oauth_error"))
  | None => (None, w)
  end.

Definition storeGitHubToken (token : jsstring) (w : Window) : Window :=
  store w (js "github_token") token.

Definition getStoredGitHubToken (w : Window) : option jsstring :=
  getItem (localStorage w) (js "github_token").

Definition clearGitHubToken (w : Window) : Window :=
  unstore w (js "github_token").

(** ** Calls to the backend *)

(** A value thrown in the page: whether it is a [TypeError], and its
    message. *)
Record exception := mkException {
  isTypeError : bool;
  description : jsstring
}.

(** A promise once settled. *)
Inductive settled (A : Type) :=
| Fulfilled (a : A)
| Rejected (e : exception).
Arguments Fulfilled {A} a.
Arguments Rejected {A} e.

(** What the functions use of a [Response]. *)
Record Response := mkResponse {
  ok : bool;
  status : N;
  json : settled JsVal             (* await response.json() *)
}.

(** A call to [fetch]. *)
Record fetch_call := mkFetch {
  address : jsstring;
  verb : jsstring;
  head : list (jsstring * jsstring);
  content : option JsVal           (* the object given to JSON.stringify *)
}.

(** A [TypeError] of the engine, as the page sees it. *)
Definition engine (e : error) : exception :=
  mkException true match message e with Some m => m | None => [] end.

Section Calls.
Context {rt : Runtime}.
Variable VITE_API_URL : option jsstring.

(** The lines that follow [if (!response.ok)]: the body of the response, or
    the fallback object when it cannot be read, and the error thrown with
    what its [error] property holds, or with the status. *)
Definition refuse (fallback : jsstring) (response : Response) : exception :=
  let error :=
    match json response with
    | Fulfilled v => v
    | Rejected _ => JObj [ (js "error", JStr fallback) ]
    end in
  match get error (js "error") with
  | Threw e => engine e
  | Returned v =>
      match ToString (js_or v (JStr (js "HTTP error! status: "
                                    ++ decimal (status response)))) with
      | Returned m => mkException false m
      | Threw e => engine e
      end
  end.

Definition connection_failed : jsstring :=
  js "The Reaper could not be summoned" ++ Gemini.ellipsis
  ++ js " failed to connect to server. Please ensure the backend is running.".

(** [reviewCode(code, language)] of the page.  The promise of the body is
    returned without being awaited, so its rejection does not pass through
    the [catch]. *)
Definition reviewCode (code language : jsstring)
  : Prog fetch_call (settled Response) (settled JsVal) :=
  Ask (mkFetch (getApiUrl VITE_API_URL (js "/review")) (js "POST")
         [ (js "Content-Type", js "application/json") ]
         (Some (JObj [ (js "code", JStr code);
                       (js "language", JStr language) ])))
    (fun a =>
       let caught (error : exception) : settled JsVal :=
         if isTypeError error && includes (js "fetch") (description error)
         then Rejected (mkException false connection_failed)
         else Rejected error in
       Ret match a with
           | Rejected e => caught e
           | Fulfilled response =>
               if negb (ok response)
               then caught (refuse (js "Failed to review code") response)
               else json response
           end).

(** [fetchGitHubRepos(token)] *)
Definition fetchGitHubRepos (token : jsstring)
  : Prog fetch_call (settled Response) (settled JsVal) :=
  Ask (mkFetch (getApiUrl VITE_API_URL (js "/github/repos")) (js "GET")
         [ (js "Authorization", js "Bearer " ++ token);
           (js "Content-Type", js "application/json") ]
         None)
    (fun a =>
       Ret match a with
           | Rejected e => Rejected e
           | Fulfilled response =>
               if negb (ok response)
               then Rejected (refuse (js "Failed to fetch repositories")
                                response)
               else json response
           end).

(** [createPullRequest(token, owner, repo, filePath, improvedCode, category,
    explanation)] *)
Definition createPullRequest
  (token owner repo filePath improvedCode category explanation : jsstring)
  : Prog fetch_call (settled Response) (settled JsVal) :=
  Ask (mkFetch (getApiUrl VITE_API_URL (js "/github/pull-request")) (js "POST")
         [ (js "Content-Type", js "application/json") ]
         (Some (JObj [ (js "accessToken", JStr token);
                       (js "owner", JStr owner);
                       (js "repo", JStr repo);
                       (js "filePath", JStr filePath);
                       (js "improvedCode", JStr improvedCode);
                       (js "category", JStr category);
                       (js "explanation", JStr explanation) ])))
    (fun a =>
       Ret match a with
           | Rejected e => Rejected e
           | Fulfilled response =>
               if negb (ok response)
               then Rejected (refuse (js "Failed to create pull request")
                                response)
               else json response
           end).

End Calls.

(** ** The address keeps its prefix *)

Lemma endsWith_spec suffix s :
  endsWith suffix s = true <-> exists p, s = p ++ suffix.
Proof.
  unfold endsWith. rewrite startsWith_spec. split.
  - intros [t Ht]. exists (rev t).
    rewrite <- (rev_involutive s), Ht, rev_app_distr.
    now rewrite rev_involutive.
  - intros [p ->]. exists (rev p). apply rev_app_distr.
Qed.

(** [cleanEndpoint]: the endpoint with a leading slash. *)
Definition cleaned (endpoint : jsstring) : jsstring :=
  if startsWith (js "/") endpoint then endpoint else js "/" ++ endpoint.

(** Whatever VITE_API_URL is, the address is the endpoint, with its leading
    slash, after a prefix that ends with [/api] when the base is absolute
    and starts with [/api] when it is relative; without VITE_API_URL the
    prefix is [/api]. *)
Theorem getApiUrl_keeps_api_prefix VITE_API_URL endpoint :
  exists prefix,
    getApiUrl VITE_API_URL endpoint = prefix ++ cleaned endpoint /\
    (if startsWith (js "http") (API_BASE_URL VITE_API_URL)
     then endsWith (js "/api") prefix = true
     else startsWith (js "/api") prefix = true) /\
    (VITE_API_URL = None -> prefix = js "/api").
Proof.
  unfold getApiUrl. fold (cleaned endpoint).
  set (base := API_BASE_URL VITE_API_URL).
  assert (Hnone : VITE_API_URL = None -> base = js "/api").
  { intros ->. reflexivity. }
  destruct (startsWith (js "http") base) eqn:Eh.
  - assert (Hn : VITE_API_URL <> None).
    { intros H. rewrite (Hnone H) in Eh. discriminate Eh. }
    destruct (endsWith (js "/api") base) eqn:Ea.
    { exists base. repeat split; [assumption|]. intros H. contradiction. }
    destruct (endsWith (js "/") base) eqn:Es.
    + exists (base ++ js "api"). split; [now rewrite <- app_assoc|].
      split; [|intros H; contradiction].
      apply endsWith_spec in Es as [p ->]. apply endsWith_spec.
      exists p. now rewrite <- app_assoc.
    + exists (base ++ js "/api"). split; [now rewrite <- app_assoc|].
      split; [|intros H; contradiction].
      apply endsWith_spec. now exists base.
  - destruct (startsWith (js "/api") base) eqn:Ea.
    + exists base. repeat split; assumption.
    + exists (js "/api"). repeat split.
Qed.

(** ** The fragment that the callback wrote *)

(** The characters of a token that reach the page as they are: ASCII
    without [&], [+] and [%]. *)
Definition verbatim (c : N) : Prop :=
  (c < 128 /\ c <> 38 /\ c <> 43 /\ c <> 37)%N.

(** The token that the callback puts after [#token=] is the token that the
    page reads, and the fragment is cleared. *)
Theorem oauth_token_round_trip w t :
  t <> [] -> Forall verbatim t -> hash w = js "#token=" ++ t ->
  getGitHubTokenFromURL w = (Returned (Some t), clear_hash w).
Proof.
  intros Hne Ht Hh. unfold getGitHubTokenFromURL. rewrite Hh.
  change (js "#token=" ++ t) with (35%N :: js "token" ++ 61%N :: t).
  rewrite fragment_params; [|discriminate|exact name_token|].
  2:{ eapply Forall_impl; [|exact Ht]. now intros c (H1 & H2 & _). }
  rewrite form_decode_plain.
  2:{ eapply Forall_impl; [|exact Ht]. now intros c (H1 & _ & H2 & H3). }
  cbn [Form.get]. replace (Str.eqb (js "token") (js "error")) with false
    by (symmetry; now vm_compute).
  rewrite Str.eqb_refl. destruct t as [|c t]; [contradiction|]. reflexivity.
Qed.

(** The message that the callback encodes after [#error=] reaches the page
    decoded; the page decodes it once more, stores the outcome for display
    and clears the fragment - or fails, and changes nothing, when the
    message does not survive a second decoding.  A message without [%] is
    stored as it was. *)
Theorem oauth_error_round_trip w msg enc :
  msg <> [] -> units msg -> encodeURIComponent msg = Returned enc ->
  hash w = js "#error=" ++ enc ->
  getGitHubTokenFromURL w
  = match decodeURIComponent msg with
    | Returned shown =>
        (Returned None,
         store (clear_hash w) (js "github_oauth_error") shown)
    | Threw e => (Threw e, w)
    end
  /\ (Forall (fun c => c <> 37)%N msg ->
      decodeURIComponent msg = Returned msg).
Proof.
  intros Hne Hu He Hh. split; [|apply decode_without_percent].
  unfold getGitHubTokenFromURL. rewrite Hh.
  change (js "#error=" ++ enc) with (35%N :: js "error" ++ 61%N :: enc).
  rewrite fragment_params;
    [|discriminate|exact name_error|now apply encoded_quiet with msg].
  unfold Form.form_decode. rewrite (encoded_octets He Hu).
  rewrite (utf8_round_trip He Hu).
  cbn [Form.get]. rewrite Str.eqb_refl.
  destruct msg as [|c msg]; [contradiction|]. cbn [present].
  destruct (decodeURIComponent (c :: msg)); reflexivity.
Qed.

Lemma getItem_removeItem st key : getItem (removeItem st key) key = None.
Proof.
  induction st as [|[k v] st IH]; [reflexivity|]. cbn [removeItem].
  destruct (Str.eqb k key) eqn:E; [exact IH|]. cbn [getItem]. now rewrite E.
Qed.

Lemma getItem_removeItem_other st key key' :
  key <> key' -> getItem (removeItem st key) key' = getItem st key'.
Proof.
  intros Hne. induction st as [|[k v] st IH]; [reflexivity|].
  cbn [removeItem getItem]. destruct (Str.eqb k key) eqn:E.
  - apply Str.eqb_eq in E. subst k.
    destruct (Str.eqb key key') eqn:E'; [|exact IH].
    apply Str.eqb_eq in E'. contradiction.
  - cbn [getItem]. now rewrite IH.
Qed.

(** The stored message is handed out once: the first reading returns it
    and removes it, a second reading finds nothing, and the stored token
    is not touched. *)
Theorem oauth_error_read_once w shown :
  shown <> [] ->
  let w1 := store w (js "github_oauth_error") shown in
  let '(first, w2) := getGitHubOAuthError w1 in
  first = Some shown /\
  fst (getGitHubOAuthError w2) = None /\
  getStoredGitHubToken w2 = getStoredGitHubToken w.
Proof.
  intros Hne. cbv zeta. unfold getGitHubOAuthError at 1. unfold store.
  cbn [localStorage]. unfold setItem at 1. cbn [getItem].
  rewrite Str.eqb_refl.
  destruct shown as [|c shown]; [contradiction|]. cbn [present].
  split; [reflexivity|]. split.
  - unfold getGitHubOAuthError, unstore. cbn [localStorage].
    now rewrite getItem_removeItem.
  - unfold getStoredGitHubToken, unstore. cbn [localStorage].
    rewrite getItem_removeItem_other
      by (intros H; vm_compute in H; discriminate H).
    unfold setItem. cbn [getItem].
    replace (Str.eqb (js "github_oauth_error") (js "github_token"))
      with false by (symmetry; now vm_compute).
    apply getItem_removeItem_other.
    intros H; vm_compute in H; discriminate H.
Qed.

(** ** What the page shows of a failure *)

(** The response of the server as [fetch] hands it to the page, for a body
    that JSON carries unchanged. *)
Definition delivered (sent : response) : Response :=
  match sent with
  | Json s body => mkResponse ((200 <=? s) && (s <=? 299))%N s (Fulfilled body)
  | Redirect _ => mkResponse false 0 (Rejected (mkException false []))
  end.

Section EndToEnd.
Context {rt : Runtime}.
Variable env : Env.
Variable VITE_API_URL : option jsstring.

Lemma message_or_filled e fallback :
  fallback <> [] -> Review.message_or e fallback <> [].
Proof.
  unfold Review.message_or. destruct (message e) as [[|c m]|]; try easy.
Qed.

Lemma handleError_body e :
  exists s m,
    Review.handleError e = Json s (Review.error_body m) /\ m <> [] /\
    (s = 429 \/ s = 500)%N.
Proof.
  unfold Review.handleError.
  destruct (_ || _).
  { eexists _, _. split; [reflexivity|]. split; [|now right].
    apply message_or_filled. discriminate. }
  destruct (_ || _ || _ || _).
  { eexists _, _. split; [reflexivity|]. split; [|now left].
    apply message_or_filled. discriminate. }
  eexists _, _. split; [reflexivity|]. split; [|now right].
  apply message_or_filled. discriminate.
Qed.

(** Every answer of POST /api/review other than a 200 carries an object
    with a non-empty [error]. *)
Lemma served_error_body body a s b :
  Pipeline.served env body a = Json s b -> s <> 200%N ->
  exists m, b = Review.error_body m /\ m <> [] /\
            (s = 400 \/ s = 429 \/ s = 500)%N.
Proof.
  unfold Pipeline.served, Pipeline.serve. rewrite Review.handler_cases.
  assert (Hfail : forall e, Review.handleError e = Json s b ->
            exists m, b = Review.error_body m /\ m <> [] /\
                      (s = 400 \/ s = 429 \/ s = 500)%N).
  { intros e H. destruct (handleError_body e) as (s' & m & Hm & Hne & Hs).
    rewrite Hm in H. injection H as <- <-. exists m. intuition. }
  destruct (Review.code_rejected _).
  { intros H _. injection H as <- <-. eexists. split; [reflexivity|].
    split; [discriminate|now left]. }
  destruct (Review.language_rejected _).
  { intros H _. injection H as <- <-. eexists. split; [reflexivity|].
    split; [discriminate|now left]. }
  destruct (Review.too_long _).
  { intros H _. injection H as <- <-. eexists. split; [reflexivity|].
    split; [discriminate|now left]. }
  cbn [Pipeline.link]. unfold Gemini.reviewCode.
  destruct (Gemini.key_missing env);
    cbn [Pipeline.pbind Pipeline.link interact fst Review.reply].
  { intros H _. now apply Hfail in H. }
  destruct (Gemini.review env a) as [v|e]; cbn [Review.reply];
    [|intros H _; now apply Hfail in H].
  destruct v; cbn [Review.respond]; intros H Hs;
    try (now apply Hfail in H); injection H as <- _; contradiction.
Qed.

(** Whatever the server answers to POST /api/review other than a 200, the
    page's [reviewCode] throws an [Error] whose message is the server's
    [error] text, unchanged. *)
Theorem page_shows_server_error body a s b code language :
  Pipeline.served env body a = Json s b -> s <> 200%N ->
  exists m,
    b = Review.error_body m /\
    fst (interact (reviewCode VITE_API_URL code language)
           (fun _ => Fulfilled (delivered (Json s b))) [])
    = Rejected (mkException false m).
Proof.
  intros H Hs.
  destruct (served_error_body _ _ H Hs) as (m & -> & Hne & Hcode).
  exists m. split; [reflexivity|].
  cbn [reviewCode interact fst delivered ok].
  assert (Hok : ((200 <=? s) && (s <=? 299))%N = false).
  { destruct Hcode as [-> |[-> | ->]]; reflexivity. }
  rewrite Hok. cbn [negb]. unfold refuse. cbn [json Review.error_body get].
  change (lookup [(js "error", JStr m)] (js "error")) with (JStr m).
  unfold js_or. destruct m as [|c m]; [contradiction|].
  cbn [truthy ToString isTypeError andb]. reflexivity.
Qed.

End EndToEnd.

End Client.

(* ================================================================== *)
(** * client/src/components/Demo.tsx: failures of a review *)

Module Demo.

(** Line 316: the test that starts the cooldown of the summon button. *)
Definition isRateLimited (errorMessage : jsstring) : bool :=
  includes (js "overwhelmed") errorMessage
  || includes (js "Too many requests") errorMessage
  || includes (js "429") errorMessage.

(** Lines 305-349: what the [catch] of [summonReaper] sets for an [Error]
    with the message given: the message shown, and the cooldown of ten
    seconds when the message is taken for a rate limit; otherwise the
    cooldown stays as it was. *)
Record notice := mkNotice {
  error_shown : option jsstring;
  rateLimited : bool;
  rateLimitCooldown : N
}.

Definition caught (before : notice) (errorMessage : jsstring) : notice :=
  if isRateLimited errorMessage then mkNotice (Some errorMessage) true 10
  else mkNotice (Some errorMessage) (rateLimited before)
         (rateLimitCooldown before).

Section Wording.
Context {rt : Runtime}.
Variable env : Env.

(** The provider's failure speaks of a quota, and not of the credential. *)
Definition exhausted (e : error) : Prop :=
  Gemini.mentions e "API key" || Gemini.mentions e "GEMINI_API_KEY"
    || Gemini.mentions e "API_KEY_NOT_VALID" = false /\
  Gemini.mentions e "quota" || Gemini.mentions e "429"
    || Gemini.mentions e "Too Many Requests"
    || Gemini.mentions e "RESOURCE_EXHAUSTED" = true.

(** It speaks of the daily limit of the free tier. *)
Definition daily (e : error) : bool :=
  Gemini.mentions e "free_tier_requests" || Gemini.mentions e "FreeTier"
  || Gemini.mentions e "limit: 200".

(** The page starts its cooldown by the wording of the message, not by the
    status: for a quota failure of the provider, the message that the server
    sends with its 429 starts the cooldown, unless the failure is the daily
    limit without a retry delay, whose message does not. *)
Theorem cooldown_follows_wording e m before :
  message e = Some m -> exhausted e ->
  exists sent,
    Gemini.mapError env e = Error sent /\
    (daily e = false ->
     caught before sent = mkNotice (Some sent) true 10) /\
    (daily e = true -> Gemini.retrySeconds m = None ->
     Review.handleError (Error sent) = Json 429 (Review.error_body sent) /\
     caught before sent
     = mkNotice (Some sent) (rateLimited before) (rateLimitCooldown before)).
Proof.
  intros Hm [Hkey Hquota]. unfold Gemini.mapError.
  rewrite Hkey, Hquota, Hm. fold (daily e).
  destruct (daily e).
  - eexists. split; [reflexivity|]. split; [discriminate|].
    intros _ ->. split; [reflexivity|]. reflexivity.
  - eexists. split; [reflexivity|]. split; [|discriminate].
    intros _. unfold caught, isRateLimited.
    rewrite includes_app_l by (vm_compute; reflexivity). reflexivity.
Qed.

End Wording.

End Demo.

(* ================================================================== *)
(** * client/src/App.tsx: the page after the OAuth callback *)

Module App.
Import Uri Utf8 Unescape Utf8Facts FormFacts Client.

(** The state that the effect sets. *)
Record state := mkState {
  hasGitHubToken : bool;
  githubError : option jsstring
}.

(** [!!v] for a string or [null] *)
Definition filled (v : option jsstring) : bool :=
  match v with
  | Some (_ :: _) => true
  | _ => false
  end.

(** Lines 20-49: the effect run when the page is mounted, up to the first
    check of the stored token. *)
Definition mounted (w : Window) : result state * Window :=
  match getGitHubTokenFromURL w with
  | (Threw e, w) => (Threw e, w)
  | (Returned token, w) =>
      match present token with
      | Some token =>
          let w := storeGitHubToken token w in
          (* Clean up URL *)
          let w := match hash w with [] => w | _ :: _ => clear_hash w end in
          let w := if includes (js "token=") (search w)
                   then replaceState w else w in
          (Returned (mkState (filled (getStoredGitHubToken w)) None), w)
      | None =>
          (* Check for OAuth errors *)
          let '(error, w) := getGitHubOAuthError w in
          (Returned (mkState (filled (getStoredGitHubToken w))
                       (present error)), w)
      end
  end.


Lemma getItem_setItem st key value :
  getItem (setItem st key value) key = Some value.
Proof. unfold setItem. cbn [getItem]. now rewrite Str.eqb_refl. Qed.

(** How the page lands after the callback.  After a grant, with the token
    [t] in the fragment, the token is stored, the page knows that it has
    one, no error is shown and the fragment is cleared.  After a refusal,
    with the encoded message in the fragment (a message without [%]), the
    message is shown, it is removed from the storage, the fragment is
    cleared, and the page has a token only if one was stored before. *)
Theorem callback_lands w :
  (forall t,
     t <> [] -> Forall verbatim t -> hash w = js "#token=" ++ t ->
     let '(outcome, w') := mounted w in
     outcome = Returned (mkState true None) /\
     getStoredGitHubToken w' = Some t /\ hash w' = []) /\
  (forall msg enc,
     msg <> [] -> units msg -> Forall (fun c => c <> 37)%N msg ->
     encodeURIComponent msg = Returned enc ->
     hash w = js "#error=" ++ enc ->
     let '(outcome, w') := mounted w in
     outcome = Returned (mkState (filled (getStoredGitHubToken w)) (Some msg)) /\
     getItem (localStorage w') (js "github_oauth_error") = None /\
     hash w' = []).
Proof.
  split.
  - intros t Hne Ht Hh. unfold mounted, getGitHubTokenFromURL. rewrite Hh.
    change (js "#token=" ++ t) with (35%N :: js "token" ++ 61%N :: t).
    rewrite fragment_params; [|discriminate|exact name_token|].
    2:{ eapply Forall_impl; [|exact Ht]. now intros c (H1 & H2 & _). }
    rewrite form_decode_plain.
    2:{ eapply Forall_impl; [|exact Ht]. now intros c (H1 & _ & H2 & H3). }
    cbn [Form.get]. replace (Str.eqb (js "token") (js "error")) with false
      by (symmetry; now vm_compute).
    rewrite Str.eqb_refl. destruct t as [|c t]; [contradiction|].
    cbn [present]. unfold storeGitHubToken, store, clear_hash.
    cbn [hash search localStorage].
    destruct (includes (js "token=") (search w));
      unfold getStoredGitHubToken, replaceState; cbn [localStorage hash];
      rewrite getItem_setItem; repeat split.
  - intros msg enc Hne Hu Hp He Hh.
    unfold mounted, getGitHubTokenFromURL. rewrite Hh.
    change (js "#error=" ++ enc) with (35%N :: js "error" ++ 61%N :: enc).
    rewrite fragment_params;
      [|discriminate|exact name_error|now apply encoded_quiet with msg].
    unfold Form.form_decode. rewrite (encoded_octets He Hu).
    rewrite (utf8_round_trip He Hu).
    cbn [Form.get]. rewrite Str.eqb_refl.
    destruct msg as [|c msg]; [contradiction|]. cbn [present].
    rewrite (decode_without_percent Hp).
    unfold getGitHubOAuthError, store, clear_hash.
    cbn [localStorage hash search]. rewrite getItem_setItem. cbn [present].
    unfold unstore, getStoredGitHubToken. cbn [localStorage hash].
    split; [|split; [apply getItem_removeItem|reflexivity]].
    rewrite getItem_removeItem_other
      by (intros H; vm_compute in H; discriminate H).
    unfold setItem. cbn [getItem].
    replace (Str.eqb (js "github_oauth_error") (js "github_token"))
      with false by (symmetry; now vm_compute).
    rewrite getItem_removeItem_other
      by (intros H; vm_compute in H; discriminate H).
    reflexivity.
Qed.

End App.

(* ================================================================== *)
(** * A sign-in, from the server to the page *)

Module Journey.
Import Uri Client.

Definition redirect_uri : jsstring :=
  js "http://localhost:3000/api/github/callback".

Lemma login_query_round_trip_witness :
  exists query,
    Login.login Pipeline.configured (Some redirect_uri)
    = Redirect (Login.authorize ++ js "?" ++ query) /\
    Form.URLSearchParams (js "?" ++ query)
    = [ (js "client_id", js "Iv1.example"); (js "redirect_uri", redirect_uri);
        (js "scope", js "repo"); (js "allow_signup", js "true") ].
Proof.
  apply (Login.login_query_round_trip Pipeline.configured
           (GITHUB_REDIRECT_URI := Some redirect_uri));
    try reflexivity; try discriminate;
    unfold Login.all_ascii; repeat constructor.
Defined.

(** The page as the callback leaves it after a grant. *)
Definition signed_in : Window :=
  mkWindow (js "#token=gho_example") [] [].

Lemma oauth_token_round_trip_witness :
  getGitHubTokenFromURL signed_in
  = (Returned (Some (js "gho_example")), clear_hash signed_in).
Proof.
  apply (oauth_token_round_trip signed_in (t := js "gho_example")).
  - discriminate.
  - repeat constructor; lia || discriminate.
  - reflexivity.
Defined.

(** The page as the callback leaves it after a refusal. *)
Definition refusal_text : jsstring :=
  js "GitHub OAuth failed: The code passed is incorrect or expired.".

Definition refusal_escaped : jsstring :=
  js "GitHub%20OAuth%20failed%3A%20The%20code%20passed%20is%20incorrect%20or%20expired.".

Definition turned_away : Window :=
  mkWindow (js "#error=" ++ refusal_escaped) [] [].

Lemma oauth_error_round_trip_witness :
  getGitHubTokenFromURL turned_away
  = match Unescape.decodeURIComponent refusal_text with
    | Returned shown =>
        (Returned None,
         store (clear_hash turned_away) (js "github_oauth_error") shown)
    | Threw e => (Threw e, turned_away)
    end
  /\ (Forall (fun c => c <> 37)%N refusal_text ->
      Unescape.decodeURIComponent refusal_text = Returned refusal_text).
Proof.
  apply (oauth_error_round_trip turned_away (msg := refusal_text)
           (enc := refusal_escaped)).
  - discriminate.
  - unfold Utf8Facts.units. repeat constructor.
  - vm_compute. reflexivity.
  - reflexivity.
Defined.

Lemma oauth_error_read_once_witness :
  let w1 := store (mkWindow [] [] []) (js "github_oauth_error") refusal_text in
  let '(first, w2) := getGitHubOAuthError w1 in
  first = Some refusal_text /\
  fst (getGitHubOAuthError w2) = None /\
  getStoredGitHubToken w2 = getStoredGitHubToken (mkWindow [] [] []).
Proof.
  apply (oauth_error_read_once (mkWindow [] [] []) (shown := refusal_text)).
  discriminate.
Defined.

(** A message with a percent sign does not survive the second decoding:
    the page throws, stores nothing and keeps the fragment. *)
Definition percent_text : jsstring := js "GitHub OAuth failed: 100% wrong".

Definition percent_page : Window :=
  mkWindow (js "#error=GitHub%20OAuth%20failed%3A%20100%25%20wrong") [] [].

Example percent_sign_breaks_the_page :
  encodeURIComponent percent_text
  = Returned (js "GitHub%20OAuth%20failed%3A%20100%25%20wrong") /\
  getGitHubTokenFromURL percent_page = (Threw URIError, percent_page).
Proof. split; vm_compute; reflexivity. Qed.

(** The 429 of a quota failure, as the page receives it. *)
Definition wait_13 : jsstring :=
  js "The Reaper is overwhelmed. Please wait 13 seconds before trying again.".

Lemma page_shows_server_error_witness :
  exists m,
    Review.error_body wait_13 = Review.error_body m /\
    fst (interact (reviewCode (rt := Reference.runtime) None
                     (js "print(1)") (js "python"))
           (fun _ => Fulfilled (delivered (Json 429 (Review.error_body wait_13))))
           [])
    = Rejected (mkException false m).
Proof.
  apply (page_shows_server_error (rt := Reference.runtime)
           Pipeline.configured None Pipeline.request_body
           (Threw (Error Pipeline.quota_failure))
           (js "print(1)") (js "python")).
  - vm_compute. reflexivity.
  - discriminate.
Defined.

Lemma cooldown_follows_wording_witness :
  exists sent,
    Gemini.mapError (rt := Reference.runtime) Pipeline.configured
      (Error Pipeline.quota_failure) = Error sent /\
    (Demo.daily (Error Pipeline.quota_failure) = false ->
     Demo.caught (Demo.mkNotice None false 0) sent
     = Demo.mkNotice (Some sent) true 10) /\
    (Demo.daily (Error Pipeline.quota_failure) = true ->
     Gemini.retrySeconds (rt := Reference.runtime) Pipeline.quota_failure
       = None ->
     Review.handleError (Error sent) = Json 429 (Review.error_body sent) /\
     Demo.caught (Demo.mkNotice None false 0) sent
     = Demo.mkNotice (Some sent) false 0).
Proof.
  apply (Demo.cooldown_follows_wording (rt := Reference.runtime)
           Pipeline.configured (e := Error Pipeline.quota_failure)
           (m := Pipeline.quota_failure) (Demo.mkNotice None false 0)).
  - reflexivity.
  - split; vm_compute; reflexivity.
Defined.

(** The daily limit of the free tier: the server answers 429 and the page
    starts no cooldown. *)
Definition daily_limit : jsstring :=
  js "[429 Too Many Requests] Quota exceeded for metric generate_content_free_tier_requests, limit: 200".

Example daily_limit_starts_no_cooldown :
  let sent :=
    js "The Reaper has reached its daily quota limit. You have reached the free tier daily limit of 200 requests. Please try again tomorrow or upgrade your plan." in
  Pipeline.served (rt := Reference.runtime) Pipeline.configured
    Pipeline.request_body (Threw (Error daily_limit))
  = Json 429 (Review.error_body sent) /\
  Demo.isRateLimited sent = false.
Proof. cbv zeta. split; vm_compute; reflexivity. Qed.

Lemma callback_lands_witness :
  (let '(outcome, w') := App.mounted signed_in in
   outcome = Returned (App.mkState true None) /\
   getStoredGitHubToken w' = Some (js "gho_example") /\ hash w' = []) /\
  (let '(outcome, w') := App.mounted turned_away in
   outcome
   = Returned (App.mkState (App.filled (getStoredGitHubToken turned_away))
                 (Some refusal_text)) /\
   getItem (localStorage w') (js "github_oauth_error") = None /\
   hash w' = []).
Proof.
  split.
  - apply (proj1 (App.callback_lands signed_in) (js "gho_example")).
    + discriminate.
    + repeat constructor; lia || discriminate.
    + reflexivity.
  - apply (proj2 (App.callback_lands turned_away) refusal_text
             refusal_escaped).
    + discriminate.
    + unfold Utf8Facts.units. repeat constructor.
    + repeat constructor; discriminate.
    + vm_compute. reflexivity.
    + reflexivity.
Defined.

End Journey.
